(** * Color Picker Core: the modified Elo preference engine

    A shallow embedding of [ColorPickerCore] (the UMD module that defines
    [generatePerceptuallyDistinctColors], [updateEloRatings] and
    [EloPickerState]) together with the properties of its rating rule,
    batch selector and session state machine.

    Conventions of the embedding.
    - JavaScript numbers that hold ratings are real numbers ([R]); the
      logistic curve [Math.pow(10, x)] is [Rpower 10 x].  Rounding of
      IEEE doubles is not modelled there: what is proved about ratings
      is proved in exact arithmetic.  Where rounding decides a
      property, the arithmetic of [updateEloRatings] is evaluated on
      binary64 numbers as well ([updateRatings64]).
    - Counters are [nat]; timestamps ([Date.now()]) are [Z].
    - Values returned by [Math.random()] are rationals in [[0,1)]; an
      operation receives the sequence of values its calls will return.
    - An operation reads the clock once: every [Date.now()] made while it
      runs returns the same [now].
    - [this.colors] is the object store: a color object is identified by
      its index in that list, and [eliminated], [favorites], [evaluating]
      hold such indices, as the source arrays hold references to the same
      objects.  Mutating a color is [alter] at its index. *)

From Stdlib Require Import Reals Lra Lia ZArith QArith Qround.
From Stdlib Require Import Floats.
From Stdlib Require Lqa.
From stdpp Require Import base list strings pretty gmap sorting.

Local Open Scope nat_scope.

(* ================================================================== *)
(** ** Data model *)

Record HSL := mkHSL { h : nat; s : nat; l : nat }.

(** A color object.  The display-only fields [name], [hex] and [rgb] are
    never read by the engine and are left out.  The hue [h] is a whole,
    non-negative number of degrees, as the generator produces it. *)
Record Color := mkColor {
  id : string;
  hsl : HSL;
  eloRating : R;
  comparisons : nat;
  wins : nat;
  losses : nat
}.

(** A reference to a color object: its index in [this.colors]. *)
Abbreviation ref := nat (only parsing).

Definition add_rating (d : R) (c : Color) : Color :=
  mkColor (id c) (hsl c) (eloRating c + d)%R (comparisons c) (wins c) (losses c).

Definition inc_comparisons (c : Color) : Color :=
  mkColor (id c) (hsl c) (eloRating c) (S (comparisons c)) (wins c) (losses c).

Definition inc_wins (c : Color) : Color :=
  mkColor (id c) (hsl c) (eloRating c) (comparisons c) (S (wins c)) (losses c).

Definition inc_losses (c : Color) : Color :=
  mkColor (id c) (hsl c) (eloRating c) (comparisons c) (wins c) (S (losses c)).

(* ================================================================== *)
(** ** Elo rating system *)

(** [calculateExpectedScore(ratingA, ratingB)] *)
Definition calculateExpectedScore (ratingA ratingB : R) : R :=
  (1 / (1 + Rpower 10 ((ratingB - ratingA) / 400)))%R.

(** [Math.max(32, 64 - comparisons * 2)] *)
Definition kFactorOf (cmp : nat) : R := Rmax 32 (64 - INR cmp * 2).

(** [updateEloRatings(winner, loser, isDraw)].  The two arguments are
    references into the store [cs].  The K-factor and both expected scores
    are read before any field is written; the writes then happen in source
    order (winner's rating, loser's rating, wins, losses, the two
    comparison counters).  A dangling index has no counterpart in the
    source; the store is then returned as it is. *)
Definition updateEloRatings (winner loser : ref) (isDraw : bool)
    (cs : list Color) : list Color :=
  match cs !! winner, cs !! loser with
  | Some w, Some lo =>
      let kFactor := kFactorOf (comparisons w) in
      let expectedWin := calculateExpectedScore (eloRating w) (eloRating lo) in
      let expectedLose := calculateExpectedScore (eloRating lo) (eloRating w) in
      let cs1 :=
        if isDraw then
          alter (add_rating (kFactor * (0.5 - expectedLose))) loser
            (alter (add_rating (kFactor * (0.5 - expectedWin))) winner cs)
        else
          alter inc_losses loser
            (alter inc_wins winner
              (alter (add_rating (kFactor * (0 - expectedLose))) loser
                (alter (add_rating (kFactor * (1 - expectedWin))) winner cs)))
      in
      alter inc_comparisons loser (alter inc_comparisons winner cs1)
  | _, _ => cs
  end.

(** The net effect of one call on the winner object and on the loser
    object, given the two colors [w] and [lo] as they were read on entry
    (see [updateEloRatings_alter]). *)
Definition winnerUpdate (isDraw : bool) (w lo : Color) (c : Color) : Color :=
  let kFactor := kFactorOf (comparisons w) in
  let expectedWin := calculateExpectedScore (eloRating w) (eloRating lo) in
  mkColor (id c) (hsl c)
    (eloRating c + kFactor * ((if isDraw then 0.5 else 1) - expectedWin))%R
    (S (comparisons c)) (if isDraw then wins c else S (wins c)) (losses c).

Definition loserUpdate (isDraw : bool) (w lo : Color) (c : Color) : Color :=
  let kFactor := kFactorOf (comparisons w) in
  let expectedLose := calculateExpectedScore (eloRating lo) (eloRating w) in
  mkColor (id c) (hsl c)
    (eloRating c + kFactor * ((if isDraw then 0.5 else 0) - expectedLose))%R
    (S (comparisons c)) (wins c) (if isDraw then losses c else S (losses c)).

(** *** The same arithmetic on IEEE doubles

    The rating arithmetic of [updateEloRatings] on binary64 numbers, for
    the pairings the language fixes completely: [Math.pow(10, x)] is [1]
    for an exponent [+0] or [-0], which is the exponent two equal
    ratings give; every other power is an implementation-approximated
    value and has no result here. *)

#[local] Set Warnings "-inexact-float".

(** [Math.pow(10, x)] where the language fixes it. *)
Definition pow10_64 (x : float) : option float :=
  if PrimFloat.eqb x 0 then Some 1%float else None.

(** [calculateExpectedScore(ratingA, ratingB)] on doubles. *)
Definition calculateExpectedScore64 (ratingA ratingB : float)
    : option float :=
  p ← pow10_64 ((ratingB - ratingA) / 400)%float;
  Some (1 / (1 + p))%float.

(** [Math.max(32, 64 - comparisons * 2)] on doubles; a counter is a whole
    number, which a double holds exactly. *)
Definition kFactor64 (cmp : nat) : float :=
  let k := (64 - PrimFloat.of_uint63 (Uint63.of_Z (Z.of_nat cmp)) * 2)%float in
  if PrimFloat.ltb 32 k then k else 32%float.

(** The two ratings [(winner.eloRating, loser.eloRating)] after
    [updateEloRatings(winner, loser, isDraw)] on doubles, from the
    winner's and the loser's rating and the winner's comparison count. *)
Definition updateRatings64 (isDraw : bool) (winnerRating : float)
    (winnerComparisons : nat) (loserRating : float)
    : option (float * float) :=
  let kFactor := kFactor64 winnerComparisons in
  expectedWin ← calculateExpectedScore64 winnerRating loserRating;
  expectedLose ← calculateExpectedScore64 loserRating winnerRating;
  Some (if isDraw
        then ((winnerRating + kFactor * (0.5 - expectedWin))%float,
              (loserRating + kFactor * (0.5 - expectedLose))%float)
        else ((winnerRating + kFactor * (1 - expectedWin))%float,
              (loserRating + kFactor * (0 - expectedLose))%float)).

(** Sum of all ratings in the pool. *)
Definition totalRating (cs : list Color) : R :=
  foldr (fun c acc => (eloRating c + acc)%R) 0%R cs.

(* ================================================================== *)
(** ** Sorting

    [Array.prototype.sort] is stable.  With a comparator that is a
    consistent ordering the result is the unique stable permutation, which
    insertion from the right computes: [x], which preceded every element
    of [xs], is moved behind exactly the elements it has to come [after]
    (those [y] with [compare(x, y) > 0]). *)

Fixpoint insertBy {A : Type} (after : A -> A -> bool) (x : A) (xs : list A)
    : list A :=
  match xs with
  | [] => [x]
  | y :: ys => if after x y then y :: insertBy after x ys else x :: y :: ys
  end.

Definition stableSort {A : Type} (after : A -> A -> bool) (xs : list A)
    : list A :=
  foldr (insertBy after) [] xs.

Definition Rltb (a b : R) : bool := if Rlt_dec a b then true else false.

(** Field reads through a reference. *)
Definition ratingAt (cs : list Color) (i : ref) : R :=
  match cs !! i with Some c => eloRating c | None => 0%R end.

Definition hueAt (cs : list Color) (i : ref) : nat :=
  match cs !! i with Some c => h (hsl c) | None => 0 end.

Definition comparisonsAt (cs : list Color) (i : ref) : nat :=
  match cs !! i with Some c => comparisons c | None => 0 end.

Definition winsAt (cs : list Color) (i : ref) : nat :=
  match cs !! i with Some c => wins c | None => 0 end.

Definition lossesAt (cs : list Color) (i : ref) : nat :=
  match cs !! i with Some c => losses c | None => 0 end.

(** [xs.sort((a, b) => b.eloRating - a.eloRating)] *)
Definition sortByRatingDesc (cs : list Color) (xs : list ref) : list ref :=
  stableSort (fun a b => Rltb (ratingAt cs a) (ratingAt cs b)) xs.

(** [xs.sort((a, b) => a.hsl.h - b.hsl.h)] *)
Definition sortByHue (cs : list Color) (xs : list ref) : list ref :=
  stableSort (fun a b => hueAt cs b <? hueAt cs a) xs.

(** [x || 1500] on a number: zero is falsy. *)
Definition orDefault (x d : R) : R := if Req_dec_T x 0 then d else x.

(** [xs[i]?.eloRating || 1500] *)
Definition ratingOr1500 (cs : list Color) (xs : list ref) (i : nat) : R :=
  match xs !! i with
  | Some c => orDefault (ratingAt cs c) 1500
  | None => 1500%R
  end.

(* ================================================================== *)
(** ** Random source

    One value of [Math.random()]: a rational in [[0,1)].  A [Rng] is the
    sequence of values the calls made during one operation return. *)

Definition Qltb (a b : Q) : bool := negb (Qle_bool b a).

Record U01 := mkU01 {
  u01 : Q;
  u01_range : Qle_bool 0 u01 && Qltb u01 1 = true
}.

Definition Rng := nat -> U01.

(** [Math.floor(Math.random() * n)] *)
Definition randomBelow (r : U01) (n : nat) : nat :=
  Z.to_nat (Qfloor (u01 r * inject_Z (Z.of_nat n))).

(** The stream after its first [k] values have been consumed. *)
Definition skipRng (k : nat) (rng : Rng) : Rng := fun n => rng (k + n).

(* ================================================================== *)
(** ** Color generation *)

Definition goldenRatioConjugate : Q := 618033988749895 # 1000000000000000.
Definition lightnessLevels : list Q :=
  [3 # 10; 4 # 10; 5 # 10; 6 # 10; 7 # 10; 8 # 10; 9 # 10]%Q.
Definition saturationLevels : list Q := [4 # 10; 6 # 10; 8 # 10; 1]%Q.

Definition floorNat (q : Q) : nat := Z.to_nat (Qfloor q).

(** The body of the [for] loop of [generatePerceptuallyDistinctColors]:
    [n] iterations remain, [i] is the loop counter and [hue] the running
    hue.  [hue %= 1] on a non-negative number drops the integer part.
    The running hue is an exact rational here and a double in the
    source, so a hue may differ by a degree where the two fall on
    different sides of a whole number. *)
Fixpoint generateFrom (n i : nat) (hue : Q) : list Color :=
  match n with
  | 0 => []
  | S n' =>
      let hue1 := (hue + goldenRatioConjugate)%Q in
      let hue2 := (hue1 - inject_Z (Qfloor hue1))%Q in
      let satIndex := i mod length saturationLevels in
      let lightIndex := (i / length saturationLevels) mod length lightnessLevels in
      let h := floorNat (hue2 * 360) in
      let s := floorNat (nth satIndex saturationLevels 0%Q * 100) in
      let l := floorNat (nth lightIndex lightnessLevels 0%Q * 100) in
      mkColor ("color_" +:+ pretty i) (mkHSL h s l) 1500 0 0 0
        :: generateFrom n' (S i) hue2
  end.

(** [generatePerceptuallyDistinctColors(count)]; [seed] is the value of
    the single [Math.random()] call. *)
Definition generatePerceptuallyDistinctColors (count : nat) (seed : U01)
    : list Color :=
  generateFrom count 0 (u01 seed).

(* ================================================================== *)
(** ** Diverse batch selection *)

(** [getHueGroup(hue)] *)
Definition getHueGroup (hue : nat) : nat := (hue / 30) mod 12.

(** [groupByHue(colors)]: the twelve groups, keys [0..11] in order, each
    holding its colors in input order and then sorted by rating. *)
Definition groupByHue (cs : list Color) (colors : list ref)
    : list (list ref) :=
  map (fun key =>
         sortByRatingDesc cs
           (filter (fun c => getHueGroup (hueAt cs c) = key) colors))
      (seq 0 12).

(** The loop that seeds the batch with higher-rated colors.  [cands] is
    [sortedByRating] from [startIndex] on; every visited candidate consumes
    one random value (the 70% draw). *)
Fixpoint highRatedLoop (cs : list Color) (rng : Rng) (cands : list ref)
    (highRatedCount : nat) (batch : list ref) (usedGroups : list nat)
    (k : nat) : list ref * list nat * nat :=
  match cands with
  | [] => (batch, usedGroups, k)
  | color :: rest =>
      if length batch <? highRatedCount then
        if Qltb (u01 (rng k)) (7 # 10) then
          highRatedLoop cs rng rest highRatedCount (batch ++ [color])
            (getHueGroup (hueAt cs color) :: usedGroups) (S k)
        else
          highRatedLoop cs rng rest highRatedCount batch usedGroups (S k)
      else (batch, usedGroups, k)
  end.

(** [keys.sort(() => Math.random() - 0.5)].  The comparator is not a
    consistent ordering, so the resulting order is left to the engine's
    sort; this is insertion sort drawing one value per comparison.  The
    properties proved about the selector do not depend on the order of the
    keys (see [groupLoop_spec], stated for any key list). *)
Fixpoint insertRandom (rng : Rng) (x : nat) (xs : list nat) (k : nat)
    : list nat * nat :=
  match xs with
  | [] => ([x], k)
  | y :: ys =>
      if Qltb (1 # 2) (u01 (rng k)) then
        let '(r, k') := insertRandom rng x ys (S k) in (y :: r, k')
      else (x :: y :: ys, S k)
  end.

Fixpoint sortRandom (rng : Rng) (xs : list nat) (k : nat) : list nat * nat :=
  match xs with
  | [] => ([], k)
  | x :: xs' =>
      let '(sorted, k1) := sortRandom rng xs' k in
      insertRandom rng x sorted k1
  end.

(** The loop over the shuffled group keys. *)
Fixpoint groupLoop (rng : Rng) (hueGroups : list (list ref)) (size : nat)
    (groupKeys : list nat) (batch : list ref) (usedGroups : list nat)
    (k : nat) : list ref * nat :=
  match groupKeys with
  | [] => (batch, k)
  | groupKey :: rest =>
      if size <=? length batch then (batch, k)
      else
        let group := default [] (hueGroups !! groupKey) in
        if length group =? 0 then
          groupLoop rng hueGroups size rest batch usedGroups k
        else if bool_decide (groupKey ∈ usedGroups) then
          groupLoop rng hueGroups size rest batch usedGroups k
        else
          let randomIndex := randomBelow (rng k) (min 3 (length group)) in
          match group !! randomIndex with
          | Some color =>
              if bool_decide (color ∈ batch) then
                groupLoop rng hueGroups size rest batch usedGroups (S k)
              else
                groupLoop rng hueGroups size rest (batch ++ [color])
                  (groupKey :: usedGroups) (S k)
          | None =>
              (* not reached: randomIndex < length group *)
              groupLoop rng hueGroups size rest batch usedGroups (S k)
          end
  end.

(** The [while] loop that fills the remaining slots.  Every iteration
    removes one element of [remaining], so [length remaining] iterations
    are enough; [fuel] starts at that value. *)
Fixpoint fillLoop (rng : Rng) (fuel size : nat) (batch remaining : list ref)
    (k : nat) : list ref :=
  match fuel with
  | 0 => batch
  | S fuel' =>
      if (length batch <? size) && (0 <? length remaining) then
        let randomIndex := randomBelow (rng k) (length remaining) in
        match remaining !! randomIndex with
        | Some color =>
            fillLoop rng fuel' size (batch ++ [color])
              (delete randomIndex remaining) (S k)
        | None => batch (* not reached: randomIndex < length remaining *)
        end
      else batch
  end.

(** [selectDiverseBatch(available, size)] *)
Definition selectDiverseBatch (cs : list Color) (rng : Rng)
    (available : list ref) (size : nat) : list ref :=
  if length available <=? size then available
  else
    let hueGroups := groupByHue cs available in
    let sortedByRating := sortByRatingDesc cs available in
    let skipTop := Qltb (u01 (rng 0)) (6 # 10) in
    let startIndex := if skipTop then randomBelow (rng 1) 3 + 1 else 0 in
    let k0 := if skipTop then 2 else 1 in
    let highRatedCount := 2 + randomBelow (rng k0) 2 in
    let '(batch1, usedGroups, k1) :=
      highRatedLoop cs rng (drop startIndex sortedByRating) highRatedCount
        [] [] (S k0) in
    let '(groupKeys, k2) := sortRandom rng (seq 0 12) k1 in
    let '(batch2, k3) :=
      groupLoop rng hueGroups size groupKeys batch1 usedGroups k2 in
    let remaining := filter (fun c => c ∉ batch2) available in
    let batch3 := fillLoop rng (length remaining) size batch2 remaining k3 in
    sortByHue cs batch3.

(* ================================================================== *)
(** ** Session state *)

(** The settings object is opaque to the engine; [{}] has no batch size. *)
Record Settings := mkSettings { batchSize : option nat }.

Record Analytics := mkAnalytics {
  sessionStartTime : Z;
  totalComparisons : nat;
  sessionComparisons : nat;
  passes : nat;
  picks : nat;
  averageDecisionTime : Q;
  decisionTimes : list Z
}.

(** The constructor's [options].  [None] is a property that is absent.
    Supplied [items] carry their statistics. *)
Record Options := mkOptions {
  items : option (list Color);
  generateColors : option bool;
  colorCount : option nat;
  optMaxComparisons : option nat;
  defaultSettings : option Settings
}.

Record EloPickerState := mkState {
  options : Options;
  maxComparisons : nat;
  analytics : Analytics;
  lastActionTime : Z;
  colors : list Color;
  eliminated : list ref;
  favorites : list ref;
  evaluating : option (list ref);
  settings : Settings;
  sessionComplete : bool
}.

(** A saved color and a snapshot, as [getState] produces them and
    [restoreState] reads them. *)
Record SavedColor := mkSaved {
  savedId : string;
  savedEloRating : R;
  savedComparisons : nat;
  savedWins : nat;
  savedLosses : nat
}.

Record Snapshot := mkSnapshot {
  snapColors : option (list SavedColor);
  snapEvaluating : option (list string);
  snapFavorites : option (list string);
  snapEliminated : option (list string);
  snapSettings : option Settings;
  snapAnalytics : option Analytics;
  snapSessionComplete : option bool
}.

(** Field assignments. *)
Definition setColors (v : list Color) (st : EloPickerState) :=
  mkState (options st) (maxComparisons st) (analytics st) (lastActionTime st)
    v (eliminated st) (favorites st) (evaluating st) (settings st)
    (sessionComplete st).
Definition setEliminated (v : list ref) (st : EloPickerState) :=
  mkState (options st) (maxComparisons st) (analytics st) (lastActionTime st)
    (colors st) v (favorites st) (evaluating st) (settings st)
    (sessionComplete st).
Definition setFavorites (v : list ref) (st : EloPickerState) :=
  mkState (options st) (maxComparisons st) (analytics st) (lastActionTime st)
    (colors st) (eliminated st) v (evaluating st) (settings st)
    (sessionComplete st).
Definition setEvaluating (v : option (list ref)) (st : EloPickerState) :=
  mkState (options st) (maxComparisons st) (analytics st) (lastActionTime st)
    (colors st) (eliminated st) (favorites st) v (settings st)
    (sessionComplete st).
Definition setSessionComplete (v : bool) (st : EloPickerState) :=
  mkState (options st) (maxComparisons st) (analytics st) (lastActionTime st)
    (colors st) (eliminated st) (favorites st) (evaluating st) (settings st) v.
Definition setAnalytics (v : Analytics) (st : EloPickerState) :=
  mkState (options st) (maxComparisons st) v (lastActionTime st)
    (colors st) (eliminated st) (favorites st) (evaluating st) (settings st)
    (sessionComplete st).
Definition setLastActionTime (v : Z) (st : EloPickerState) :=
  mkState (options st) (maxComparisons st) (analytics st) v
    (colors st) (eliminated st) (favorites st) (evaluating st) (settings st)
    (sessionComplete st).
Definition setSettings (v : Settings) (st : EloPickerState) :=
  mkState (options st) (maxComparisons st) (analytics st) (lastActionTime st)
    (colors st) (eliminated st) (favorites st) (evaluating st) v
    (sessionComplete st).

(** [this.evaluating = null; this.sessionComplete = true] *)
Definition complete (st : EloPickerState) : EloPickerState :=
  setSessionComplete true (setEvaluating None st).

(** [this.sessionComplete ||
     this.analytics.sessionComparisons >= this.maxComparisons] *)
Definition capReached (st : EloPickerState) : bool :=
  sessionComplete st
  || (maxComparisons st <=? sessionComparisons (analytics st)).

(** [x || d] on an optional count: absent and zero are falsy. *)
Definition natOr (x : option nat) (d : nat) : nat :=
  match x with
  | Some 0 | None => d
  | Some n => n
  end.

(** [new EloPickerState(options)] at clock reading [now].  Without items
    and without [generateColors] the constructor logs an error and leaves
    the object without fields: [None]. *)
Definition newEloPickerState (opts : Options) (now : Z)
    : option EloPickerState :=
  if negb (bool_decide (is_Some (items opts)))
     && negb (default false (generateColors opts))
  then None
  else Some (mkState opts (natOr (optMaxComparisons opts) 20)
               (mkAnalytics now 0 0 0 0 0 []) now [] [] [] None
               (mkSettings None) false).

#[local] Instance Rlt_decision : RelDecision Rlt := Rlt_dec.

(** [settings || this.options.defaultSettings || { batchSize: 10 }] *)
Definition chooseSettings (given : option Settings) (opts : Options)
    : Settings :=
  match given, defaultSettings opts with
  | Some v, _ => v
  | None, Some v => v
  | None, None => mkSettings (Some 10)
  end.

(** The references of all colors, in pool order. *)
Definition allRefs (st : EloPickerState) : list ref :=
  seq 0 (length (colors st)).

(** [this.colors.filter(c => !this.eliminated.includes(c) &&
                              !this.favorites.includes(c))] *)
Definition availableOf (st : EloPickerState) : list ref :=
  filter (fun c => (c ∉ eliminated st) ∧ (c ∉ favorites st)) (allRefs st).

(** The elimination pass of [nextBatch]: the references pushed onto
    [this.eliminated], in the order of [available]. *)
Definition toEliminate (cs : list Color) (available : list ref) : list ref :=
  let sortedByRating := sortByRatingDesc cs available in
  let threshold :=
    ratingOr1500 cs sortedByRating (length sortedByRating * 3 / 4) in
  filter (fun c => 8 <= comparisonsAt cs c
                   ∧ (ratingAt cs c < threshold - 200)%R) available.

(** [nextBatch()].  [now] is the clock reading of the operation that runs
    it; [rng] feeds [selectDiverseBatch]. *)
Definition nextBatch (now : Z) (rng : Rng) (st : EloPickerState)
    : EloPickerState :=
  if capReached st then complete st
  else
    let available := availableOf st in
    if length available =? 0 then complete st
    else
      let st1 :=
        if 10 <=? sessionComparisons (analytics st) then
          setEliminated (eliminated st ++ toEliminate (colors st) available) st
        else st in
      let batchSize := min 10 (length available) in
      let batch :=
        selectDiverseBatch (colors st1) rng
          (filter (fun c => c ∉ eliminated st1) available) batchSize in
      setLastActionTime now (setEvaluating (Some batch) st1).

(** One element of [this.options.items] as [initialize] copies it:
    [eloRating: item.eloRating || 1500], the counters [|| 0]. *)
Definition adoptItem (item : Color) : Color :=
  mkColor (id item) (hsl item) (orDefault (eloRating item) 1500)
    (comparisons item) (wins item) (losses item).

(** The pool [initialize] and [restoreState] start from when colors are
    generated: [generatePerceptuallyDistinctColors(colorCount || 200)]. *)
Definition generatedPool (opts : Options) (seed : U01) : list Color :=
  generatePerceptuallyDistinctColors (natOr (colorCount opts) 200) seed.

(** [initialize(settings)].  [rng 0] seeds the generator; the rest of the
    stream feeds the first [nextBatch]. *)
Definition initialize (given : option Settings) (now : Z) (rng : Rng)
    (st : EloPickerState) : EloPickerState :=
  let opts := options st in
  let cs :=
    if bool_decide (generateColors opts = Some false) then
      map adoptItem (default [] (items opts))
    else generatedPool opts (rng 0) in
  let a := analytics st in
  let a' := mkAnalytics now (totalComparisons a) 0 (passes a) (picks a)
              (averageDecisionTime a) (decisionTimes a) in
  nextBatch now (skipRng 1 rng)
    (mkState opts (maxComparisons st) a' (lastActionTime st) cs [] [] None
       (chooseSettings given opts) false).

(** [colorMap]: [this.colors.forEach(c => colorMap.set(c.id, c))]; a later
    color with the same id replaces an earlier one. *)
Definition colorMapOf (cs : list Color) : gmap string ref :=
  foldl (fun m ic => <[id ic.2 := ic.1]> m) ∅ (zip (seq 0 (length cs)) cs).

(** One step of [state.colors.forEach(savedColor => ...)]. *)
Definition overlaySaved (colorMap : gmap string ref) (cs : list Color)
    (saved : SavedColor) : list Color :=
  match colorMap !! savedId saved with
  | Some i =>
      alter (fun c => mkColor (id c) (hsl c) (savedEloRating saved)
                        (savedComparisons saved) (savedWins saved)
                        (savedLosses saved)) i cs
  | None => cs
  end.

(** [ids.map(id => colorMap.get(id)).filter(c => c)] *)
Definition resolveIds (colorMap : gmap string ref) (ids : list string)
    : list ref :=
  omap (fun i => colorMap !! i) ids.

(** [restoreState(state)]; [seed] is the generator's random value.  When
    items are supplied, [this.colors] is the supplied array itself, taken
    here as a list of distinct objects; the source then writes the saved
    statistics into the objects of [options.items], which this
    definition leaves as they were. *)
Definition restoreState (state : Snapshot) (seed : U01)
    (st : EloPickerState) : EloPickerState :=
  let opts := options st in
  let cs0 :=
    if bool_decide (generateColors opts = Some false) then
      default [] (items opts)
    else generatedPool opts seed in
  let colorMap := colorMapOf cs0 in
  let cs :=
    match snapColors state with
    | Some saved => foldl (overlaySaved colorMap) cs0 saved
    | None => cs0
    end in
  let a := default (analytics st) (snapAnalytics state) in
  let restored :=
    mkState opts (maxComparisons st) a (lastActionTime st) cs
      (default [] (resolveIds colorMap <$> snapEliminated state))
      (default [] (resolveIds colorMap <$> snapFavorites state))
      (resolveIds colorMap <$> snapEvaluating state)
      (chooseSettings (snapSettings state) opts)
      (default false (snapSessionComplete state)) in
  if capReached restored then complete restored else restored.

(** [checkForNewFavorites()] *)
Definition checkForNewFavorites (st : EloPickerState) : EloPickerState :=
  if 20 <=? sessionComparisons (analytics st) then
    let cs := colors st in
    let available :=
      filter (fun c => (c ∉ eliminated st) ∧ (c ∉ favorites st)
                       ∧ (10 <= comparisonsAt cs c)) (allRefs st) in
    let sorted := sortByRatingDesc cs available in
    match sorted with
    | [] => st
    | topColor :: _ =>
        let secondBest := ratingOr1500 cs sorted 1 in
        if Rltb (secondBest + 100) (ratingAt cs topColor)
           || (25 <=? sessionComparisons (analytics st))
        then setFavorites (favorites st ++ [topColor]) st
        else st
    end
  else st.

(** [pickedSet.has(c.id)] *)
Definition isPicked (cs : list Color) (picked : list string) (c : ref)
    : bool :=
  match cs !! c with
  | Some col => bool_decide (id col ∈ picked)
  | None => false
  end.

(** The decision-time bookkeeping shared by [pick] and [pass]. *)
Definition recordDecision (now : Z) (st : EloPickerState) : Analytics :=
  let a := analytics st in
  let times := decisionTimes a ++ [(now - lastActionTime st)%Z] in
  let total := foldl Z.add 0%Z times in
  mkAnalytics (sessionStartTime a) (totalComparisons a)
    (sessionComparisons a) (passes a) (picks a)
    (inject_Z total / inject_Z (Z.of_nat (length times)))%Q times.

(** [winners.forEach(winner => losers.forEach(loser =>
       updateEloRatings(winner, loser, false)))] *)
Definition winLossUpdates (winners losers : list ref) (cs : list Color)
    : list Color :=
  foldl (fun cs1 winner =>
           foldl (fun cs2 loser => updateEloRatings winner loser false cs2)
                 cs1 losers)
        cs winners.

(** [for i, for j > i: updateEloRatings(xs[i], xs[j], true)] *)
Fixpoint drawUpdates (xs : list ref) (cs : list Color) : list Color :=
  match xs with
  | [] => cs
  | x :: rest =>
      drawUpdates rest
        (foldl (fun cs1 y => updateEloRatings x y true cs1) cs rest)
  end.

(** The tail shared by [pick] and [pass]: stop at the cap, else
    [nextBatch()]. *)
Definition advance (now : Z) (rng : Rng) (st : EloPickerState)
    : EloPickerState :=
  if maxComparisons st <=? sessionComparisons (analytics st)
  then complete st
  else nextBatch now rng st.

(** [pick(picked)] *)
Definition pick (picked : list string) (now : Z) (rng : Rng)
    (st : EloPickerState) : EloPickerState :=
  match evaluating st with
  | None => st
  | Some ev =>
      if length picked =? 0 then st
      else if capReached st then complete st
      else
        let a := recordDecision now st in
        let cs := colors st in
        let winners := filter (fun c => isPicked cs picked c = true) ev in
        let losers := filter (fun c => isPicked cs picked c = false) ev in
        let cs1 := winLossUpdates winners losers cs in
        let cs2 := if 1 <? length winners then drawUpdates winners cs1
                   else cs1 in
        let a' := mkAnalytics (sessionStartTime a) (S (totalComparisons a))
                    (S (sessionComparisons a)) (passes a) (S (picks a))
                    (averageDecisionTime a) (decisionTimes a) in
        advance now rng
          (checkForNewFavorites (setAnalytics a' (setColors cs2 st)))
  end.

(** [pass()] *)
Definition pass (now : Z) (rng : Rng) (st : EloPickerState)
    : EloPickerState :=
  match evaluating st with
  | None => st
  | Some ev =>
      if capReached st then complete st
      else
        let a := recordDecision now st in
        let cs1 := drawUpdates ev (colors st) in
        let a' := mkAnalytics (sessionStartTime a) (totalComparisons a)
                    (S (sessionComparisons a)) (S (passes a)) (picks a)
                    (averageDecisionTime a) (decisionTimes a) in
        advance now rng (setAnalytics a' (setColors cs1 st))
  end.

(** A decision and a run of decisions. *)
Inductive Action :=
  | DoPick (picked : list string) (now : Z) (rng : Rng)
  | DoPass (now : Z) (rng : Rng).

Definition applyAction (d : Action) (st : EloPickerState) : EloPickerState :=
  match d with
  | DoPick picked now rng => pick picked now rng st
  | DoPass now rng => pass now rng st
  end.

Definition run (ds : list Action) (st : EloPickerState) : EloPickerState :=
  foldl (fun st1 d => applyAction d st1) st ds.

(** A decision that meets the entry guard of its operation:
    [!this.evaluating || picked.length === 0] for [pick],
    [!this.evaluating] for [pass]. *)
Definition guarded (d : Action) (st : EloPickerState) : Prop :=
  match d with
  | DoPick picked _ _ => evaluating st = None \/ picked = []
  | DoPass _ _ => evaluating st = None
  end.

(* ================================================================== *)
(** ** Item invariants *)

(** [wins + losses <= comparisons] *)
Definition statsConsistent (c : Color) : Prop :=
  wins c + losses c <= comparisons c.

(** How far a color [c] may have moved from an earlier version [c0] of
    itself: it is the same color, it has not lost comparisons, and its
    rating moved by at most 64 points per comparison made since. *)
Definition drift (c0 c : Color) : Prop :=
  id c = id c0 /\ hsl c = hsl c0
  /\ comparisons c0 <= comparisons c
  /\ (Rabs (eloRating c - eloRating c0)
      <= 64 * INR (comparisons c - comparisons c0))%R.

(** The statistics every color starts with. *)
Definition isFresh (c : Color) : Prop :=
  eloRating c = 1500%R /\ comparisons c = 0 /\ wins c = 0 /\ losses c = 0.

(** The statistics of externally supplied items, where [initialize] adopts
    them, respect [wins + losses <= comparisons]. *)
Definition suppliedItemsConsistent (opts : Options) : bool :=
  if bool_decide (generateColors opts = Some false) then
    forallb (fun c => wins c + losses c <=? comparisons c)
      (default [] (items opts))
  else true.

(* ================================================================== *)
(** ** Concrete pools used in examples *)

(** A random source that always returns one half. *)
Definition half : U01 := mkU01 (1 # 2) eq_refl.
Definition halves : Rng := fun _ => half.

(** The configuration the application starts with. *)
Definition appOptions : Options :=
  mkOptions None (Some true) (Some 200) (Some 20)
    (Some (mkSettings (Some 10))).

(** The object [new EloPickerState(appOptions)] builds at time 0. *)
Definition appSession : EloPickerState :=
  mkState appOptions 20 (mkAnalytics 0 0 0 0 0 0 []) 0 [] [] [] None
    (mkSettings None) false.

Definition sampleColor (name : string) (hue : nat) (rating : R) (cmp : nat)
    : Color :=
  mkColor name (mkHSL hue 80 50) rating cmp 0 0.

(** A fresh color and a seasoned one, equally rated. *)
Definition unevenPair : list Color :=
  [sampleColor "a" 0 1500 0; sampleColor "b" 120 1500 20].

(** Two fresh colors. *)
Definition freshPair : list Color :=
  [sampleColor "a" 0 1500 0; sampleColor "b" 120 1500 0].

(** A session of the application sitting at an empty batch. *)
Definition emptyBatchSession : EloPickerState :=
  mkState appOptions 20 (mkAnalytics 0 0 0 0 0 0 []) 0 freshPair [] []
    (Some []) (mkSettings None) false.

(** A snapshot taken at the round cap whose flag still says "running". *)
Definition cappedSnapshot : Snapshot :=
  mkSnapshot None (Some ["color_0"; "color_1"]) None None None
    (Some (mkAnalytics 0 20 20 5 15 0 [])) (Some false).

(** Generation enabled with a color count of zero. *)
Definition zeroCountOptions : Options :=
  mkOptions None (Some true) (Some 0) (Some 20) None.

Definition zeroCountSession : EloPickerState :=
  mkState zeroCountOptions 20 (mkAnalytics 0 0 0 0 0 0 []) 0 [] [] [] None
    (mkSettings None) false.

(** Generation disabled with an empty list of items. *)
Definition noItemsOptions : Options :=
  mkOptions (Some []) (Some false) None (Some 20) None.

Definition noItemsSession : EloPickerState :=
  mkState noItemsOptions 20 (mkAnalytics 0 0 0 0 0 0 []) 0 [] [] [] None
    (mkSettings None) false.

(** Three fresh, equally rated colors and a session showing all three. *)
Definition threePool : list Color :=
  [sampleColor "a" 0 1500 0; sampleColor "b" 120 1500 0;
   sampleColor "c" 240 1500 0].

Definition threeSession : EloPickerState :=
  mkState appOptions 20 (mkAnalytics 0 0 0 0 0 0 []) 0 threePool [] []
    (Some [0; 1; 2]) (mkSettings (Some 10)) false.

(** A random source that always returns 0.65: the top colors are not
    skipped, three seeds are asked for, and every 70% draw succeeds. *)
Definition r65 : U01 := mkU01 (65 # 100) eq_refl.
Definition always65 : Rng := fun _ => r65.

(** A pool of one supplied color, and a snapshot of it in which that
    color has sunk to rating 0 after 8 comparisons, 10 rounds in. *)
Definition loneOptions : Options :=
  mkOptions (Some [sampleColor "a" 0 1500 0]) (Some false) None (Some 20)
    None.

Definition loneSession : EloPickerState :=
  mkState loneOptions 20 (mkAnalytics 0 0 0 0 0 0 []) 0 [] [] [] None
    (mkSettings None) false.

Definition sunkSnapshot : Snapshot :=
  mkSnapshot (Some [mkSaved "a" 0 8 0 8]) (Some ["a"]) None None None
    (Some (mkAnalytics 0 10 10 0 10 0 [])) (Some false).

(** What [restoreState sunkSnapshot] makes of [loneSession], for a given
    analytics record. *)
Definition sunkColor : Color := mkColor "a" (mkHSL 0 80 50) 0 8 0 8.

Definition sunkSession (a : Analytics) : EloPickerState :=
  mkState loneOptions 20 a 0 [sunkColor] [] [] (Some [0])
    (mkSettings (Some 10)) false.

(* ================================================================== *)
(** ** Queries, snapshots and the remaining session operations *)

(** [c.id] through a reference. *)
Definition idAt (cs : list Color) (i : ref) : string :=
  match cs !! i with Some c => id c | None => "" end.

(** [getTopColors(count)]: the references of the [count] best rated
    colors, best first. *)
Definition getTopColors (count : nat) (st : EloPickerState) : list ref :=
  take count (sortByRatingDesc (colors st) (allRefs st)).

(** One element of [this.colors.map(c => ({id, eloRating, ...}))]. *)
Definition saveColor (c : Color) : SavedColor :=
  mkSaved (id c) (eloRating c) (comparisons c) (wins c) (losses c).

(** [getState()].  [JSON.parse(JSON.stringify(x))] copies [x]. *)
Definition getState (st : EloPickerState) : Snapshot :=
  mkSnapshot
    (Some (map saveColor (colors st)))
    (Some (match evaluating st with
           | Some ev => map (idAt (colors st)) ev
           | None => []
           end))
    (Some (map (idAt (colors st)) (favorites st)))
    (Some (map (idAt (colors st)) (eliminated st)))
    (Some (settings st))
    (Some (analytics st))
    (Some (sessionComplete st)).

(** [reset()]: [this.initialize(this.settings)]; the settings object is
    always truthy. *)
Definition reset (now : Z) (rng : Rng) (st : EloPickerState)
    : EloPickerState :=
  initialize (Some (settings st)) now rng st.

(** The method [setFavorites(favorites)], which takes ids:
    [favorites.map(id => colorMap.get(id)).filter(c => c)]. *)
Definition setFavoritesByIds (ids : list string) (st : EloPickerState)
    : EloPickerState :=
  setFavorites (resolveIds (colorMapOf (colors st)) ids) st.

(** The statistics of a color, apart from what it looks like. *)
Definition statsOf (c : Color) : string * R * nat * nat * nat :=
  (id c, eloRating c, comparisons c, wins c, losses c).

(** The membership lists and the batch only hold references into the
    pool; no color is listed twice, none is both eliminated and a
    favorite, and the batch shows active colors only. *)
Definition membershipOk (st : EloPickerState) : Prop :=
  NoDup (eliminated st) /\ NoDup (favorites st)
  /\ (forall c, c ∈ eliminated st -> c < length (colors st))
  /\ (forall c, c ∈ favorites st -> c < length (colors st))
  /\ (forall c, c ∈ eliminated st -> c ∉ favorites st)
  /\ (forall ev, evaluating st = Some ev ->
        NoDup ev /\ length ev <= 10
        /\ forall c, c ∈ ev -> c ∈ availableOf st).

(** A session is either running on a batch, below its cap, or complete
    without a batch. *)
Definition phaseOk (st : EloPickerState) : Prop :=
  (sessionComplete st = true /\ evaluating st = None)
  \/ (sessionComplete st = false /\ is_Some (evaluating st)
      /\ sessionComparisons (analytics st) < maxComparisons st).

(** A session of 12 generated colors capped at 2 rounds. *)
Definition shortOptions : Options :=
  mkOptions None (Some true) (Some 12) (Some 2) None.

Definition shortSession : EloPickerState :=
  mkState shortOptions 2 (mkAnalytics 0 0 0 0 0 0 []) 0 [] [] [] None
    (mkSettings None) false.

(** A fresh session object over the three sample colors, as a page
    reload would construct it before restoring a snapshot. *)
Definition threeOptions : Options :=
  mkOptions (Some threePool) (Some false) None (Some 20) None.

Definition threeHome : EloPickerState :=
  mkState threeOptions 20 (mkAnalytics 9 0 0 0 0 0 []) 9 [] [] [] None
    (mkSettings None) false.

(** Supplied items whose own statistics break [wins + losses <=
    comparisons]: the first has three wins and no comparison. *)
Definition lopsidedPool : list Color :=
  [mkColor "a" (mkHSL 0 80 50) 1500 0 3 0;
   mkColor "b" (mkHSL 120 80 50) 1500 0 0 0].

Definition lopsidedOptions : Options :=
  mkOptions (Some lopsidedPool) (Some false) None (Some 20) None.

Definition lopsidedSession : EloPickerState :=
  mkState lopsidedOptions 20 (mkAnalytics 0 0 0 0 0 0 []) 0 [] [] [] None
    (mkSettings None) false.

(** Two colors a hundred points apart. *)
Definition gapPair : list Color :=
  [sampleColor "a" 0 1600 0; sampleColor "b" 120 1500 0].




(** The pool [restoreState] starts from before it overlays a snapshot. *)
Definition restorePool (opts : Options) (seed : U01) : list Color :=
  if bool_decide (generateColors opts = Some false) then
    default [] (items opts)
  else generatedPool opts seed.

(** A decision that is not turned away for being empty: a pass, or a
    pick that names at least one id. *)
Definition effective (d : Action) : Prop :=
  match d with
  | DoPick picked _ _ => picked <> []
  | DoPass _ _ => True
  end.

(** [c] with [k] more comparisons and nothing else changed. *)
Definition addComparisons (k : nat) (c : Color) : Color :=
  mkColor (id c) (hsl c) (eloRating c) (comparisons c + k) (wins c)
    (losses c).

(** [cs'] is [cs] with [f i] more comparisons on the color at [i], for
    every [i], and nothing else changed. *)
Definition bumped (f : ref -> nat) (cs cs' : list Color) : Prop :=
  forall i, cs' !! i = addComparisons (f i) <$> cs !! i.

(** How many of the pairings of [drawUpdates xs] involve the color at
    [i]. *)
Fixpoint drawCount (xs : list ref) (i : ref) : nat :=
  match xs with
  | [] => 0
  | x :: rest =>
      (if decide (i = x) then length rest else 0)
      + count_occ Nat.eq_dec rest i + drawCount rest i
  end.

(** [c] carrying the statistics of the saved color [s]. *)
Definition withSaved (s : SavedColor) (c : Color) : Color :=
  mkColor (id c) (hsl c) (savedEloRating s) (savedComparisons s)
    (savedWins s) (savedLosses s).

(* ================================================================== *)
(** ** Color space utilities

    Channel arithmetic is exact (rational); [Math.round(x)] is
    [floor(x + 1/2)]. *)

Record RGB := mkRGB { r : Z; g : Z; b : Z }.

Definition mathRound (x : Q) : Z := Qfloor (x + (1 # 2)).

(** The inner helper [hue2rgb(p, q, t)] of [hslToRgb]. *)
Definition hue2rgb (p q t : Q) : Q :=
  let t1 := if Qltb t 0 then (t + 1)%Q else t in
  let t2 := if Qltb 1 t1 then (t1 - 1)%Q else t1 in
  if Qltb t2 (1 # 6) then (p + (q - p) * 6 * t2)%Q
  else if Qltb t2 (1 # 2) then q
  else if Qltb t2 (2 # 3) then (p + (q - p) * ((2 # 3) - t2) * 6)%Q
  else p.

(** [hslToRgb(h, s, l)] *)
Definition hslToRgb (h s l : nat) : RGB :=
  let h' := (inject_Z (Z.of_nat h) / 360)%Q in
  let s' := (inject_Z (Z.of_nat s) / 100)%Q in
  let l' := (inject_Z (Z.of_nat l) / 100)%Q in
  if Qeq_bool s' 0 then
    mkRGB (mathRound (l' * 255)) (mathRound (l' * 255)) (mathRound (l' * 255))
  else
    let q := if Qltb l' (1 # 2) then (l' * (1 + s'))%Q
             else (l' + s' - l' * s')%Q in
    let p := (2 * l' - q)%Q in
    mkRGB (mathRound (hue2rgb p q (h' + (1 # 3)) * 255))
          (mathRound (hue2rgb p q h' * 255))
          (mathRound (hue2rgb p q (h' - (1 # 3)) * 255)).

(** The color-vision matrices of [simulateColorBlindness], by type name;
    any other name has none. *)
Definition blindnessMatrix (type : string) : option (list (list Q)) :=
  if String.eqb type "protanopia" then
    Some [[567 # 1000; 433 # 1000; 0]; [558 # 1000; 442 # 1000; 0];
          [0; 242 # 1000; 758 # 1000]]%Q
  else if String.eqb type "deuteranopia" then
    Some [[625 # 1000; 375 # 1000; 0]; [7 # 10; 3 # 10; 0];
          [0; 3 # 10; 7 # 10]]%Q
  else if String.eqb type "tritanopia" then
    Some [[95 # 100; 5 # 100; 0]; [0; 433 # 1000; 567 # 1000];
          [0; 475 # 1000; 525 # 1000]]%Q
  else None.

(** One output channel: [Math.round((m0 * r + m1 * g + m2 * b) * 255)]. *)
Definition mixChannel (row : list Q) (r' g' b' : Q) : Z :=
  mathRound ((nth 0 row 0 * r' + nth 1 row 0 * g' + nth 2 row 0 * b') * 255)%Q.

(** [simulateColorBlindness(rgb, type)] *)
Definition simulateColorBlindness (rgb : RGB) (type : string) : RGB :=
  match blindnessMatrix type with
  | None => rgb
  | Some matrix =>
      let r' := (inject_Z (r rgb) / 255)%Q in
      let g' := (inject_Z (g rgb) / 255)%Q in
      let b' := (inject_Z (b rgb) / 255)%Q in
      mkRGB (mixChannel (nth 0 matrix []) r' g' b')
            (mixChannel (nth 1 matrix []) r' g' b')
            (mixChannel (nth 2 matrix []) r' g' b')
  end.

(** A channel value as the page uses it: an integer from 0 to 255. *)
Definition isByte (z : Z) : Prop := (0 <= z <= 255)%Z.

(** [getPatternForColor(index)] *)
Definition patterns : list string :=
  ["solid"; "dots"; "stripes"; "diagonal"; "crosshatch";
   "waves"; "checkers"; "grid"; "circles"; "triangles"].

Definition getPatternForColor (index : nat) : option string :=
  patterns !! (index mod length patterns).

(* ================================================================== *)
(** * Properties of the rating rule *)

Section RatingRule.

Local Open Scope R_scope.

Lemma pow10_pos (x : R) : 0 < Rpower 10 x.
Proof. unfold Rpower. apply exp_pos. Qed.

Lemma pow10_opp (x : R) : Rpower 10 (- x) = / Rpower 10 x.
Proof. apply Rpower_Ropp. Qed.

Lemma pow10_gt_1 (x : R) : 0 < x -> 1 < Rpower 10 x.
Proof.
  intros Hx. rewrite <- (Rpower_O 10) by lra.
  apply Rpower_lt; lra.
Qed.

Lemma expected_bounds (a b : R) :
  0 < calculateExpectedScore a b < 1.
Proof.
  unfold calculateExpectedScore.
  pose proof (pow10_pos ((b - a) / 400)) as Hp.
  split.
  - apply Rdiv_lt_0_compat; lra.
  - apply (Rmult_lt_reg_r (1 + Rpower 10 ((b - a) / 400))); [lra|].
    unfold Rdiv. rewrite Rmult_assoc, Rinv_l by lra. lra.
Qed.

Lemma expected_complement (a b : R) :
  calculateExpectedScore a b + calculateExpectedScore b a = 1.
Proof.
  unfold calculateExpectedScore.
  replace ((a - b) / 400) with (- ((b - a) / 400)) by lra.
  rewrite pow10_opp.
  pose proof (pow10_pos ((b - a) / 400)) as Hp.
  field. lra.
Qed.

Lemma expected_equal (a : R) : calculateExpectedScore a a = 1 / 2.
Proof.
  unfold calculateExpectedScore.
  replace ((a - a) / 400) with 0 by lra.
  rewrite Rpower_O by lra. lra.
Qed.

Lemma expected_underdog (a b : R) :
  a < b -> calculateExpectedScore a b < 1 / 2.
Proof.
  intros Hab. unfold calculateExpectedScore.
  assert (1 < Rpower 10 ((b - a) / 400)) as Hp by (apply pow10_gt_1; lra).
  apply (Rmult_lt_reg_r (1 + Rpower 10 ((b - a) / 400))); [lra|].
  unfold Rdiv at 1. rewrite Rmult_assoc, Rinv_l by lra. lra.
Qed.

Lemma kFactor_bounds (n : nat) : 32 <= kFactorOf n <= 64.
Proof.
  unfold kFactorOf. pose proof (pos_INR n).
  unfold Rmax. destruct (Rle_dec _ _); lra.
Qed.

Lemma kFactor_fresh : kFactorOf 0 = 64.
Proof. unfold kFactorOf, Rmax. simpl. destruct (Rle_dec _ _); lra. Qed.

End RatingRule.

Section UpdateRule.

Local Open Scope R_scope.

(** The six field writes of one call amount to one change of the winner
    object followed by one change of the loser object; this also covers a
    call whose two arguments are the same object. *)
Lemma updateEloRatings_alter (cs : list Color) (w lo : ref) (d : bool)
    (cw cl : Color) :
  cs !! w = Some cw -> cs !! lo = Some cl ->
  updateEloRatings w lo d cs
  = alter (loserUpdate d cw cl) lo (alter (winnerUpdate d cw cl) w cs).
Proof.
  intros Hw Hl. unfold updateEloRatings. rewrite Hw, Hl.
  apply list_eq. intros i.
  destruct d; rewrite !list_lookup_alter;
    repeat case_decide; subst; try congruence;
    rewrite ?list_lookup_alter_eq, ?list_lookup_alter_ne by congruence;
    destruct (cs !! i) as [c|] eqn:Hi; simpl; try reflexivity;
    unfold winnerUpdate, loserUpdate, inc_comparisons, inc_wins, inc_losses,
      add_rating; simpl; reflexivity.
Qed.

Lemma updateEloRatings_dangling (cs : list Color) (w lo : ref) (d : bool) :
  cs !! w = None \/ cs !! lo = None -> updateEloRatings w lo d cs = cs.
Proof.
  unfold updateEloRatings. intros [H|H]; rewrite H; [reflexivity|].
  destruct (cs !! w); reflexivity.
Qed.

Lemma updateEloRatings_length (cs : list Color) (w lo : ref) (d : bool) :
  length (updateEloRatings w lo d cs) = length cs.
Proof.
  destruct (cs !! w) as [cw|] eqn:Hw; [|rewrite updateEloRatings_dangling; auto].
  destruct (cs !! lo) as [cl|] eqn:Hl; [|rewrite updateEloRatings_dangling; auto].
  rewrite (updateEloRatings_alter _ _ _ _ _ _ Hw Hl).
  rewrite !length_alter. reflexivity.
Qed.

Lemma updateEloRatings_winner (cs : list Color) (w lo : ref) (d : bool)
    (cw cl : Color) :
  cs !! w = Some cw -> cs !! lo = Some cl -> w <> lo ->
  updateEloRatings w lo d cs !! w = Some (winnerUpdate d cw cl cw).
Proof.
  intros Hw Hl Hne. rewrite (updateEloRatings_alter _ _ _ _ _ _ Hw Hl).
  rewrite list_lookup_alter_ne by congruence.
  rewrite list_lookup_alter_eq, Hw. reflexivity.
Qed.

Lemma updateEloRatings_loser (cs : list Color) (w lo : ref) (d : bool)
    (cw cl : Color) :
  cs !! w = Some cw -> cs !! lo = Some cl -> w <> lo ->
  updateEloRatings w lo d cs !! lo = Some (loserUpdate d cw cl cl).
Proof.
  intros Hw Hl Hne. rewrite (updateEloRatings_alter _ _ _ _ _ _ Hw Hl).
  rewrite list_lookup_alter_eq.
  rewrite list_lookup_alter_ne by congruence. rewrite Hl. reflexivity.
Qed.

Lemma updateEloRatings_other (cs : list Color) (w lo : ref) (d : bool)
    (i : ref) :
  i <> w -> i <> lo -> updateEloRatings w lo d cs !! i = cs !! i.
Proof.
  intros Hiw Hil.
  destruct (cs !! w) as [cw|] eqn:Hw; [|rewrite updateEloRatings_dangling; auto].
  destruct (cs !! lo) as [cl|] eqn:Hl; [|rewrite updateEloRatings_dangling; auto].
  rewrite (updateEloRatings_alter _ _ _ _ _ _ Hw Hl).
  rewrite !list_lookup_alter_ne by congruence. reflexivity.
Qed.

End UpdateRule.

Section PairwiseUpdate.

Local Open Scope R_scope.

(** C1 (as the code has it): in a non-draw call on two distinct colors,
    both rating changes are scaled by the one K-factor
    [max(32, 64 - 2 * winnerComparisons)], read from the winner's count
    before the increment: the winner moves by [K * (1 - expectedWin)] and
    the loser by [K * (0 - expectedLose)] with that same [K]. *)
Theorem update_uses_winner_kFactor (cs : list Color) (w lo : ref)
    (cw cl : Color) :
  cs !! w = Some cw -> cs !! lo = Some cl -> w <> lo ->
  let K := Rmax 32 (64 - 2 * INR (comparisons cw)) in
  let cs' := updateEloRatings w lo false cs in
  ratingAt cs' w
    = eloRating cw
      + K * (1 - calculateExpectedScore (eloRating cw) (eloRating cl))
  /\ ratingAt cs' lo
    = eloRating cl
      + K * (0 - calculateExpectedScore (eloRating cl) (eloRating cw)).
Proof.
  intros Hw Hl Hne K cs'. unfold ratingAt, cs'.
  rewrite (updateEloRatings_winner _ _ _ _ _ _ Hw Hl Hne).
  rewrite (updateEloRatings_loser _ _ _ _ _ _ Hw Hl Hne).
  unfold winnerUpdate, loserUpdate, kFactorOf, K. simpl.
  replace (INR (comparisons cw) * 2) with (2 * INR (comparisons cw)) by lra.
  split; reflexivity.
Qed.

Lemma update_uses_winner_kFactor_witness :
  ratingAt (updateEloRatings 0 1 false unevenPair) 0
    = 1500 + Rmax 32 (64 - 2 * INR 0)
             * (1 - calculateExpectedScore 1500 1500)
  /\ ratingAt (updateEloRatings 0 1 false unevenPair) 1
    = 1500 + Rmax 32 (64 - 2 * INR 0)
             * (0 - calculateExpectedScore 1500 1500).
Proof.
  apply (update_uses_winner_kFactor unevenPair 0%nat 1%nat
           (sampleColor "a" 0 1500 0) (sampleColor "b" 120 1500 20));
    [reflexivity | reflexivity | lia].
Defined.

(** C1 fails as stated: a fresh winner (0 comparisons) beats an equally
    rated loser with 20 comparisons.  The loser's own count would give
    K = 32 and a loss of 16 points; the code takes 32 points, the
    winner's K = 64 times one half. *)
Lemma loser_own_kFactor_counterexample :
  ratingAt (updateEloRatings 0 1 false unevenPair) 1 = 1468
  /\ 1500 + Rmax 32 (64 - 2 * INR 20)
            * (0 - calculateExpectedScore 1500 1500) = 1484
  /\ ratingAt (updateEloRatings 0 1 false unevenPair) 1
     <> 1500 + Rmax 32 (64 - 2 * INR 20)
               * (0 - calculateExpectedScore 1500 1500).
Proof.
  assert (ratingAt (updateEloRatings 0 1 false unevenPair) 1 = 1468) as H1.
  { unfold ratingAt.
    rewrite (updateEloRatings_loser unevenPair 0%nat 1%nat false
               (sampleColor "a" 0 1500 0) (sampleColor "b" 120 1500 20))
      by (reflexivity || lia).
    unfold loserUpdate. cbn [eloRating comparisons sampleColor].
    rewrite kFactor_fresh, expected_equal. lra. }
  assert (1500 + Rmax 32 (64 - 2 * INR 20)
                 * (0 - calculateExpectedScore 1500 1500) = 1484) as H2.
  { rewrite expected_equal. unfold Rmax.
    replace (INR 20) with 20 by (simpl; lra).
    destruct (Rle_dec _ _); lra. }
  split; [exact H1|]. split; [exact H2|]. rewrite H1, H2. lra.
Qed.

(** C8 (in exact real arithmetic): a non-draw call on two distinct
    colors with equal ratings and equal comparison counts strictly raises
    the winner's rating, strictly lowers the loser's, and the two changes
    have the same magnitude (half the K-factor). *)
Theorem update_equal_priors (cs : list Color) (w lo : ref) (cw cl : Color) :
  cs !! w = Some cw -> cs !! lo = Some cl -> w <> lo ->
  eloRating cw = eloRating cl -> comparisons cw = comparisons cl ->
  let cs' := updateEloRatings w lo false cs in
  eloRating cw < ratingAt cs' w
  /\ ratingAt cs' lo < eloRating cl
  /\ Rabs (ratingAt cs' w - eloRating cw)
     = Rabs (ratingAt cs' lo - eloRating cl)
  /\ ratingAt cs' w - eloRating cw = kFactorOf (comparisons cw) / 2.
Proof.
  intros Hw Hl Hne Hr Hc cs'. unfold ratingAt, cs'.
  rewrite (updateEloRatings_winner _ _ _ _ _ _ Hw Hl Hne).
  rewrite (updateEloRatings_loser _ _ _ _ _ _ Hw Hl Hne).
  unfold winnerUpdate, loserUpdate. simpl.
  rewrite Hr, expected_equal.
  pose proof (kFactor_bounds (comparisons cw)) as [HK _].
  set (K := kFactorOf (comparisons cw)) in *.
  repeat split; try lra.
  replace (eloRating cl + K * (1 - 1 / 2) - eloRating cl) with (K / 2) by lra.
  replace (eloRating cl + K * (0 - 1 / 2) - eloRating cl) with (- (K / 2))
    by lra.
  rewrite Rabs_Ropp. reflexivity.
Qed.

Lemma update_equal_priors_witness :
  let cs' := updateEloRatings 0 1 false freshPair in
  1500 < ratingAt cs' 0
  /\ ratingAt cs' 1 < 1500
  /\ Rabs (ratingAt cs' 0 - 1500) = Rabs (ratingAt cs' 1 - 1500)
  /\ ratingAt cs' 0 - 1500 = kFactorOf 0 / 2.
Proof.
  apply (update_equal_priors freshPair 0%nat 1%nat
           (sampleColor "a" 0 1500 0) (sampleColor "b" 120 1500 0));
    [reflexivity | reflexivity | lia | reflexivity | reflexivity].
Defined.

(** C8 fails on the doubles the code computes with.  Two colors rated
    2030.3 with one comparison each (K = 62): the amounts added are
    exactly +31 and -31, but the winner's stored rating is rounded, so
    it rises by 31.000000000000227 while the loser's falls by 31.  Two
    colors rated 2^60: adding 31 rounds back to 2^60, so neither rating
    moves. *)
Lemma equal_priors_binary64_counterexample :
  exists w' l' : float,
    updateRatings64 false 2030.3 1 2030.3 = Some (w', l')
    /\ (w' - 2030.3)%float = 31.000000000000227%float
    /\ (2030.3 - l')%float = 31%float
    /\ updateRatings64 false 0x1p+60 1 0x1p+60
       = Some (0x1p+60, 0x1p+60)%float.
Proof.
  do 2 eexists. split; [reflexivity|]. repeat split; reflexivity.
Qed.

End PairwiseUpdate.

(* ================================================================== *)
(** * What one update preserves *)

Section UpdatePreserves.

Local Open Scope R_scope.

Lemma totalRating_alter (f : Color -> Color) (cs : list Color) (i : ref)
    (c : Color) :
  cs !! i = Some c ->
  totalRating (alter f i cs)
  = totalRating cs + (eloRating (f c) - eloRating c).
Proof.
  revert i. induction cs as [|x cs IH]; intros [|i] Hi; simplify_eq/=.
  - lra.
  - rewrite (IH i Hi). lra.
Qed.

Lemma updateEloRatings_total (w lo : ref) (d : bool) (cs : list Color) :
  totalRating (updateEloRatings w lo d cs) = totalRating cs.
Proof.
  destruct (cs !! w) as [cw|] eqn:Hw; [|rewrite updateEloRatings_dangling; auto].
  destruct (cs !! lo) as [cl|] eqn:Hl; [|rewrite updateEloRatings_dangling; auto].
  rewrite (updateEloRatings_alter _ _ _ _ _ _ Hw Hl).
  destruct (alter (winnerUpdate d cw cl) w cs !! lo) as [c'|] eqn:Hl'.
  2:{ apply lookup_ge_None in Hl'. rewrite length_alter in Hl'.
      apply lookup_lt_Some in Hl. lia. }
  rewrite (totalRating_alter _ _ _ _ Hl'), (totalRating_alter _ _ _ _ Hw).
  pose proof (expected_complement (eloRating cw) (eloRating cl)) as HE.
  unfold winnerUpdate, loserUpdate. simpl.
  set (K := kFactorOf (comparisons cw)) in *.
  set (EW := calculateExpectedScore (eloRating cw) (eloRating cl)) in *.
  set (EL := calculateExpectedScore (eloRating cl) (eloRating cw)) in *.
  replace EL with (1 - EW) by lra.
  clearbody K EW. destruct d; lra.
Qed.

Lemma updateEloRatings_pair_sum (w lo : ref) (d : bool) (cs : list Color) :
  let cs' := updateEloRatings w lo d cs in
  ratingAt cs' w + ratingAt cs' lo = ratingAt cs w + ratingAt cs lo.
Proof.
  intros cs'. unfold cs'.
  destruct (cs !! w) as [cw|] eqn:Hw; [|rewrite updateEloRatings_dangling; auto].
  destruct (cs !! lo) as [cl|] eqn:Hl; [|rewrite updateEloRatings_dangling; auto].
  pose proof (expected_complement (eloRating cw) (eloRating cl)) as HE.
  destruct (decide (w = lo)) as [->|Hne].
  - assert (cl = cw) as -> by congruence.
    unfold ratingAt.
    rewrite (updateEloRatings_alter _ _ _ _ _ _ Hw Hw).
    rewrite list_alter_alter_eq, list_lookup_alter_eq, Hw. simpl.
    rewrite expected_equal.
    destruct d; lra.
  - unfold ratingAt.
    rewrite (updateEloRatings_winner _ _ _ _ _ _ Hw Hl Hne).
    rewrite (updateEloRatings_loser _ _ _ _ _ _ Hw Hl Hne).
    rewrite Hw, Hl. unfold winnerUpdate, loserUpdate. simpl.
    set (K := kFactorOf (comparisons cw)) in *.
    set (EW := calculateExpectedScore (eloRating cw) (eloRating cl)) in *.
    set (EL := calculateExpectedScore (eloRating cl) (eloRating cw)) in *.
    replace EL with (1 - EW) by lra.
    clearbody K EW. destruct d; lra.
Qed.

Lemma winnerUpdate_consistent (d : bool) (cw cl c : Color) :
  statsConsistent c -> statsConsistent (winnerUpdate d cw cl c).
Proof. unfold statsConsistent. destruct d; simpl; lia. Qed.

Lemma loserUpdate_consistent (d : bool) (cw cl c : Color) :
  statsConsistent c -> statsConsistent (loserUpdate d cw cl c).
Proof. unfold statsConsistent. destruct d; simpl; lia. Qed.

Lemma updateEloRatings_consistent (w lo : ref) (d : bool) (cs : list Color) :
  Forall statsConsistent cs ->
  Forall statsConsistent (updateEloRatings w lo d cs).
Proof.
  intros HF.
  destruct (cs !! w) as [cw|] eqn:Hw; [|rewrite updateEloRatings_dangling; auto].
  destruct (cs !! lo) as [cl|] eqn:Hl; [|rewrite updateEloRatings_dangling; auto].
  rewrite (updateEloRatings_alter _ _ _ _ _ _ Hw Hl).
  apply Forall_alter.
  - apply Forall_alter; [exact HF|].
    intros x _ Hx. by apply winnerUpdate_consistent.
  - intros x _ Hx. by apply loserUpdate_consistent.
Qed.

Lemma score_step_bound (K S E : R) :
  32 <= K <= 64 -> 0 < E < 1 -> 0 <= S <= 1 -> Rabs (K * (S - E)) <= 64.
Proof.
  intros HK HE HS. apply Rabs_le. split; nra.
Qed.

Lemma drift_refl (c : Color) : drift c c.
Proof.
  unfold drift. repeat split; try lia.
  replace (eloRating c - eloRating c) with 0 by lra.
  rewrite Rabs_R0, Nat.sub_diag. simpl. lra.
Qed.

Lemma drift_step (c0 c : Color) (delta : R) (c' : Color) :
  drift c0 c ->
  id c' = id c -> hsl c' = hsl c ->
  comparisons c' = S (comparisons c) ->
  eloRating c' = eloRating c + delta ->
  Rabs delta <= 64 ->
  drift c0 c'.
Proof.
  unfold drift. intros (Hid & Hh & Hc & Hr) Hid' Hh' Hc' Hr' Hd.
  repeat split; try congruence; try lia.
  rewrite Hc', Hr'.
  replace (S (comparisons c) - comparisons c0)%nat
    with (S (comparisons c - comparisons c0)) by lia.
  rewrite S_INR.
  replace (eloRating c + delta - eloRating c0)
    with ((eloRating c - eloRating c0) + delta) by lra.
  eapply Rle_trans; [apply Rabs_triang|]. lra.
Qed.

Lemma winnerUpdate_drift (d : bool) (cw cl c0 c : Color) :
  drift c0 c -> drift c0 (winnerUpdate d cw cl c).
Proof.
  intros H. eapply drift_step; [exact H|reflexivity..|].
  apply score_step_bound;
    [apply kFactor_bounds | apply expected_bounds | destruct d; lra].
Qed.

Lemma loserUpdate_drift (d : bool) (cw cl c0 c : Color) :
  drift c0 c -> drift c0 (loserUpdate d cw cl c).
Proof.
  intros H. eapply drift_step; [exact H|reflexivity..|].
  apply score_step_bound;
    [apply kFactor_bounds | apply expected_bounds | destruct d; lra].
Qed.

Lemma updateEloRatings_drift (cs0 : list Color) (w lo : ref) (d : bool)
    (cs : list Color) :
  Forall2 drift cs0 cs -> Forall2 drift cs0 (updateEloRatings w lo d cs).
Proof.
  intros HF.
  destruct (cs !! w) as [cw|] eqn:Hw; [|rewrite updateEloRatings_dangling; auto].
  destruct (cs !! lo) as [cl|] eqn:Hl; [|rewrite updateEloRatings_dangling; auto].
  rewrite (updateEloRatings_alter _ _ _ _ _ _ Hw Hl).
  apply Forall2_alter_r.
  - apply Forall2_alter_r; [exact HF|].
    intros x y _ _ Hxy. by apply winnerUpdate_drift.
  - intros x y _ _ Hxy. by apply loserUpdate_drift.
Qed.

End UpdatePreserves.

(* ================================================================== *)
(** * What a decision preserves *)

Lemma colors_complete (st : EloPickerState) : colors (complete st) = colors st.
Proof. reflexivity. Qed.

Lemma colors_nextBatch (now : Z) (rng : Rng) (st : EloPickerState) :
  colors (nextBatch now rng st) = colors st.
Proof. unfold nextBatch. repeat case_match; reflexivity. Qed.

Lemma colors_checkForNewFavorites (st : EloPickerState) :
  colors (checkForNewFavorites st) = colors st.
Proof. unfold checkForNewFavorites. repeat case_match; reflexivity. Qed.

Lemma colors_advance (now : Z) (rng : Rng) (st : EloPickerState) :
  colors (advance now rng st) = colors st.
Proof.
  unfold advance. case_match; [reflexivity | apply colors_nextBatch].
Qed.

Section PoolInvariant.

(** Any property of the pool that one rating update preserves is
    preserved by a whole decision and by a run of decisions. *)
Variable P : list Color -> Prop.
Hypothesis P_update :
  forall w lo d cs, P cs -> P (updateEloRatings w lo d cs).

Lemma foldl_update_inv (f : list Color -> ref -> list Color)
    (xs : list ref) (cs : list Color) :
  (forall cs1 x, P cs1 -> P (f cs1 x)) -> P cs -> P (foldl f cs xs).
Proof.
  intros Hf. revert cs. induction xs as [|x xs IH]; intros cs Hcs; simpl.
  - exact Hcs.
  - apply IH, Hf, Hcs.
Qed.

Lemma winLossUpdates_inv (winners losers : list ref) (cs : list Color) :
  P cs -> P (winLossUpdates winners losers cs).
Proof.
  unfold winLossUpdates. apply foldl_update_inv.
  intros cs1 w H1. apply foldl_update_inv; [|exact H1].
  intros cs2 lo H2. apply P_update, H2.
Qed.

Lemma drawUpdates_inv (xs : list ref) (cs : list Color) :
  P cs -> P (drawUpdates xs cs).
Proof.
  revert cs. induction xs as [|x xs IH]; intros cs Hcs; simpl.
  - exact Hcs.
  - apply IH. apply foldl_update_inv; [|exact Hcs].
    intros cs1 y H1. apply P_update, H1.
Qed.

Lemma pick_inv (picked : list string) (now : Z) (rng : Rng)
    (st : EloPickerState) :
  P (colors st) -> P (colors (pick picked now rng st)).
Proof.
  intros H. unfold pick.
  destruct (evaluating st) as [ev|]; [|exact H].
  destruct (length picked =? 0); [exact H|].
  destruct (capReached st); [exact H|].
  rewrite colors_advance, colors_checkForNewFavorites. simpl.
  case_match; [apply drawUpdates_inv|]; apply winLossUpdates_inv, H.
Qed.

Lemma pass_inv (now : Z) (rng : Rng) (st : EloPickerState) :
  P (colors st) -> P (colors (pass now rng st)).
Proof.
  intros H. unfold pass.
  destruct (evaluating st) as [ev|]; [|exact H].
  destruct (capReached st); [exact H|].
  rewrite colors_advance. simpl. apply drawUpdates_inv, H.
Qed.

Lemma run_inv (ds : list Action) (st : EloPickerState) :
  P (colors st) -> P (colors (run ds st)).
Proof.
  unfold run. revert st. induction ds as [|d ds IH]; intros st H; simpl.
  - exact H.
  - apply IH. destruct d; simpl; [apply pick_inv | apply pass_inv]; exact H.
Qed.

End PoolInvariant.

Lemma generateFrom_fresh (n i : nat) (hue : Q) :
  Forall (fun c => eloRating c = 1500%R /\ comparisons c = 0
                   /\ wins c = 0 /\ losses c = 0) (generateFrom n i hue).
Proof.
  revert i hue. induction n as [|n IH]; intros i hue; simpl.
  - constructor.
  - constructor; [auto | apply IH].
Qed.

Lemma generateFrom_length (n i : nat) (hue : Q) :
  length (generateFrom n i hue) = n.
Proof.
  revert i hue. induction n as [|n IH]; intros i hue; simpl;
    [reflexivity | f_equal; apply IH].
Qed.

Lemma initialize_colors (given : option Settings) (now : Z) (rng : Rng)
    (st : EloPickerState) :
  colors (initialize given now rng st)
  = if bool_decide (generateColors (options st) = Some false)
    then map adoptItem (default [] (items (options st)))
    else generatedPool (options st) (rng 0).
Proof. unfold initialize. rewrite colors_nextBatch. reflexivity. Qed.

Lemma initialize_consistent (given : option Settings) (now : Z) (rng : Rng)
    (st : EloPickerState) :
  suppliedItemsConsistent (options st) = true ->
  Forall statsConsistent (colors (initialize given now rng st)).
Proof.
  rewrite initialize_colors. unfold suppliedItemsConsistent.
  case_bool_decide as Hg.
  - intros Hall. apply Forall_forall. intros c Hc.
    apply list_elem_of_fmap in Hc as (c0 & -> & Hc0).
    rewrite forallb_forall in Hall.
    apply list_elem_of_In, Hall, Nat.leb_le in Hc0.
    exact Hc0.
  - intros _. unfold generatedPool, generatePerceptuallyDistinctColors.
    eapply Forall_impl; [apply generateFrom_fresh|].
    intros c (_ & Hc & Hw & Hl). unfold statsConsistent. lia.
Qed.

(** The generator, run: ids count up from [color_0], hues advance by the
    golden-ratio conjugate, saturation and lightness cycle through their
    levels. *)
Example generated_ids :
  map id (generatePerceptuallyDistinctColors 3 half)
  = ["color_0"; "color_1"; "color_2"].
Proof. reflexivity. Qed.

Example generated_hsl :
  map (fun c => (h (hsl c), s (hsl c), l (hsl c)))
    (generatePerceptuallyDistinctColors 5 half)
  = [(42, 40, 30); (264, 60, 30); (127, 80, 30); (349, 100, 30);
     (212, 40, 40)].
Proof. vm_compute. reflexivity. Qed.

(** In a generated pool every rating stays within 64 points per
    comparison of the initial 1500. *)
Lemma generated_rating_bound (st0 : EloPickerState)
    (given : option Settings) (now : Z) (rng : Rng) (ds : list Action) :
  generateColors (options st0) <> Some false ->
  Forall (fun c => (Rabs (eloRating c - 1500) <= 64 * INR (comparisons c))%R)
    (colors (run ds (initialize given now rng st0))).
Proof.
  intros Hg.
  assert (Forall2 drift (colors (initialize given now rng st0))
            (colors (run ds (initialize given now rng st0)))) as HF.
  { apply (run_inv (Forall2 drift (colors (initialize given now rng st0)))).
    - intros w lo d cs. apply updateEloRatings_drift.
    - apply Forall2_same_length_lookup. split; [reflexivity|].
      intros i x y Hx Hy. assert (x = y) as -> by congruence.
      apply drift_refl. }
  assert (Forall isFresh (colors (initialize given now rng st0))) as Hfresh.
  { rewrite initialize_colors, bool_decide_eq_false_2 by exact Hg.
    apply generateFrom_fresh. }
  apply Forall_lookup. intros i c Hc.
  destruct (Forall2_lookup_r _ _ _ _ _ HF Hc) as (c0 & Hc0 & Hd).
  pose proof (Forall_lookup_1 _ _ _ _ Hfresh Hc0) as (Hr & Hn & _ & _).
  destruct Hd as (_ & _ & _ & Hb). rewrite Hr, Hn, Nat.sub_0_r in Hb.
  exact Hb.
Qed.

(** C6 (as the code has it): from a freshly initialized session whose
    pool is generated, or adopted from supplied items whose own
    statistics satisfy the invariant, after any finite run of [pick] and
    [pass] calls every color of the pool satisfies
    [wins + losses <= comparisons], and its rating stays finite: it is
    within 64 points per comparison made of the rating it was
    initialized with. *)
Theorem stats_invariant_after_run (st0 : EloPickerState)
    (given : option Settings) (now : Z) (rng : Rng) (ds : list Action) :
  suppliedItemsConsistent (options st0) = true ->
  let st1 := initialize given now rng st0 in
  let st := run ds st1 in
  Forall statsConsistent (colors st)
  /\ Forall2 drift (colors st1) (colors st).
Proof.
  intros Hsup st1 st. split.
  - apply (run_inv (Forall statsConsistent)).
    + intros w lo d cs. apply updateEloRatings_consistent.
    + apply initialize_consistent, Hsup.
  - apply (run_inv (Forall2 drift (colors st1))).
    + intros w lo d cs. apply updateEloRatings_drift.
    + apply Forall2_same_length_lookup. split; [reflexivity|].
      intros i x y Hx Hy. assert (x = y) as -> by congruence.
      apply drift_refl.
Qed.

Lemma stats_invariant_after_run_witness :
  let st1 := initialize None 0 halves threeHome in
  let st := run [DoPass 3 halves; DoPick ["a"] 7 halves] st1 in
  Forall statsConsistent (colors st)
  /\ Forall2 drift (colors st1) (colors st).
Proof.
  apply (stats_invariant_after_run threeHome None 0%Z halves
           [DoPass 3 halves; DoPick ["a"] 7 halves]).
  reflexivity.
Defined.

(** C6 fails for supplied items in general: [initialize] adopts the
    wins, losses and comparisons of the supplied items unchecked.  Given
    an item with three wins and no comparison, after [initialize] and
    one pick of that item it has four wins and one comparison. *)
Lemma supplied_stats_counterexample :
  let st := run [DoPick ["a"] 3 halves]
              (initialize None 0 halves lopsidedSession) in
  suppliedItemsConsistent (options lopsidedSession) = false
  /\ winsAt (colors st) 0 = 4 /\ lossesAt (colors st) 0 = 0
  /\ comparisonsAt (colors st) 0 = 1
  /\ Exists (fun c => comparisons c < wins c + losses c) (colors st).
Proof.
  intros st. subst st. split; [reflexivity|].
  assert (evaluating (initialize None 0 halves lopsidedSession) = Some [0; 1])
    as Hev by reflexivity.
  assert (capReached (initialize None 0 halves lopsidedSession) = false)
    as Hcap by reflexivity.
  assert (colors (initialize None 0 halves lopsidedSession)
          = map adoptItem lopsidedPool) as Hcs.
  { rewrite initialize_colors. reflexivity. }
  unfold run. cbn [foldl applyAction]. unfold pick.
  rewrite Hev, Hcap. cbn [length Nat.eqb].
  rewrite colors_advance, colors_checkForNewFavorites.
  cbn [colors setColors setAnalytics recordDecision]. rewrite Hcs.
  split; [reflexivity|]. split; [reflexivity|]. split; [reflexivity|].
  apply Exists_cons_hd. cbn. lia.
Qed.

(** C10: the two expected scores of a pairing sum to one, so with the one
    shared K-factor every call of the update rule, draw or not, leaves
    the sum of the two participants' ratings unchanged; hence the total
    rating of the pool is the same after every [pick] and every [pass]. *)
Theorem rating_mass_conserved :
  (forall a b : R,
     (calculateExpectedScore a b + calculateExpectedScore b a = 1)%R)
  /\ (forall (w lo : ref) (d : bool) (cs : list Color),
        let cs' := updateEloRatings w lo d cs in
        (ratingAt cs' w + ratingAt cs' lo
         = ratingAt cs w + ratingAt cs lo)%R
        /\ totalRating cs' = totalRating cs)
  /\ (forall picked now rng st,
        totalRating (colors (pick picked now rng st))
        = totalRating (colors st))
  /\ (forall now rng st,
        totalRating (colors (pass now rng st)) = totalRating (colors st)).
Proof.
  split; [exact expected_complement|].
  split.
  { intros w lo d cs. split;
      [apply updateEloRatings_pair_sum | apply updateEloRatings_total]. }
  split.
  - intros picked now rng st.
    apply (pick_inv (fun cs => totalRating cs = totalRating (colors st)));
      [|reflexivity].
    intros w lo d cs H. rewrite updateEloRatings_total. exact H.
  - intros now rng st.
    apply (pass_inv (fun cs => totalRating cs = totalRating (colors st)));
      [|reflexivity].
    intros w lo d cs H. rewrite updateEloRatings_total. exact H.
Qed.

(* ================================================================== *)
(** * The session state machine *)

Lemma analytics_nextBatch (now : Z) (rng : Rng) (st : EloPickerState) :
  analytics (nextBatch now rng st) = analytics st.
Proof. unfold nextBatch. repeat case_match; reflexivity. Qed.

Lemma analytics_advance (now : Z) (rng : Rng) (st : EloPickerState) :
  analytics (advance now rng st) = analytics st.
Proof.
  unfold advance. case_match; [reflexivity | apply analytics_nextBatch].
Qed.

Lemma analytics_checkForNewFavorites (st : EloPickerState) :
  analytics (checkForNewFavorites st) = analytics st.
Proof. unfold checkForNewFavorites. repeat case_match; reflexivity. Qed.

Lemma complete_is_complete (st : EloPickerState) :
  sessionComplete (complete st) = true /\ evaluating (complete st) = None.
Proof. split; reflexivity. Qed.

(** [nextBatch] on a session that is under its cap and has an active
    color leaves the session running and installs the selected batch. *)
Lemma nextBatch_running (now : Z) (rng : Rng) (st : EloPickerState) :
  capReached st = false -> availableOf st <> [] ->
  let eliminated' :=
    if 10 <=? sessionComparisons (analytics st)
    then eliminated st ++ toEliminate (colors st) (availableOf st)
    else eliminated st in
  let st' := nextBatch now rng st in
  sessionComplete st' = false
  /\ eliminated st' = eliminated'
  /\ evaluating st'
     = Some (selectDiverseBatch (colors st) rng
               (filter (fun c => c ∉ eliminated') (availableOf st))
               (min 10 (length (availableOf st)))).
Proof.
  intros Hcap Hav. unfold nextBatch. rewrite Hcap.
  assert (sessionComplete st = false) as Hsc.
  { unfold capReached in Hcap. by apply orb_false_iff in Hcap as [? _]. }
  destruct (length (availableOf st) =? 0) eqn:Hlen.
  { apply Nat.eqb_eq, nil_length_inv in Hlen. contradiction. }
  destruct (10 <=? sessionComparisons (analytics st)); simpl; auto.
Qed.

(** [nextBatch] on a session without an active color completes it. *)
Lemma nextBatch_exhausted (now : Z) (rng : Rng) (st : EloPickerState) :
  availableOf st = [] ->
  sessionComplete (nextBatch now rng st) = true
  /\ evaluating (nextBatch now rng st) = None.
Proof.
  intros Hav. unfold nextBatch. rewrite Hav. simpl.
  destruct (capReached st); split; reflexivity.
Qed.

(** The sample sessions are what the constructor builds at time 0. *)
Example sample_sessions_constructed :
  newEloPickerState appOptions 0 = Some appSession
  /\ newEloPickerState zeroCountOptions 0 = Some zeroCountSession
  /\ newEloPickerState noItemsOptions 0 = Some noItemsSession
  /\ newEloPickerState loneOptions 0 = Some loneSession
  /\ newEloPickerState (mkOptions None None None None None) 0 = None.
Proof. repeat split; reflexivity. Qed.

(** C9: restoring a snapshot whose analytics already count at least
    [maxComparisons] session comparisons yields a complete session with a
    null batch, whatever the snapshot's [sessionComplete] flag says (in
    particular when it says [false]). *)
Theorem restoreState_at_cap (state : Snapshot) (seed : U01)
    (st : EloPickerState) (a : Analytics) :
  snapAnalytics state = Some a ->
  maxComparisons st <= sessionComparisons a ->
  sessionComplete (restoreState state seed st) = true
  /\ evaluating (restoreState state seed st) = None.
Proof.
  intros Ha Hcap. unfold restoreState. rewrite Ha.
  match goal with |- context [capReached ?s] =>
    assert (capReached s = true) as ->
  end.
  { unfold capReached. simpl. apply orb_true_iff. right.
    by apply Nat.leb_le. }
  split; reflexivity.
Qed.

Lemma restoreState_at_cap_witness :
  snapSessionComplete cappedSnapshot = Some false
  /\ sessionComplete (restoreState cappedSnapshot half appSession) = true
  /\ evaluating (restoreState cappedSnapshot half appSession) = None.
Proof.
  split; [reflexivity|].
  apply (restoreState_at_cap cappedSnapshot half appSession
           (mkAnalytics 0 20 20 5 15 0 [])); [reflexivity | simpl; lia].
Defined.

(** C5 (as the code has it): with a null batch, [pick] and [pass] return
    the session exactly as it was, and so does [pick] with an empty id
    list: no rating, counter, membership set or analytics field changes. *)
Theorem guarded_decision_is_noop (d : Action) (st : EloPickerState) :
  guarded d st -> applyAction d st = st.
Proof.
  destruct d as [picked now rng | now rng]; simpl.
  - intros [Hev | ->]; unfold pick.
    + rewrite Hev. reflexivity.
    + destruct (evaluating st); reflexivity.
  - intros Hev. unfold pass. rewrite Hev. reflexivity.
Qed.

Lemma guarded_decision_is_noop_witness :
  pick [] 5 halves emptyBatchSession = emptyBatchSession
  /\ pick ["a"] 5 halves appSession = appSession
  /\ pass 5 halves appSession = appSession.
Proof.
  split; [|split].
  - apply (guarded_decision_is_noop (DoPick [] 5 halves) emptyBatchSession).
    right. reflexivity.
  - apply (guarded_decision_is_noop (DoPick ["a"] 5 halves) appSession).
    left. reflexivity.
  - apply (guarded_decision_is_noop (DoPass 5 halves) appSession).
    reflexivity.
Defined.

(** C5 fails for an empty (non-null) batch: [![]] is false, so [pick] with
    a non-empty id list and [pass] go on to count a round. *)
Lemma empty_batch_counts_counterexample :
  evaluating emptyBatchSession = Some []
  /\ sessionComparisons (analytics emptyBatchSession) = 0
  /\ sessionComparisons (analytics (pick ["a"] 5 halves emptyBatchSession)) = 1
  /\ picks (analytics (pick ["a"] 5 halves emptyBatchSession)) = 1
  /\ decisionTimes (analytics (pick ["a"] 5 halves emptyBatchSession)) = [5%Z]
  /\ sessionComparisons (analytics (pass 5 halves emptyBatchSession)) = 1
  /\ passes (analytics (pass 5 halves emptyBatchSession)) = 1.
Proof.
  unfold pick, pass. simpl evaluating. cbn [length Nat.eqb].
  change (capReached emptyBatchSession) with false. cbv iota.
  rewrite !analytics_advance, analytics_checkForNewFavorites.
  repeat split; reflexivity.
Qed.

(* ================================================================== *)
(** * The batch selector *)

Section Selector.

Lemma insertBy_perm {A : Type} (after : A -> A -> bool) (x : A)
    (xs : list A) :
  insertBy after x xs ≡ₚ x :: xs.
Proof.
  induction xs as [|y ys IH]; simpl; [reflexivity|].
  destruct (after x y); [|reflexivity].
  rewrite IH. apply Permutation_swap.
Qed.

Lemma stableSort_perm {A : Type} (after : A -> A -> bool) (xs : list A) :
  stableSort after xs ≡ₚ xs.
Proof.
  induction xs as [|x xs IH]; simpl; [reflexivity|].
  rewrite insertBy_perm. by rewrite IH.
Qed.

Lemma u01_bounds (r : U01) : (0 <= u01 r)%Q /\ (u01 r < 1)%Q.
Proof.
  destruct r as [q Hq]. simpl.
  apply andb_true_iff in Hq as [H0 H1]. split.
  - by apply Qle_bool_iff.
  - unfold Qltb in H1. apply negb_true_iff in H1.
    apply Qnot_le_lt. intros Hle. apply Qle_bool_iff in Hle. congruence.
Qed.

Lemma randomBelow_lt (r : U01) (n : nat) : 0 < n -> randomBelow r n < n.
Proof.
  intros Hn. unfold randomBelow.
  destruct (u01_bounds r) as [H0 H1].
  set (x := (u01 r * inject_Z (Z.of_nat n))%Q).
  assert (0 < inject_Z (Z.of_nat n))%Q as Hpos.
  { change 0%Q with (inject_Z 0). rewrite <- Zlt_Qlt. lia. }
  assert (0 <= x)%Q as Hx0.
  { unfold x. apply Qmult_le_0_compat; [exact H0 | by apply Qlt_le_weak]. }
  assert (x < inject_Z (Z.of_nat n))%Q as Hx1.
  { unfold x. apply Qlt_le_trans with (1 * inject_Z (Z.of_nat n))%Q.
    - by apply Qmult_lt_compat_r.
    - rewrite Qmult_1_l. apply Qle_refl. }
  assert (0 <= Qfloor x)%Z as Hf0.
  { change 0%Z with (Qfloor 0). by apply Qfloor_resp_le. }
  assert (Qfloor x < Z.of_nat n)%Z as Hf1.
  { rewrite Zlt_Qlt. eapply Qle_lt_trans; [apply Qfloor_le | exact Hx1]. }
  lia.
Qed.

Lemma highRatedLoop_spec (cs : list Color) (rng : Rng) (cands : list ref)
    (count : nat) (batch : list ref) (used : list nat) (k : nat) :
  NoDup (batch ++ cands) ->
  let batch' := (highRatedLoop cs rng cands count batch used k).1.1 in
  NoDup batch'
  /\ (forall x, x ∈ batch' -> x ∈ batch \/ x ∈ cands)
  /\ length batch' <= max (length batch) count.
Proof.
  revert batch used k.
  induction cands as [|c rest IH]; intros batch used k Hnd; simpl.
  - rewrite app_nil_r in Hnd. split; [exact Hnd|]. split; [auto | lia].
  - destruct (length batch <? count) eqn:Hlt.
    + apply Nat.ltb_lt in Hlt.
      destruct (Qltb (u01 (rng k)) (7 # 10)).
      * specialize (IH (batch ++ [c])
                       (getHueGroup (hueAt cs c) :: used) (S k)).
        rewrite <- app_assoc in IH. specialize (IH Hnd).
        destruct IH as (H1 & H2 & H3). split; [exact H1|]. split.
        -- intros x Hx. apply H2 in Hx as [Hx|Hx].
           ++ apply elem_of_app in Hx as [Hx|Hx]; [by left|].
              apply list_elem_of_singleton in Hx as ->.
              right. apply list_elem_of_here.
           ++ right. by apply list_elem_of_further.
        -- rewrite length_app in H3. simpl in H3. lia.
      * assert (NoDup (batch ++ rest)) as Hnd'.
        { apply NoDup_app in Hnd as (Hb & Hdisj & Hc).
          apply NoDup_cons in Hc as [_ Hr].
          apply NoDup_app. split; [exact Hb|]. split; [|exact Hr].
          intros x Hx Hx'. apply (Hdisj x Hx).
          by apply list_elem_of_further. }
        destruct (IH batch used (S k) Hnd') as (H1 & H2 & H3).
        split; [exact H1|]. split; [|exact H3].
        intros x Hx. apply H2 in Hx as [Hx|Hx]; [by left|].
        right. by apply list_elem_of_further.
    + simpl. apply NoDup_app in Hnd as (Hb & _ & _).
      split; [exact Hb|]. split; [auto | lia].
Qed.

(** The loop over the group keys, for any list of keys and any family of
    groups drawn from [avail]. *)
Lemma groupLoop_spec (rng : Rng) (hueGroups : list (list ref))
    (size : nat) (avail : list ref) (groupKeys : list nat)
    (batch : list ref) (used : list nat) (k : nat) :
  (forall key g x, hueGroups !! key = Some g -> x ∈ g -> x ∈ avail) ->
  NoDup batch -> (forall x, x ∈ batch -> x ∈ avail) ->
  let batch' := (groupLoop rng hueGroups size groupKeys batch used k).1 in
  NoDup batch'
  /\ (forall x, x ∈ batch' -> x ∈ avail)
  /\ length batch' <= max (length batch) size.
Proof.
  intros Hgroups. revert batch used k.
  induction groupKeys as [|key rest IH]; intros batch used k Hnd Hsub; simpl.
  - split; [exact Hnd|]. split; [exact Hsub | lia].
  - destruct (size <=? length batch) eqn:Hfull.
    { simpl. split; [exact Hnd|]. split; [exact Hsub | lia]. }
    apply Nat.leb_gt in Hfull.
    destruct (length (default [] (hueGroups !! key)) =? 0);
      [by apply IH|].
    destruct (bool_decide (key ∈ used)); [by apply IH|].
    destruct (default [] (hueGroups !! key) !! _) as [color|] eqn:Hcol;
      [|by apply IH].
    destruct (bool_decide (color ∈ batch)) eqn:Hin; [by apply IH|].
    apply bool_decide_eq_false in Hin.
    assert (color ∈ avail) as Hcav.
    { destruct (hueGroups !! key) as [g|] eqn:Hg; simpl in Hcol.
      - eapply Hgroups; [exact Hg|]. by eapply list_elem_of_lookup_2.
      - by rewrite lookup_nil in Hcol. }
    destruct (IH (batch ++ [color]) (key :: used) (S k)) as (H1 & H2 & H3).
    + apply NoDup_app. split; [exact Hnd|]. split; [|apply NoDup_singleton].
      intros x Hx Hx'. apply list_elem_of_singleton in Hx' as ->. auto.
    + intros x Hx. apply elem_of_app in Hx as [Hx|Hx]; [auto|].
      by apply list_elem_of_singleton in Hx as ->.
    + split; [exact H1|]. split; [exact H2|].
      rewrite length_app in H3. simpl in H3. lia.
Qed.

Lemma fillLoop_spec (rng : Rng) (fuel size : nat)
    (batch remaining : list ref) (k : nat) :
  length remaining <= fuel -> NoDup (batch ++ remaining) ->
  length batch <= size ->
  let batch' := fillLoop rng fuel size batch remaining k in
  NoDup batch'
  /\ (forall x, x ∈ batch' -> x ∈ batch \/ x ∈ remaining)
  /\ length batch' = min size (length batch + length remaining).
Proof.
  revert batch remaining k.
  induction fuel as [|fuel IH]; intros batch remaining k Hfuel Hnd Hlen; simpl.
  - assert (remaining = []) as -> by (apply nil_length_inv; lia).
    rewrite app_nil_r in Hnd. simpl.
    split; [exact Hnd|]. split; [auto | lia].
  - destruct (length batch <? size) eqn:Hlt; simpl.
    2:{ apply Nat.ltb_ge in Hlt.
        apply NoDup_app in Hnd as (Hb & _ & _).
        split; [exact Hb|]. split; [auto | lia]. }
    apply Nat.ltb_lt in Hlt.
    destruct (0 <? length remaining) eqn:Hrem.
    2:{ apply Nat.ltb_ge in Hrem.
        assert (remaining = []) as -> by (apply nil_length_inv; lia).
        rewrite app_nil_r in Hnd. simpl.
        split; [exact Hnd|]. split; [auto | lia]. }
    apply Nat.ltb_lt in Hrem.
    pose proof (randomBelow_lt (rng k) _ Hrem) as Hidx.
    destruct (lookup_lt_is_Some_2 _ _ Hidx) as [color Hcol].
    rewrite Hcol.
    pose proof (delete_Permutation _ _ _ Hcol) as Hperm.
    assert (length (delete (randomBelow (rng k) (length remaining)) remaining)
            = length remaining - 1) as Hdel.
    { pose proof (Permutation_length Hperm) as HL. simpl in HL. lia. }
    destruct (IH (batch ++ [color])
                (delete (randomBelow (rng k) (length remaining)) remaining)
                (S k)) as (H1 & H2 & H3).
    + lia.
    + rewrite <- app_assoc. simpl. by rewrite <- Hperm.
    + rewrite length_app. simpl. lia.
    + split; [exact H1|]. split.
      * intros x Hx. apply H2 in Hx as [Hx|Hx].
        -- apply elem_of_app in Hx as [Hx|Hx]; [by left|].
           apply list_elem_of_singleton in Hx as ->.
           right. by eapply list_elem_of_lookup_2.
        -- right. by eapply list_elem_of_delete_inv.
      * rewrite H3, Hdel, length_app. simpl. lia.
Qed.

Lemma unselected_count (batch available : list ref) :
  NoDup available ->
  length available
  <= length batch + length (filter (fun c => c ∉ batch) available).
Proof.
  intros Hnd.
  rewrite <- (filter_app_complement (fun c => c ∈ batch) available) at 1.
  rewrite length_app.
  assert (length (filter (fun c => c ∈ batch) available) <= length batch).
  { apply submseteq_length, NoDup_submseteq.
    - by apply NoDup_filter.
    - intros x Hx. by apply list_elem_of_filter in Hx as [Hx _]. }
  lia.
Qed.

Lemma groupByHue_elem (cs : list Color) (available : list ref)
    (key : nat) (g : list ref) (x : ref) :
  groupByHue cs available !! key = Some g -> x ∈ g -> x ∈ available.
Proof.
  unfold groupByHue.
  change (map ?f ?xs) with (f <$> xs).
  rewrite list_lookup_fmap. intros Hg Hx.
  destruct (seq 0 12 !! key) as [key'|]; simplify_eq/=.
  unfold sortByRatingDesc in Hx. rewrite stableSort_perm in Hx.
  by apply list_elem_of_filter in Hx as [_ Hx].
Qed.

(** The selector's contract for every batch size that leaves room for
    the (at most three) higher-rated seeds, and for every size that the
    active list does not exceed. *)
Lemma selectDiverseBatch_spec (cs : list Color) (rng : Rng)
    (available : list ref) (size : nat) :
  NoDup available -> 3 <= size \/ length available <= size ->
  let batch := selectDiverseBatch cs rng available size in
  NoDup batch
  /\ (forall c, c ∈ batch -> c ∈ available)
  /\ length batch = min size (length available).
Proof.
  intros Hnd Hsize. unfold selectDiverseBatch.
  destruct (length available <=? size) eqn:Hfew.
  { apply Nat.leb_le in Hfew. simpl.
    split; [exact Hnd|]. split; [auto | lia]. }
  apply Nat.leb_gt in Hfew.
  destruct Hsize as [Hsize|Hsize]; [|lia].
  set (k0 := if Qltb (u01 (rng 0)) (6 # 10) then 2 else 1).
  set (startIndex :=
         if Qltb (u01 (rng 0)) (6 # 10) then randomBelow (rng 1) 3 + 1
         else 0).
  set (sorted := sortByRatingDesc cs available).
  assert (sorted ≡ₚ available) as Hsorted by apply stableSort_perm.
  pose proof (highRatedLoop_spec cs rng (drop startIndex sorted)
                (2 + randomBelow (rng k0) 2) [] [] (S k0)) as Hhigh.
  destruct (highRatedLoop cs rng (drop startIndex sorted)
              (2 + randomBelow (rng k0) 2) [] [] (S k0))
    as [[batch1 used] k1].
  simpl in Hhigh. destruct Hhigh as (Hnd1 & Hsub1 & Hlen1).
  { apply (sublist_NoDup _ sorted); [|apply sublist_drop].
    by rewrite Hsorted. }
  assert (forall x, x ∈ batch1 -> x ∈ available) as Hsub1'.
  { intros x Hx. apply Hsub1 in Hx as [Hx|Hx].
    - by apply not_elem_of_nil in Hx.
    - rewrite <- Hsorted. by eapply subseteq_drop. }
  assert (length batch1 <= size) as Hlen1'.
  { pose proof (randomBelow_lt (rng k0) 2). lia. }
  destruct (sortRandom rng (seq 0 12) k1) as [groupKeys k2].
  pose proof (groupLoop_spec rng (groupByHue cs available) size available
                groupKeys batch1 used k2 (groupByHue_elem cs available)
                Hnd1 Hsub1') as Hgroup.
  destruct (groupLoop rng (groupByHue cs available) size groupKeys batch1
              used k2) as [batch2 k3].
  simpl in Hgroup. destruct Hgroup as (Hnd2 & Hsub2 & Hlen2).
  set (remaining := filter (fun c => c ∉ batch2) available).
  destruct (fillLoop_spec rng (length remaining) size batch2 remaining k3)
    as (Hnd3 & Hsub3 & Hlen3).
  - lia.
  - apply NoDup_app. split; [exact Hnd2|]. split.
    + intros x Hx Hx'. by apply list_elem_of_filter in Hx' as [Hx' _].
    + by apply NoDup_filter.
  - lia.
  - unfold sortByHue. split; [by rewrite stableSort_perm|]. split.
    + intros c Hc. rewrite stableSort_perm in Hc.
      apply Hsub3 in Hc as [Hc|Hc]; [auto|].
      by apply list_elem_of_filter in Hc as [_ Hc].
    + rewrite stableSort_perm, Hlen3.
      pose proof (unselected_count batch2 available Hnd).
      fold remaining in H. lia.
Qed.

Lemma Rltb_irrefl (x : R) : Rltb x x = false.
Proof. unfold Rltb. destruct (Rlt_dec x x); [lra | reflexivity]. Qed.

Lemma threePool_sorted : sortByRatingDesc threePool [0; 1; 2] = [0; 1; 2].
Proof.
  unfold sortByRatingDesc, stableSort, ratingAt.
  do 3 (simpl; rewrite ?Rltb_irrefl). reflexivity.
Qed.

(** C7 (as the code has it): for every active list without repeated
    items, every random source and every requested size that is at
    least 3 or at least the length of the active list, the selected
    batch has pairwise distinct items, all taken from the active list,
    and its length is [min(size, |activeItems|)]. *)
Theorem selectDiverseBatch_contract (cs : list Color) (rng : Rng)
    (available : list ref) (size : nat) :
  NoDup available -> 3 <= size \/ length available <= size ->
  let batch := selectDiverseBatch cs rng available size in
  NoDup batch
  /\ (forall c, c ∈ batch -> c ∈ available)
  /\ length batch = min size (length available).
Proof.
  intros Hnd Hsize. apply selectDiverseBatch_spec; [exact Hnd | exact Hsize].
Qed.

Lemma selectDiverseBatch_contract_witness :
  let pool := generatePerceptuallyDistinctColors 12 half in
  let batch := selectDiverseBatch pool halves (seq 0 12) 10 in
  NoDup batch
  /\ (forall c, c ∈ batch -> c ∈ seq 0 12)
  /\ length batch = 10.
Proof.
  apply (selectDiverseBatch_contract
           (generatePerceptuallyDistinctColors 12 half) halves (seq 0 12) 10);
    [apply NoDup_seq | left; lia].
Defined.

(** C7 fails for sizes below 3 that the active list exceeds: the
    seeding loop stops at [highRatedCount] (2 or 3), not at [size].  Asked for one of three
    colors, with a source that never skips and always accepts, the
    selector returns all three.  It also hands back a repeated item when
    the active list has one and fits the size. *)
Lemma selectDiverseBatch_overflow_counterexample :
  length (selectDiverseBatch threePool always65 [0; 1; 2] 1) = 3
  /\ min 1 (length [0; 1; 2]) = 1
  /\ selectDiverseBatch threePool always65 [0; 0] 5 = [0; 0].
Proof.
  split; [|split; reflexivity].
  unfold selectDiverseBatch. rewrite threePool_sorted. reflexivity.
Qed.

End Selector.

(* ================================================================== *)
(** * Start-up, elimination and the first batch *)

Section StartUp.

Lemma filter_all {A : Type} (P : A -> Prop) `{!forall x, Decision (P x)}
    (xs : list A) :
  (forall x, P x) -> filter P xs = xs.
Proof.
  intros HP. induction xs as [|x xs IH]; [reflexivity|].
  rewrite filter_cons_True by apply HP. by rewrite IH.
Qed.

Lemma availableOf_fresh (st : EloPickerState) :
  eliminated st = [] -> favorites st = [] -> availableOf st = allRefs st.
Proof.
  intros He Hf. unfold availableOf. rewrite He, Hf.
  apply filter_all. intros x. split; apply not_elem_of_nil.
Qed.

Lemma availableOf_NoDup (st : EloPickerState) : NoDup (availableOf st).
Proof. apply NoDup_filter, NoDup_seq. Qed.

(** The batch [nextBatch] installs always meets the selector's contract:
    the engine asks for [min(10, |available|)] items. *)
Lemma nextBatch_batch (now : Z) (rng : Rng) (st : EloPickerState)
    (batch : list ref) :
  evaluating (nextBatch now rng st) = Some batch ->
  NoDup batch
  /\ (forall c, c ∈ batch -> c ∈ availableOf st)
  /\ length batch <= 10.
Proof.
  intros Hev.
  destruct (capReached st) eqn:Hcap.
  { unfold nextBatch in Hev. rewrite Hcap in Hev. discriminate. }
  destruct (decide (availableOf st = [])) as [Hnil|Hne].
  { destruct (nextBatch_exhausted now rng st Hnil) as [_ H]. congruence. }
  destruct (nextBatch_running now rng st Hcap Hne) as (_ & _ & Hev').
  rewrite Hev' in Hev. apply (inj Some) in Hev. subst batch.
  match goal with |- context [selectDiverseBatch ?c ?r ?a ?s] =>
    set (active := a);
    assert (length active <= length (availableOf st)) as Hle
      by apply length_filter;
    assert (forall x, x ∈ active -> x ∈ availableOf st) as Hsub
      by (intros x Hx; by apply list_elem_of_filter in Hx as [_ Hx]);
    assert (NoDup active) as Hnd by apply NoDup_filter, availableOf_NoDup;
    clearbody active;
    destruct (selectDiverseBatch_spec c r active s) as (H1 & H2 & H3)
  end.
  - exact Hnd.
  - lia.
  - split; [exact H1|]. split; [auto | lia].
Qed.

Lemma constructed_session (opts : Options) (t0 : Z) (st0 : EloPickerState) :
  newEloPickerState opts t0 = Some st0 ->
  options st0 = opts /\ 0 < maxComparisons st0
  /\ (generateColors opts = Some false -> is_Some (items opts)).
Proof.
  unfold newEloPickerState. case_match eqn:Hc; [discriminate|].
  intros [= <-]. simpl. split; [reflexivity|]. split.
  - unfold natOr. repeat case_match; lia.
  - intros Hg. rewrite Hg in Hc. simpl in Hc.
    rewrite andb_true_r in Hc. apply negb_false_iff in Hc.
    by apply bool_decide_eq_true in Hc.
Qed.

(** [initialize] on a non-empty pool: the session runs, and the first
    batch has [min(10, |pool|)] distinct colors. *)
Lemma initialize_running (given : option Settings) (now : Z) (rng : Rng)
    (st0 : EloPickerState) :
  0 < maxComparisons st0 ->
  colors (initialize given now rng st0) <> [] ->
  let st := initialize given now rng st0 in
  sessionComplete st = false
  /\ exists batch, evaluating st = Some batch
       /\ length batch = min 10 (length (colors st)).
Proof.
  intros Hmax Hne st. subst st.
  rewrite initialize_colors in *. unfold initialize.
  set (cs := if bool_decide (generateColors (options st0) = Some false)
             then map adoptItem (default [] (items (options st0)))
             else generatedPool (options st0) (rng 0)) in *.
  match goal with |- context [nextBatch now ?r ?s] =>
    set (s1 := s); set (r1 := r) end.
  assert (availableOf s1 = seq 0 (length cs)) as Hav
    by (by apply availableOf_fresh).
  assert (capReached s1 = false) as Hcap.
  { unfold capReached. simpl. apply Nat.leb_gt. exact Hmax. }
  assert (availableOf s1 <> []) as Hav'.
  { rewrite Hav. destruct cs; [done | discriminate]. }
  destruct (nextBatch_running now r1 s1 Hcap Hav') as (Hsc & _ & Hev).
  split; [exact Hsc|]. eexists. split; [exact Hev|].
  change (10 <=? sessionComparisons (analytics s1)) with false. cbv iota.
  change (eliminated s1) with (@nil nat).
  rewrite (filter_all (fun c => c ∉ []))
    by (intros x; apply not_elem_of_nil).
  destruct (selectDiverseBatch_spec (colors s1) r1 (availableOf s1)
              (min 10 (length (availableOf s1)))) as (_ & _ & H3).
  - apply availableOf_NoDup.
  - lia.
  - rewrite H3, Hav, length_seq. lia.
Qed.

Lemma initialize_generated_length (given : option Settings) (now : Z)
    (rng : Rng) (st0 : EloPickerState) :
  generateColors (options st0) <> Some false ->
  length (colors (initialize given now rng st0))
  = natOr (colorCount (options st0)) 200.
Proof.
  intros Hg. rewrite initialize_colors.
  rewrite bool_decide_eq_false_2 by exact Hg.
  apply generateFrom_length.
Qed.

(** C4 (as the code has it): for a constructed session, a color count of
    0 with generation enabled is taken as "not given" ([colorCount ||
    200]): [initialize] builds the default pool of 200 colors and a first
    batch of 10, and the session runs.  The immediate-completion case is
    the empty pool, which arises when generation is disabled and the
    supplied item list is empty: then the pool is empty, the session is
    complete and there is no batch. *)
Theorem initialize_zero_count_and_empty_pool (opts : Options) (t0 : Z)
    (st0 : EloPickerState) (given : option Settings) (now : Z) (rng : Rng) :
  newEloPickerState opts t0 = Some st0 ->
  let st := initialize given now rng st0 in
  (generateColors opts = Some true -> colorCount opts = Some 0 ->
     length (colors st) = 200 /\ sessionComplete st = false
     /\ exists batch, evaluating st = Some batch /\ length batch = 10)
  /\ (generateColors opts = Some false -> items opts = Some [] ->
     colors st = [] /\ sessionComplete st = true /\ evaluating st = None).
Proof.
  intros Hnew st. destruct (constructed_session _ _ _ Hnew) as (Ho & Hmax & _).
  subst st. split.
  - intros Hg Hc.
    assert (length (colors (initialize given now rng st0)) = 200) as Hlen.
    { rewrite initialize_generated_length by (rewrite Ho, Hg; discriminate).
      rewrite Ho, Hc. reflexivity. }
    split; [exact Hlen|].
    destruct (initialize_running given now rng st0 Hmax) as (Hsc & b & Hb & Hl).
    { intros Hnil. rewrite Hnil in Hlen. discriminate. }
    split; [exact Hsc|]. exists b. split; [exact Hb|]. rewrite Hl, Hlen.
    reflexivity.
  - intros Hg Hi.
    assert (colors (initialize given now rng st0) = []) as Hnil.
    { rewrite initialize_colors, Ho, Hg, Hi. reflexivity. }
    split; [exact Hnil|].
    unfold initialize. apply nextBatch_exhausted.
    unfold availableOf, allRefs. simpl. rewrite Ho, Hg, Hi. reflexivity.
Qed.

Lemma initialize_zero_count_and_empty_pool_witness :
  (length (colors (initialize None 0 halves zeroCountSession)) = 200
   /\ sessionComplete (initialize None 0 halves zeroCountSession) = false
   /\ exists batch,
        evaluating (initialize None 0 halves zeroCountSession) = Some batch
        /\ length batch = 10)
  /\ (colors (initialize None 0 halves noItemsSession) = []
      /\ sessionComplete (initialize None 0 halves noItemsSession) = true
      /\ evaluating (initialize None 0 halves noItemsSession) = None).
Proof.
  split.
  - apply (initialize_zero_count_and_empty_pool zeroCountOptions 0%Z
             zeroCountSession None 0%Z halves); reflexivity.
  - apply (initialize_zero_count_and_empty_pool noItemsOptions 0%Z
             noItemsSession None 0%Z halves); reflexivity.
Defined.

(** C4 fails as stated: constructed with [colorCount: 0] and
    [generateColors: true], the session does not start with an empty
    pool, and it is not complete. *)
Lemma zero_count_counterexample :
  newEloPickerState zeroCountOptions 0 = Some zeroCountSession
  /\ length (colors (initialize None 0 halves zeroCountSession)) = 200
  /\ sessionComplete (initialize None 0 halves zeroCountSession) = false.
Proof.
  split; [reflexivity|].
  assert (length (colors (initialize None 0 halves zeroCountSession)) = 200)
    as Hlen.
  { rewrite initialize_generated_length by discriminate. reflexivity. }
  split; [exact Hlen|].
  apply initialize_running.
  - simpl. lia.
  - intros Hnil. rewrite Hnil in Hlen. discriminate.
Qed.

End StartUp.

(* ================================================================== *)
(** * Elimination of the whole active set *)

Section Elimination.

Lemma favorites_nextBatch (now : Z) (rng : Rng) (st : EloPickerState) :
  favorites (nextBatch now rng st) = favorites st.
Proof. unfold nextBatch. repeat case_match; reflexivity. Qed.

(** The percentile rating falls back to 1500 when the color at the 75%
    position is rated exactly 0 ([0 || 1500]); a sole active color rated 0
    is then below [1500 - 200] and is eliminated. *)
Lemma toEliminate_sole_zero (c : Color) :
  eloRating c = 0%R -> 8 <= comparisons c -> toEliminate [c] [0] = [0].
Proof.
  intros Hr Hc. unfold toEliminate.
  change (sortByRatingDesc [c] [0]) with [0].
  change (length [0] * 3 / 4) with 0.
  unfold ratingOr1500, ratingAt, comparisonsAt, orDefault. simpl.
  rewrite Hr. destruct (Req_dec_T 0 0) as [_|Hne]; [|contradiction].
  rewrite list.filter_cons_True; [reflexivity|].
  simpl. split; [exact Hc | lra].
Qed.

(** Outside that fallback the pass cannot empty the active set: the
    color at the 75% position sets the threshold and is itself never
    below [threshold - 200]. *)
Lemma toEliminate_spares_percentile (cs : list Color)
    (available : list ref) :
  available <> [] ->
  (forall c, c ∈ available -> ratingAt cs c <> 0%R) ->
  filter (fun c => c ∉ toEliminate cs available) available <> [].
Proof.
  intros Hne Hnz.
  set (sorted := sortByRatingDesc cs available).
  assert (sorted ≡ₚ available) as Hperm by apply stableSort_perm.
  assert (length sorted * 3 / 4 < length sorted) as Hidx.
  { assert (0 < length sorted).
    { rewrite Hperm. destruct available; [done | simpl; lia]. }
    apply Nat.Div0.div_lt_upper_bound. lia. }
  destruct (lookup_lt_is_Some_2 _ _ Hidx) as [p Hp].
  assert (p ∈ available) as Hin.
  { rewrite <- Hperm. by eapply list_elem_of_lookup_2. }
  assert (p ∉ toEliminate cs available) as Hkeep.
  { unfold toEliminate. fold sorted. unfold ratingOr1500. rewrite Hp.
    unfold orDefault.
    destruct (Req_dec_T (ratingAt cs p) 0) as [Hz|_];
      [by apply Hnz in Hin|].
    intros Hel. apply list_elem_of_filter in Hel as [[_ Hlt] _]. lra. }
  intros Hnil.
  eapply (filter_nil_not_elem_of _ _ p); [exact Hnil | exact Hkeep | exact Hin].
Qed.

Lemma nextBatch_sole_zero (now : Z) (rng : Rng) (st : EloPickerState)
    (c : Color) :
  colors st = [c] -> eloRating c = 0%R -> 8 <= comparisons c ->
  eliminated st = [] -> favorites st = [] ->
  capReached st = false -> 10 <= sessionComparisons (analytics st) ->
  let st' := nextBatch now rng st in
  availableOf st = [0]
  /\ eliminated st' = [0]
  /\ availableOf st' = []
  /\ evaluating st' = Some []
  /\ sessionComplete st' = false.
Proof.
  intros Hcs Hr Hc He Hf Hcap Hn st'.
  assert (availableOf st = [0]) as Hav.
  { rewrite availableOf_fresh by assumption. unfold allRefs. by rewrite Hcs. }
  assert (availableOf st <> []) as Hne by (rewrite Hav; discriminate).
  destruct (nextBatch_running now rng st Hcap Hne) as (Hsc & Hel & Hev).
  apply Nat.leb_le in Hn. rewrite Hn, Hav, Hcs, He in Hel, Hev.
  rewrite (toEliminate_sole_zero c Hr Hc) in Hel, Hev.
  split; [exact Hav|]. split; [exact Hel|]. split; [|split].
  - unfold availableOf, allRefs. subst st'.
    rewrite colors_nextBatch, Hel, favorites_nextBatch, Hcs, Hf.
    reflexivity.
  - exact Hev.
  - exact Hsc.
Qed.

(** C3, on the code: a restored session whose only color has sunk to
    rating 0.  The elimination pass of [nextBatch] (run directly, or by
    [pick]) removes that color, so the active set is empty afterwards;
    yet the session is left running with an empty, non-null batch, and a
    further [pick] is still counted as a round. *)
Theorem elimination_leaves_empty_batch :
  let st1 := restoreState sunkSnapshot half loneSession in
  let st2 := nextBatch 5 halves st1 in
  let st3 := pick ["a"] 5 halves st1 in
  (availableOf st1 = [0] /\ eliminated st2 = [0] /\ availableOf st2 = []
   /\ evaluating st2 = Some [] /\ sessionComplete st2 = false)
  /\ (eliminated st3 = [0] /\ availableOf st3 = []
      /\ evaluating st3 = Some [] /\ sessionComplete st3 = false
      /\ sessionComparisons (analytics st3) = 11
      /\ sessionComparisons (analytics (pick ["a"] 9 halves st3)) = 12).
Proof.
  intros st1 st2 st3.
  assert (st1 = sunkSession (mkAnalytics 0 10 10 0 10 0 [])) as H1
    by reflexivity.
  assert (st3 = nextBatch 5 halves
                  (sunkSession (mkAnalytics 0 11 11 0 11 (5 / 1) [5%Z])))
    as H3.
  { subst st3. rewrite H1. reflexivity. }
  split.
  - subst st2. rewrite H1.
    apply (nextBatch_sole_zero 5 halves _ sunkColor);
      [reflexivity | reflexivity | simpl; lia | reflexivity | reflexivity
      | reflexivity | simpl; lia].
  - rewrite H3.
    destruct (nextBatch_sole_zero 5 halves
                (sunkSession (mkAnalytics 0 11 11 0 11 (5 / 1) [5%Z]))
                sunkColor) as (_ & Ha & Hb & Hc & Hd);
      [reflexivity | reflexivity | simpl; lia | reflexivity | reflexivity
      | reflexivity | simpl; lia |].
    split; [exact Ha|]. split; [exact Hb|]. split; [exact Hc|].
    split; [exact Hd|]. rewrite analytics_nextBatch. split; [reflexivity|].
    unfold pick. rewrite Hc. cbn [length Nat.eqb].
    match goal with |- context [capReached ?s] =>
      assert (capReached s = false) as ->
    end.
    { unfold capReached. rewrite Hd, analytics_nextBatch. reflexivity. }
    rewrite analytics_advance, analytics_checkForNewFavorites.
    unfold recordDecision.
    cbn [analytics setAnalytics setColors sessionComparisons].
    rewrite analytics_nextBatch. reflexivity.
Qed.

End Elimination.

(* ================================================================== *)
(** * One pick out of a batch of three *)

Section PickOneOfThree.

Local Open Scope R_scope.

(** Picking the first of three shown colors runs exactly two updates, in
    batch order: first against the second color, then against the third,
    the winner entering the second update as the first one left it. *)
Lemma pick_first_of_three_colors (st : EloPickerState) (c1 c2 c3 : Color)
    (now : Z) (rng : Rng) :
  colors st = [c1; c2; c3] ->
  id c2 <> id c1 -> id c3 <> id c1 ->
  evaluating st = Some [0; 1; 2]%nat -> capReached st = false ->
  colors (pick [id c1] now rng st)
  = let c1' := winnerUpdate false c1 c2 c1 in
    [winnerUpdate false c1' c3 c1'; loserUpdate false c1 c2 c2;
     loserUpdate false c1' c3 c3].
Proof.
  intros Hcs H21 H31 Hev Hcap. unfold pick.
  rewrite Hev, Hcap. cbn [length Nat.eqb].
  rewrite colors_advance, colors_checkForNewFavorites.
  cbn [colors setAnalytics setColors]. rewrite Hcs.
  assert (isPicked [c1; c2; c3] [id c1] 0 = true) as P0.
  { unfold isPicked. simpl. apply bool_decide_eq_true. apply list_elem_of_here. }
  assert (isPicked [c1; c2; c3] [id c1] 1 = false) as P1.
  { unfold isPicked. simpl. apply bool_decide_eq_false.
    rewrite list_elem_of_singleton. exact H21. }
  assert (isPicked [c1; c2; c3] [id c1] 2 = false) as P2.
  { unfold isPicked. simpl. apply bool_decide_eq_false.
    rewrite list_elem_of_singleton. exact H31. }
  assert (filter (fun c => isPicked [c1; c2; c3] [id c1] c = true)
            [0; 1; 2]%nat = [0%nat]) as ->.
  { rewrite list.filter_cons_True by exact P0.
    rewrite list.filter_cons_False by (rewrite P1; discriminate).
    rewrite list.filter_cons_False by (rewrite P2; discriminate).
    reflexivity. }
  assert (filter (fun c => isPicked [c1; c2; c3] [id c1] c = false)
            [0; 1; 2]%nat = [1; 2]%nat) as ->.
  { rewrite list.filter_cons_False by (rewrite P0; discriminate).
    rewrite list.filter_cons_True by exact P1.
    rewrite list.filter_cons_True by exact P2.
    reflexivity. }
  cbn [length Nat.ltb Nat.leb winLossUpdates foldl].
  rewrite (updateEloRatings_alter [c1; c2; c3] 0 1 false c1 c2)
    by reflexivity.
  cbn [alter list_alter].
  rewrite (updateEloRatings_alter _ 0 2 false (winnerUpdate false c1 c2 c1) c3)
    by reflexivity.
  reflexivity.
Qed.

Lemma kFactor_after_one : kFactorOf 1 = 62.
Proof. unfold kFactorOf, Rmax. simpl. destruct (Rle_dec _ _); lra. Qed.

(** The statistics of three fresh colors after those two updates. *)
Lemma first_of_three_outcome (c1 c2 c3 : Color) :
  isFresh c1 -> isFresh c2 -> isFresh c3 ->
  let c1' := winnerUpdate false c1 c2 c1 in
  let w := winnerUpdate false c1' c3 c1' in
  let l2 := loserUpdate false c1 c2 c2 in
  let l3 := loserUpdate false c1' c3 c3 in
  1500 < eloRating w
  /\ eloRating l2 = 1500 - 32
  /\ 1500 - 31 < eloRating l3 < 1500
  /\ comparisons w = 2%nat /\ comparisons l2 = 1%nat
  /\ comparisons l3 = 1%nat
  /\ wins w = 2%nat /\ losses l2 = 1%nat /\ losses l3 = 1%nat.
Proof.
  intros (R1 & C1 & W1 & L1) (R2 & C2 & W2 & L2) (R3 & C3 & W3 & L3).
  unfold winnerUpdate, loserUpdate. simpl.
  rewrite R1, R2, R3, C1, C2, C3, W1, L2, L3.
  rewrite kFactor_fresh, kFactor_after_one, expected_equal.
  replace (1500 + 64 * (1 - 1 / 2)) with 1532 by lra.
  pose proof (expected_bounds 1532 1500) as [_ Hw].
  pose proof (expected_bounds 1500 1532) as [Hl0 _].
  pose proof (expected_underdog 1500 1532 ltac:(lra)) as Hl1.
  repeat split; try reflexivity; lra.
Qed.

(** C2 (as the code has it): in a running session whose pool is three
    fresh colors with distinct ids, all three shown, picking the first
    one raises its rating above 1500, takes exactly 32 points from the
    second color and fewer (more than 0, less than 31) from the third;
    the picked color then has 2 comparisons and 2 wins, the other two
    have 1 comparison and 1 loss each. *)
Theorem pick_first_of_three (st : EloPickerState) (c1 c2 c3 : Color)
    (now : Z) (rng : Rng) :
  colors st = [c1; c2; c3] ->
  isFresh c1 -> isFresh c2 -> isFresh c3 ->
  id c2 <> id c1 -> id c3 <> id c1 ->
  evaluating st = Some [0; 1; 2]%nat -> capReached st = false ->
  let cs' := colors (pick [id c1] now rng st) in
  1500 < ratingAt cs' 0
  /\ ratingAt cs' 1 = 1500 - 32
  /\ 1500 - 31 < ratingAt cs' 2 < 1500
  /\ comparisonsAt cs' 0 = 2%nat /\ comparisonsAt cs' 1 = 1%nat
  /\ comparisonsAt cs' 2 = 1%nat
  /\ winsAt cs' 0 = 2%nat /\ lossesAt cs' 1 = 1%nat
  /\ lossesAt cs' 2 = 1%nat.
Proof.
  intros Hcs F1 F2 F3 H21 H31 Hev Hcap cs'. subst cs'.
  rewrite (pick_first_of_three_colors st c1 c2 c3 now rng Hcs H21 H31 Hev Hcap).
  exact (first_of_three_outcome c1 c2 c3 F1 F2 F3).
Qed.

Lemma pick_first_of_three_witness :
  let cs' := colors (pick ["a"] 5 halves threeSession) in
  1500 < ratingAt cs' 0
  /\ ratingAt cs' 1 = 1500 - 32
  /\ 1500 - 31 < ratingAt cs' 2 < 1500
  /\ comparisonsAt cs' 0 = 2%nat /\ comparisonsAt cs' 1 = 1%nat
  /\ comparisonsAt cs' 2 = 1%nat
  /\ winsAt cs' 0 = 2%nat /\ lossesAt cs' 1 = 1%nat
  /\ lossesAt cs' 2 = 1%nat.
Proof.
  apply (pick_first_of_three threeSession (sampleColor "a" 0 1500 0)
           (sampleColor "b" 120 1500 0) (sampleColor "c" 240 1500 0)
           5%Z halves);
    [reflexivity | repeat split | repeat split | repeat split
    | discriminate | discriminate | reflexivity | reflexivity].
Defined.

(** C2 fails as stated on that very session: after the pick the first
    color has 2 comparisons and 2 wins, not 1, and the second and third
    colors have not lost the same amount. *)
Lemma pick_first_of_three_counterexample :
  let cs' := colors (pick ["a"] 5 halves threeSession) in
  comparisonsAt cs' 0 = 2%nat
  /\ winsAt cs' 0 = 2%nat
  /\ ratingAt cs' 1 - 1500 <> ratingAt cs' 2 - 1500.
Proof.
  intros cs'. subst cs'.
  pose proof (pick_first_of_three_colors threeSession
                (sampleColor "a" 0 1500 0) (sampleColor "b" 120 1500 0)
                (sampleColor "c" 240 1500 0) 5%Z halves eq_refl
                ltac:(discriminate) ltac:(discriminate) eq_refl eq_refl)
    as Hpick.
  change (id (sampleColor "a" 0 1500 0)) with "a" in Hpick.
  rewrite Hpick.
  destruct (first_of_three_outcome (sampleColor "a" 0 1500 0)
              (sampleColor "b" 120 1500 0) (sampleColor "c" 240 1500 0)
              ltac:(repeat split) ltac:(repeat split) ltac:(repeat split))
    as (_ & H2 & H3 & Hc & _ & _ & Hw & _).
  split; [exact Hc|]. split; [exact Hw|].
  unfold ratingAt. cbn [lookup list_lookup]. lra.
Qed.

End PickOneOfThree.

(* ================================================================== *)
(** * Sorted output: rankings and batches *)

Section SortedOutput.

(** Insertion keeps a list sorted whenever "may precede" (not [after]) is
    transitive and any two elements may go one way or the other. *)
Lemma insertBy_sorted {A : Type} (after : A -> A -> bool) (x : A)
    (xs : list A) :
  (forall a b c, after a b = false -> after b c = false -> after a c = false) ->
  (forall a b, after a b = true -> after b a = false) ->
  StronglySorted (fun a b => after a b = false) xs ->
  StronglySorted (fun a b => after a b = false) (insertBy after x xs).
Proof.
  intros Htrans Htot. induction 1 as [|y ys Hs IH Hall]; simpl.
  - repeat constructor.
  - destruct (after x y) eqn:Hxy.
    + constructor; [exact IH|].
      rewrite insertBy_perm. constructor; [by apply Htot | exact Hall].
    + constructor; [by constructor|].
      constructor; [exact Hxy|].
      eapply Forall_impl; [exact Hall|]. intros z Hyz. by eapply Htrans.
Qed.

Lemma stableSort_sorted {A : Type} (after : A -> A -> bool) (xs : list A) :
  (forall a b c, after a b = false -> after b c = false -> after a c = false) ->
  (forall a b, after a b = true -> after b a = false) ->
  StronglySorted (fun a b => after a b = false) (stableSort after xs).
Proof.
  intros Htrans Htot. induction xs as [|x xs IH]; simpl.
  - constructor.
  - by apply insertBy_sorted.
Qed.

Lemma StronglySorted_weaken {A : Type} (R1 R2 : A -> A -> Prop)
    (xs : list A) :
  (forall a b, R1 a b -> R2 a b) ->
  StronglySorted R1 xs -> StronglySorted R2 xs.
Proof.
  intros Himp. induction 1 as [|x xs Hs IH Hall]; constructor; [exact IH|].
  eapply Forall_impl; [exact Hall | apply Himp].
Qed.

Lemma Rltb_false (x y : R) : Rltb x y = false <-> (y <= x)%R.
Proof. unfold Rltb. destruct (Rlt_dec x y); split; intros; try lra; done. Qed.

Lemma Rltb_true (x y : R) : Rltb x y = true <-> (x < y)%R.
Proof. unfold Rltb. destruct (Rlt_dec x y); split; intros; try lra; done. Qed.

Lemma sortByRatingDesc_sorted (cs : list Color) (xs : list ref) :
  StronglySorted (fun a b => (ratingAt cs b <= ratingAt cs a)%R)
    (sortByRatingDesc cs xs).
Proof.
  eapply StronglySorted_weaken;
    [|apply (stableSort_sorted
               (fun a b => Rltb (ratingAt cs a) (ratingAt cs b)))].
  - intros a b Hab. by apply Rltb_false.
  - intros a b c Hab Hbc. apply Rltb_false in Hab, Hbc.
    apply Rltb_false. lra.
  - intros a b Hab. apply Rltb_true in Hab. apply Rltb_false. lra.
Qed.

Lemma sortByHue_sorted (cs : list Color) (xs : list ref) :
  StronglySorted (fun a b => hueAt cs a <= hueAt cs b) (sortByHue cs xs).
Proof.
  eapply StronglySorted_weaken;
    [|apply (stableSort_sorted (fun a b => hueAt cs b <? hueAt cs a))].
  - intros a b Hab. by apply Nat.ltb_ge in Hab.
  - intros a b c Hab Hbc. apply Nat.ltb_ge in Hab, Hbc.
    apply Nat.ltb_ge. lia.
  - intros a b Hab. apply Nat.ltb_lt in Hab. apply Nat.ltb_ge. lia.
Qed.

(** [getTopColors(count)] returns [min(count, |pool|)] distinct colors of
    the pool in non-increasing rating order, and no color left out is
    rated above one that is returned; eliminated and favorite colors take
    part like any other. *)
Theorem getTopColors_ranking (count : nat) (st : EloPickerState) :
  let top := getTopColors count st in
  let cs := colors st in
  length top = min count (length cs)
  /\ NoDup top
  /\ (forall c, c ∈ top -> c < length cs)
  /\ StronglySorted (fun a b => (ratingAt cs b <= ratingAt cs a)%R) top
  /\ (forall a c, a ∈ top -> c < length cs -> c ∉ top ->
        (ratingAt cs c <= ratingAt cs a)%R).
Proof.
  intros top cs. subst top. unfold getTopColors. fold cs.
  set (sorted := sortByRatingDesc cs (allRefs st)).
  assert (sorted ≡ₚ allRefs st) as Hperm by apply stableSort_perm.
  assert (StronglySorted (fun a b => (ratingAt cs b <= ratingAt cs a)%R)
            sorted) as Hsorted by apply sortByRatingDesc_sorted.
  assert (NoDup sorted) as Hnd.
  { rewrite Hperm. apply NoDup_seq. }
  rewrite <- (take_drop count sorted) in Hsorted, Hnd.
  split; [|split; [|split; [|split]]].
  - rewrite length_take, Hperm. unfold allRefs, cs. rewrite length_seq. lia.
  - by apply NoDup_app in Hnd as (? & _ & _).
  - intros c Hc. apply subseteq_take in Hc. rewrite Hperm in Hc.
    apply elem_of_seq in Hc. unfold cs. lia.
  - by apply StronglySorted_app_1_l in Hsorted.
  - intros a c Ha Hc Hnot.
    assert (c ∈ sorted) as Hin.
    { rewrite Hperm. apply elem_of_seq. unfold cs in Hc. lia. }
    rewrite <- (take_drop count sorted) in Hin.
    apply elem_of_app in Hin as [Hin|Hin]; [contradiction|].
    by eapply (StronglySorted_app_1_elem_of _ _ _ a c) in Hsorted.
Qed.

(** The selector hands a list that fits the requested size back as it
    is, in pool order; any batch it assembles itself comes out sorted by
    hue. *)
Theorem selectDiverseBatch_order (cs : list Color) (rng : Rng)
    (available : list ref) (size : nat) :
  let batch := selectDiverseBatch cs rng available size in
  if length available <=? size then batch = available
  else StronglySorted (fun a b => hueAt cs a <= hueAt cs b) batch.
Proof.
  intros batch. subst batch. unfold selectDiverseBatch.
  destruct (length available <=? size); [reflexivity|].
  repeat match goal with
         | |- context [let '(_, _) := ?x in _] => destruct x
         end.
  apply sortByHue_sorted.
Qed.

End SortedOutput.

(* ================================================================== *)
(** * Session invariants *)

Section SessionInvariants.

Lemma eliminated_checkForNewFavorites (st : EloPickerState) :
  eliminated (checkForNewFavorites st) = eliminated st.
Proof. unfold checkForNewFavorites. repeat case_match; reflexivity. Qed.

Lemma maxComparisons_nextBatch (now : Z) (rng : Rng) (st : EloPickerState) :
  maxComparisons (nextBatch now rng st) = maxComparisons st.
Proof. unfold nextBatch. repeat case_match; reflexivity. Qed.

Lemma maxComparisons_checkForNewFavorites (st : EloPickerState) :
  maxComparisons (checkForNewFavorites st) = maxComparisons st.
Proof. unfold checkForNewFavorites. repeat case_match; reflexivity. Qed.

Lemma maxComparisons_advance (now : Z) (rng : Rng) (st : EloPickerState) :
  maxComparisons (advance now rng st) = maxComparisons st.
Proof.
  unfold advance. case_match; [reflexivity | apply maxComparisons_nextBatch].
Qed.

Lemma maxComparisons_applyAction (d : Action) (st : EloPickerState) :
  maxComparisons (applyAction d st) = maxComparisons st.
Proof.
  destruct d; simpl; unfold pick, pass; repeat case_match; try reflexivity;
    rewrite maxComparisons_advance, ?maxComparisons_checkForNewFavorites;
    reflexivity.
Qed.

Lemma maxComparisons_run (ds : list Action) (st : EloPickerState) :
  maxComparisons (run ds st) = maxComparisons st.
Proof.
  unfold run. revert st. induction ds as [|d ds IH]; intros st; simpl;
    [reflexivity|]. rewrite IH. apply maxComparisons_applyAction.
Qed.

(** Whatever state it starts from, [nextBatch] leaves the session either
    complete without a batch or running on one below the cap. *)
Lemma nextBatch_phase (now : Z) (rng : Rng) (st : EloPickerState) :
  phaseOk (nextBatch now rng st).
Proof.
  destruct (capReached st) eqn:Hcap.
  { left. unfold nextBatch. rewrite Hcap. split; reflexivity. }
  destruct (decide (availableOf st = [])) as [Hnil|Hne].
  { left. by apply nextBatch_exhausted. }
  destruct (nextBatch_running now rng st Hcap Hne) as (Hsc & _ & Hev).
  right. split; [exact Hsc|]. split; [by rewrite Hev|].
  rewrite analytics_nextBatch, maxComparisons_nextBatch.
  unfold capReached in Hcap. apply orb_false_iff in Hcap as [_ Hcap].
  by apply Nat.leb_gt in Hcap.
Qed.

Lemma advance_phase (now : Z) (rng : Rng) (st : EloPickerState) :
  phaseOk (advance now rng st).
Proof.
  unfold advance. case_match; [left; split; reflexivity|].
  apply nextBatch_phase.
Qed.

Lemma applyAction_phase (d : Action) (st : EloPickerState) :
  phaseOk st -> phaseOk (applyAction d st).
Proof.
  intros Hst. destruct d as [picked now rng | now rng]; simpl;
    unfold pick, pass.
  - destruct (evaluating st); [|exact Hst].
    destruct (length picked =? 0); [exact Hst|].
    destruct (capReached st); [left; split; reflexivity|].
    apply advance_phase.
  - destruct (evaluating st); [|exact Hst].
    destruct (capReached st); [left; split; reflexivity|].
    apply advance_phase.
Qed.

(** The effect of a decision on the round counter: none on a complete
    session, one more round (and never past the cap) on a running one. *)
Lemma applyAction_count (d : Action) (st : EloPickerState) :
  phaseOk st -> effective d ->
  (sessionComplete st = true /\ applyAction d st = st)
  \/ (sessionComplete st = false
      /\ sessionComparisons (analytics (applyAction d st))
         = S (sessionComparisons (analytics st))
      /\ S (sessionComparisons (analytics st)) <= maxComparisons st).
Proof.
  intros [[Hsc Hev] | (Hsc & [ev Hev] & Hlt)] Heff.
  - left. split; [exact Hsc|].
    destruct d; simpl; unfold pick, pass; by rewrite Hev.
  - right. split; [exact Hsc|]. split; [|lia].
    assert (capReached st = false) as Hcap.
    { unfold capReached. rewrite Hsc. simpl. by apply Nat.leb_gt. }
    destruct d as [picked now rng | now rng]; simpl; unfold pick, pass;
      rewrite Hev, Hcap.
    + simpl in Heff. destruct picked; [done|]. simpl.
      rewrite analytics_advance, analytics_checkForNewFavorites. reflexivity.
    + rewrite analytics_advance. reflexivity.
Qed.

Lemma initialize_phase (given : option Settings) (now : Z) (rng : Rng)
    (st0 : EloPickerState) :
  phaseOk (initialize given now rng st0)
  /\ sessionComparisons (analytics (initialize given now rng st0)) = 0
  /\ maxComparisons (initialize given now rng st0) = maxComparisons st0.
Proof.
  unfold initialize. split; [apply nextBatch_phase|].
  rewrite analytics_nextBatch, maxComparisons_nextBatch. split; reflexivity.
Qed.

(** Counting rounds along a run of effective decisions. *)
Lemma run_count (ds : list Action) (st : EloPickerState) :
  phaseOk st -> Forall effective ds ->
  let st' := run ds st in
  phaseOk st'
  /\ (sessionComplete st' = true
      \/ sessionComparisons (analytics st')
         = sessionComparisons (analytics st) + length ds).
Proof.
  unfold run. revert st.
  induction ds as [|d ds IH]; intros st Hph Heff; simpl.
  - split; [exact Hph|]. right. lia.
  - apply Forall_cons in Heff as [Hd Hds].
    pose proof (applyAction_phase d st Hph) as Hph'.
    destruct (IH (applyAction d st) Hph' Hds) as [Hp Hc].
    split; [exact Hp|].
    destruct (applyAction_count d st Hph Hd) as [[Hsc Heq] | (Hsc & Hn & _)].
    + left. rewrite Heq in *.
      destruct Hp as [[Hc' _] | (Hrun & Hsome & _)]; [exact Hc'|].
      exfalso. clear Hc IH.
      assert (forall ds' s, sessionComplete s = true -> evaluating s = None ->
                foldl (fun st1 d0 => applyAction d0 st1) s ds' = s) as Hfix.
      { induction ds' as [|d' ds' IH']; intros s Hs1 Hs2; simpl; [done|].
        assert (applyAction d' s = s) as ->.
        { destruct d'; simpl; unfold pick, pass; by rewrite Hs2. }
        by apply IH'. }
      destruct Hph as [[_ Hev] | (Hr & _)]; [|congruence].
      rewrite (Hfix ds st Hsc Hev) in Hrun. congruence.
    + destruct Hc as [Hc|Hc]; [by left|]. right. rewrite Hc, Hn. lia.
Qed.

(** Termination: from [initialize] on, the round counter never exceeds
    the cap, and any run of at least [maxComparisons] effective
    decisions (passes, or picks naming an id) ends complete with no
    batch. *)
Theorem session_terminates (st0 : EloPickerState) (given : option Settings)
    (now : Z) (rng : Rng) (ds : list Action) :
  Forall effective ds ->
  let st := run ds (initialize given now rng st0) in
  (sessionComparisons (analytics st) <= length ds)
  /\ (sessionComplete st = false ->
        sessionComparisons (analytics st) = length ds
        /\ length ds < maxComparisons st0)
  /\ (maxComparisons st0 <= length ds ->
        sessionComplete st = true /\ evaluating st = None).
Proof.
  intros Heff st.
  destruct (initialize_phase given now rng st0) as (Hph & H0 & Hmax).
  destruct (run_count ds _ Hph Heff) as [Hp Hc]. fold st in Hp, Hc.
  rewrite H0 in Hc. simpl in Hc.
  assert (maxComparisons st = maxComparisons st0) as Hm.
  { unfold st. by rewrite maxComparisons_run. }
  assert (sessionComplete st = false ->
          sessionComparisons (analytics st) = length ds
          /\ length ds < maxComparisons st0) as Hrun.
  { intros Hf. destruct Hc as [Hc|Hc]; [congruence|].
    split; [exact Hc|].
    destruct Hp as [[Ht _] | (_ & _ & Hlt)]; [congruence|]. lia. }
  split; [|split; [exact Hrun|]].
  - clear Hrun Hc Hp. unfold st, run.
    assert (forall ds' s,
              sessionComparisons
                (analytics (foldl (fun st1 d => applyAction d st1) s ds'))
              <= sessionComparisons (analytics s) + length ds') as Hle.
    { induction ds' as [|d ds' IH]; intros s; simpl; [lia|].
      etransitivity; [apply IH|].
      assert (sessionComparisons (analytics (applyAction d s))
              <= S (sessionComparisons (analytics s))); [|lia].
      destruct d; simpl; unfold pick, pass; repeat case_match;
        rewrite ?analytics_advance, ?analytics_checkForNewFavorites;
        simpl; lia. }
    specialize (Hle ds (initialize given now rng st0)). rewrite H0 in Hle.
    exact Hle.
  - intros Hn. destruct Hp as [[Ht He] | (Hf & _ & _)]; [by split|].
    apply Hrun in Hf. lia.
Qed.

Lemma session_terminates_witness :
  let st := run [DoPass 1 halves; DoPick ["color_3"] 2 halves]
              (initialize None 0 halves shortSession) in
  (sessionComparisons (analytics st) <= 2)
  /\ (sessionComplete st = false ->
        sessionComparisons (analytics st) = 2 /\ 2 < 2)
  /\ (2 <= 2 -> sessionComplete st = true /\ evaluating st = None).
Proof.
  apply (session_terminates shortSession None 0%Z halves
           [DoPass 1 halves; DoPick ["color_3"] 2 halves]).
  repeat constructor. discriminate.
Defined.

End SessionInvariants.

(* ================================================================== *)
(** * Membership of the pool *)

Section Membership.

Lemma availableOf_elem (st : EloPickerState) (c : ref) :
  c ∈ availableOf st
  <-> c < length (colors st) /\ (c ∉ eliminated st) /\ (c ∉ favorites st).
Proof.
  unfold availableOf, allRefs. rewrite list_elem_of_filter, elem_of_seq.
  split; [intros [[? ?] ?] | intros (? & ? & ?)]; repeat split; auto; lia.
Qed.

Lemma toEliminate_elem (cs : list Color) (available : list ref) (c : ref) :
  c ∈ toEliminate cs available ->
  (c ∈ available) /\ 8 <= comparisonsAt cs c.
Proof.
  unfold toEliminate. intros Hc.
  apply list_elem_of_filter in Hc as [[Hcmp _] Hin]. by split.
Qed.

(** Once the two membership lists are in order, [nextBatch] leaves the
    whole session in order, batch included. *)
Lemma nextBatch_membership (now : Z) (rng : Rng) (st : EloPickerState) :
  NoDup (eliminated st) -> NoDup (favorites st) ->
  (forall c, c ∈ eliminated st -> c < length (colors st)) ->
  (forall c, c ∈ favorites st -> c < length (colors st)) ->
  (forall c, c ∈ eliminated st -> c ∉ favorites st) ->
  membershipOk (nextBatch now rng st).
Proof.
  intros Hne Hnf Hve Hvf Hdis. unfold membershipOk.
  rewrite favorites_nextBatch, colors_nextBatch.
  destruct (capReached st) eqn:Hcap.
  { unfold nextBatch. rewrite Hcap. simpl. repeat split; auto; discriminate. }
  destruct (decide (availableOf st = [])) as [Hnil|Hav].
  { destruct (nextBatch_exhausted now rng st Hnil) as [_ Hev].
    unfold nextBatch in *. rewrite Hcap, Hnil in *. simpl in *.
    repeat split; auto; discriminate. }
  destruct (nextBatch_running now rng st Hcap Hav) as (_ & Hel & Hev).
  rewrite Hel.
  set (el := if 10 <=? sessionComparisons (analytics st)
             then eliminated st ++ toEliminate (colors st) (availableOf st)
             else eliminated st) in *.
  assert (forall c, c ∈ el ->
            (c ∈ eliminated st)
            \/ ((c ∈ availableOf st)
                /\ 10 <= sessionComparisons (analytics st)))
    as Hsplit.
  { intros c Hc. unfold el in Hc.
    destruct (10 <=? sessionComparisons (analytics st)) eqn:H10; [|by left].
    apply elem_of_app in Hc as [Hc|Hc]; [by left|].
    right. split; [by apply toEliminate_elem in Hc as [? _]|].
    by apply Nat.leb_le. }
  assert (NoDup el) as Hnd.
  { unfold el. case_match; [|exact Hne].
    apply NoDup_app. split; [exact Hne|]. split.
    - intros c Hc Hc'. apply toEliminate_elem in Hc' as [Hc' _].
      apply availableOf_elem in Hc' as (_ & Hc' & _). contradiction.
    - unfold toEliminate. apply NoDup_filter, availableOf_NoDup. }
  split; [exact Hnd|]. split; [exact Hnf|]. split; [|split; [exact Hvf|split]].
  - intros c Hc. apply Hsplit in Hc as [Hc|[Hc _]]; [auto|].
    by apply availableOf_elem in Hc as (? & _).
  - intros c Hc. apply Hsplit in Hc as [Hc|[Hc _]]; [auto|].
    by apply availableOf_elem in Hc as (_ & _ & ?).
  - intros ev Hev'.
    destruct (nextBatch_batch now rng st ev Hev') as (H1 & H2 & H3).
    split; [exact H1|]. split; [exact H3|].
    intros c Hc.
    assert (c ∈ filter (fun c0 => c0 ∉ el) (availableOf st)) as Hin.
    { rewrite Hev in Hev'. apply (inj Some) in Hev'. subst ev.
      match goal with H : c ∈ selectDiverseBatch ?cs ?r ?a ?s |- _ =>
        destruct (selectDiverseBatch_spec cs r a s) as (_ & Hsub & _);
          [apply NoDup_filter, availableOf_NoDup | | by apply Hsub]
      end.
      match goal with |- _ \/ length ?xs <= _ =>
        assert (length xs <= length (availableOf st)) by apply length_filter
      end. lia. }
    apply list_elem_of_filter in Hin as [Hnot Hin].
    apply availableOf_elem in Hin as (Hlt & _ & Hfav).
    apply availableOf_elem.
    rewrite colors_nextBatch, Hel, favorites_nextBatch. by repeat split.
Qed.

Lemma checkForNewFavorites_promotes (st : EloPickerState) :
  favorites (checkForNewFavorites st) = favorites st
  \/ exists top,
       favorites (checkForNewFavorites st) = favorites st ++ [top]
       /\ 20 <= sessionComparisons (analytics st)
       /\ top ∈ availableOf st
       /\ 10 <= comparisonsAt (colors st) top
       /\ (forall c, c ∈ availableOf st -> 10 <= comparisonsAt (colors st) c ->
             (ratingAt (colors st) c <= ratingAt (colors st) top)%R).
Proof.
  unfold checkForNewFavorites.
  destruct (20 <=? sessionComparisons (analytics st)) eqn:H20; [|by left].
  apply Nat.leb_le in H20.
  set (eligible := filter _ (allRefs st)).
  pose proof (sortByRatingDesc_sorted (colors st) eligible) as Hsorted.
  assert (sortByRatingDesc (colors st) eligible ≡ₚ eligible) as Hperm
    by apply stableSort_perm.
  destruct (sortByRatingDesc (colors st) eligible) as [|top rest] eqn:Hs;
    [by left|].
  case_match; [|by left].
  right. exists top. split; [reflexivity|]. split; [exact H20|].
  assert (forall c, c ∈ eligible
            <-> c ∈ availableOf st /\ 10 <= comparisonsAt (colors st) c)
    as Helig.
  { intros c. unfold eligible, availableOf.
    rewrite !list_elem_of_filter. tauto. }
  assert (top ∈ eligible) as Htop.
  { rewrite <- Hperm. apply list_elem_of_here. }
  apply Helig in Htop as [Hav Hcmp].
  split; [exact Hav|]. split; [exact Hcmp|].
  intros c Hc Hc10.
  assert (c ∈ top :: rest) as Hin by (rewrite Hperm; by apply Helig).
  apply StronglySorted_inv in Hsorted as [_ Hall].
  apply elem_of_cons in Hin as [->|Hin]; [lra|].
  by eapply Forall_forall in Hall.
Qed.

Lemma checkForNewFavorites_membership (st : EloPickerState) :
  NoDup (eliminated st) -> NoDup (favorites st) ->
  (forall c, c ∈ eliminated st -> c < length (colors st)) ->
  (forall c, c ∈ favorites st -> c < length (colors st)) ->
  (forall c, c ∈ eliminated st -> c ∉ favorites st) ->
  let st' := checkForNewFavorites st in
  NoDup (eliminated st') /\ NoDup (favorites st')
  /\ (forall c, c ∈ eliminated st' -> c < length (colors st'))
  /\ (forall c, c ∈ favorites st' -> c < length (colors st'))
  /\ (forall c, c ∈ eliminated st' -> c ∉ favorites st').
Proof.
  intros Hne Hnf Hve Hvf Hdis st'. subst st'.
  rewrite eliminated_checkForNewFavorites, colors_checkForNewFavorites.
  destruct (checkForNewFavorites_promotes st)
    as [-> | (top & -> & _ & Hav & _)]; [by repeat split|].
  apply availableOf_elem in Hav as (Hlt & Hel & Hfav).
  split; [exact Hne|]. split; [|split; [exact Hve|split]].
  - apply NoDup_app. split; [exact Hnf|]. split; [|apply NoDup_singleton].
    intros c Hc Hc'. apply list_elem_of_singleton in Hc' as ->. contradiction.
  - intros c Hc. apply elem_of_app in Hc as [Hc|Hc]; [auto|].
    by apply list_elem_of_singleton in Hc as ->.
  - intros c Hc Hc'. apply elem_of_app in Hc' as [Hc'|Hc'].
    + by apply (Hdis c).
    + apply list_elem_of_singleton in Hc' as ->. contradiction.
Qed.

Lemma applyAction_length (d : Action) (st : EloPickerState) :
  length (colors (applyAction d st)) = length (colors st).
Proof.
  destruct d; simpl.
  - apply (pick_inv (fun cs => length cs = length (colors st)));
      [|reflexivity].
    intros w lo d cs H. by rewrite updateEloRatings_length.
  - apply (pass_inv (fun cs => length cs = length (colors st)));
      [|reflexivity].
    intros w lo d cs H. by rewrite updateEloRatings_length.
Qed.

Lemma applyAction_membership (d : Action) (st : EloPickerState) :
  membershipOk st -> membershipOk (applyAction d st).
Proof.
  intros Hst. pose proof Hst as (Hne & Hnf & Hve & Hvf & Hdis & Hev).
  assert (membershipOk (complete st)) as Hcomplete.
  { unfold membershipOk. simpl. repeat split; auto; discriminate. }
  assert (forall now rng s,
            NoDup (eliminated s) -> NoDup (favorites s) ->
            (forall c, c ∈ eliminated s -> c < length (colors s)) ->
            (forall c, c ∈ favorites s -> c < length (colors s)) ->
            (forall c, c ∈ eliminated s -> c ∉ favorites s) ->
            membershipOk (advance now rng s)) as Hadv.
  { intros now rng s H1 H2 H3 H4 H5. unfold advance. case_match.
    - unfold membershipOk. simpl. repeat split; auto; discriminate.
    - by apply nextBatch_membership. }
  destruct d as [picked now rng | now rng]; simpl.
  - pose proof (applyAction_length (DoPick picked now rng) st) as Hlen.
    simpl in Hlen. unfold pick in *.
    destruct (evaluating st); [|exact Hst].
    destruct (length picked =? 0); [exact Hst|].
    destruct (capReached st); [exact Hcomplete|].
    rewrite colors_advance, colors_checkForNewFavorites in Hlen.
    simpl in Hlen.
    match goal with |- membershipOk (advance _ _ (checkForNewFavorites ?s)) =>
      destruct (checkForNewFavorites_membership s)
        as (H1 & H2 & H3 & H4 & H5)
    end; simpl; try rewrite Hlen; auto.
  - pose proof (applyAction_length (DoPass now rng) st) as Hlen.
    simpl in Hlen. unfold pass in *.
    destruct (evaluating st); [|exact Hst].
    destruct (capReached st); [exact Hcomplete|].
    rewrite colors_advance in Hlen. simpl in Hlen.
    apply Hadv; simpl; try rewrite Hlen; auto.
Qed.

(** After [initialize] and any run of decisions, the membership lists
    and the batch are in order: no color is eliminated twice or promoted
    twice, none is both eliminated and a favorite, every reference points
    into the pool, and the batch shows at most 10 distinct colors, all of
    them active. *)
Theorem membership_invariant (st0 : EloPickerState) (given : option Settings)
    (now : Z) (rng : Rng) (ds : list Action) :
  membershipOk (run ds (initialize given now rng st0)).
Proof.
  assert (membershipOk (initialize given now rng st0)) as Hinit.
  { unfold initialize. apply nextBatch_membership; simpl;
      try apply NoDup_nil_2; intros c Hc; by apply not_elem_of_nil in Hc. }
  unfold run. revert Hinit. generalize (initialize given now rng st0).
  induction ds as [|d ds IH]; intros st Hst; simpl; [exact Hst|].
  apply IH, applyAction_membership, Hst.
Qed.

End Membership.

(* ================================================================== *)
(** * What elimination and promotion do *)

Section EliminationAndPromotion.

Local Open Scope R_scope.

Lemma nextBatch_elimination_rule_aux (now : Z) (rng : Rng)
    (st : EloPickerState) :
  exists new, eliminated (nextBatch now rng st) = eliminated st ++ new.
Proof.
  unfold nextBatch. repeat case_match; simpl;
    try (exists []; by rewrite app_nil_r); by eexists.
Qed.

(** The elimination pass of [nextBatch] only ever appends to
    [eliminated].  It appends nothing before the tenth session
    comparison; what it appends are active colors with at least 8
    comparisons, each rated more than 200 points below some active color
    or below 1300 (the fallback threshold 1500 less 200). *)
Theorem nextBatch_elimination_rule (now : Z) (rng : Rng)
    (st : EloPickerState) :
  exists new,
    eliminated (nextBatch now rng st) = eliminated st ++ new
    /\ ((sessionComparisons (analytics st) < 10)%nat -> new = [])
    /\ (forall c, c ∈ new ->
          c ∈ availableOf st
          /\ (8 <= comparisonsAt (colors st) c)%nat
          /\ (ratingAt (colors st) c < 1300
              \/ exists p, p ∈ availableOf st
                   /\ ratingAt (colors st) c + 200 < ratingAt (colors st) p)).
Proof.
  destruct (capReached st) eqn:Hcap.
  { exists []. unfold nextBatch. rewrite Hcap. simpl. rewrite app_nil_r.
    split; [reflexivity|]. split; [done|]. intros c Hc.
    by apply not_elem_of_nil in Hc. }
  destruct (decide (availableOf st = [])) as [Hnil|Hav].
  { exists []. unfold nextBatch. rewrite Hcap, Hnil. simpl.
    rewrite app_nil_r. split; [reflexivity|]. split; [done|]. intros c Hc.
    by apply not_elem_of_nil in Hc. }
  destruct (nextBatch_running now rng st Hcap Hav) as (_ & Hel & _).
  rewrite Hel.
  destruct (10 <=? sessionComparisons (analytics st))%nat eqn:H10.
  2:{ exists []. rewrite app_nil_r. split; [reflexivity|]. split; [done|].
      intros c Hc. by apply not_elem_of_nil in Hc. }
  apply Nat.leb_le in H10.
  exists (toEliminate (colors st) (availableOf st)).
  split; [reflexivity|]. split; [lia|].
  intros c Hc. unfold toEliminate in Hc.
  apply list_elem_of_filter in Hc as [[Hcmp Hlt] Hin].
  split; [exact Hin|]. split; [exact Hcmp|].
  unfold ratingOr1500 in Hlt.
  set (sorted := sortByRatingDesc (colors st) (availableOf st)) in *.
  destruct (sorted !! (length sorted * 3 / 4)%nat) as [p|] eqn:Hp;
    [|left; lra].
  unfold orDefault in Hlt.
  destruct (Req_dec_T (ratingAt (colors st) p) 0); [left; lra|].
  right. exists p. split; [|lra].
  assert (sorted ≡ₚ availableOf st) as Hperm by apply stableSort_perm.
  rewrite <- Hperm. by eapply list_elem_of_lookup_2.
Qed.




(** Elimination and promotion are irreversible, and the pool keeps its
    shape: along any run the lists [eliminated] and [favorites] only
    grow at the end, an eliminated color is never active again, and the
    pool keeps its length, ids and colors' looks. *)
Theorem membership_only_grows (ds : list Action) (st : EloPickerState) :
  let st' := run ds st in
  eliminated st `prefix_of` eliminated st'
  /\ favorites st `prefix_of` favorites st'
  /\ (forall c, c ∈ eliminated st -> c ∉ availableOf st')
  /\ map id (colors st') = map id (colors st)
  /\ map hsl (colors st') = map hsl (colors st).
Proof.
  intros st'. subst st'.
  assert (forall now rng s,
            eliminated s `prefix_of` eliminated (nextBatch now rng s)) as Hnb.
  { intros now rng s.
    destruct (nextBatch_elimination_rule_aux now rng s) as [new ->].
    by apply prefix_app_r. }
  assert (forall now rng s,
            eliminated s `prefix_of` eliminated (advance now rng s)
            /\ favorites (advance now rng s) = favorites s) as Hadv.
  { intros now rng s. unfold advance. case_match; [done|].
    split; [apply Hnb | apply favorites_nextBatch]. }
  assert (forall s, favorites s `prefix_of` favorites (checkForNewFavorites s))
    as Hfav.
  { intros s. destruct (checkForNewFavorites_promotes s)
      as [-> | (top & -> & _)]; [done | by apply prefix_app_r]. }
  assert (forall d s,
            eliminated s `prefix_of` eliminated (applyAction d s)
            /\ favorites s `prefix_of` favorites (applyAction d s)) as Hstep.
  { intros d s. destruct d as [picked now rng | now rng]; simpl;
      unfold pick, pass.
    - destruct (evaluating s); [|done].
      destruct (length picked =? 0)%nat; [done|].
      destruct (capReached s); [done|].
      match goal with |- context [advance now rng ?x] =>
        destruct (Hadv now rng x) as [He Hf]
      end.
      rewrite eliminated_checkForNewFavorites in He. rewrite Hf.
      split; [exact He|]. etransitivity; [|apply Hfav]. done.
    - destruct (evaluating s); [|done].
      destruct (capReached s); [done|].
      match goal with |- context [advance now rng ?x] =>
        destruct (Hadv now rng x) as [He Hf]
      end.
      rewrite Hf. split; [exact He | done]. }
  assert (eliminated st `prefix_of` eliminated (run ds st)
          /\ favorites st `prefix_of` favorites (run ds st)) as [He Hf].
  { unfold run. revert st. induction ds as [|d ds IH]; intros st; simpl;
      [done|].
    destruct (IH (applyAction d st)) as [H1 H2].
    destruct (Hstep d st) as [H3 H4].
    split; etransitivity; eauto. }
  assert (Forall2 drift (colors st) (colors (run ds st))) as Hdrift.
  { apply (run_inv (Forall2 drift (colors st))).
    - intros w lo d cs. apply updateEloRatings_drift.
    - apply Forall2_same_length_lookup. split; [reflexivity|].
      intros i x y Hx Hy. assert (x = y) as -> by congruence.
      apply drift_refl. }
  split; [exact He|]. split; [exact Hf|]. split; [|split].
  - intros c Hc Hav. apply availableOf_elem in Hav as (_ & Hnot & _).
    apply Hnot. destruct He as [k ->]. apply elem_of_app. by left.
  - clear He Hf. induction Hdrift as [|c0 c cs0 cs Hd _ IH]; [done|].
    simpl. destruct Hd as (-> & _). by rewrite IH.
  - clear He Hf. induction Hdrift as [|c0 c cs0 cs Hd _ IH]; [done|].
    simpl. destruct Hd as (_ & -> & _). by rewrite IH.
Qed.

End EliminationAndPromotion.

(* ================================================================== *)
(** * The generated pool and its hue groups *)

Section GeneratedPool.

Lemma generateFrom_ids (n i : nat) (hue : Q) :
  map id (generateFrom n i hue)
  = map (fun k => "color_" +:+ pretty k) (seq i n).
Proof.
  revert i hue. induction n as [|n IH]; intros i hue; simpl;
    [reflexivity|]. f_equal. apply IH.
Qed.

Lemma frac_bounds (x : Q) :
  (0 <= x - inject_Z (Qfloor x))%Q /\ (x - inject_Z (Qfloor x) < 1)%Q.
Proof.
  pose proof (Qfloor_le x) as Hle. pose proof (Qlt_floor x) as Hlt.
  rewrite inject_Z_plus in Hlt. change (inject_Z 1) with 1%Q in Hlt.
  set (f := inject_Z (Qfloor x)) in *. clearbody f.
  split; Lqa.lra.
Qed.

Lemma floorNat_lt (x : Q) (n : nat) :
  (x < inject_Z (Z.of_nat n))%Q -> (0 < n)%nat -> floorNat x < n.
Proof.
  intros Hx Hn. unfold floorNat.
  assert (Qfloor x < Z.of_nat n)%Z; [|lia].
  rewrite Zlt_Qlt. eapply Qle_lt_trans; [apply Qfloor_le | exact Hx].
Qed.

Lemma generateFrom_lookup (n i : nat) (hue : Q) (j : nat) (c : Color) :
  generateFrom n i hue !! j = Some c ->
  id c = "color_" +:+ pretty (i + j)
  /\ h (hsl c) < 360
  /\ s (hsl c) = nth ((i + j) mod 4) [40; 60; 80; 100] 0
  /\ l (hsl c) = nth (((i + j) / 4) mod 7) [30; 40; 50; 60; 70; 80; 90] 0.
Proof.
  revert i hue j. induction n as [|n IH]; intros i hue j Hj; [done|].
  destruct j as [|j]; cbn [generateFrom lookup list_lookup] in Hj.
  - clear IH. apply (inj Some) in Hj. subst c. rewrite Nat.add_0_r.
    cbn [id hsl].
    split; [reflexivity|]. split; [|split].
    + cbn [h]. apply floorNat_lt; [|lia].
      destruct (frac_bounds (hue + goldenRatioConjugate)) as [_ Hlt].
      change (inject_Z (Z.of_nat 360)) with 360%Q.
      set (f := (hue + goldenRatioConjugate
                 - inject_Z (Qfloor (hue + goldenRatioConjugate)))%Q) in *.
      clearbody f. Lqa.lra.
    + cbn [s]. change (length saturationLevels) with 4.
      pose proof (Nat.mod_upper_bound i 4 ltac:(lia)) as Hm.
      destruct (i mod 4) as [|[|[|[|k]]]]; try lia; reflexivity.
    + cbn [l]. change (length saturationLevels) with 4.
      change (length lightnessLevels) with 7.
      pose proof (Nat.mod_upper_bound (i / 4) 7 ltac:(lia)) as Hm.
      destruct ((i / 4) mod 7) as [|[|[|[|[|[|[|k]]]]]]]; try lia;
        reflexivity.
  - apply IH in Hj. replace (i + S j) with (S i + j) by lia. exact Hj.
Qed.

(** [generatePerceptuallyDistinctColors(count)] returns exactly [count]
    colors, all with the initial statistics, named [color_0],
    [color_1], ... in order, so that no two share an id. *)
Theorem generated_pool_shape (count : nat) (seed : U01) :
  let cs := generatePerceptuallyDistinctColors count seed in
  length cs = count
  /\ Forall isFresh cs
  /\ map id cs = map (fun k => "color_" +:+ pretty k) (seq 0 count)
  /\ NoDup (map id cs).
Proof.
  intros cs. subst cs. unfold generatePerceptuallyDistinctColors.
  split; [apply generateFrom_length|]. split; [apply generateFrom_fresh|].
  split; [apply generateFrom_ids|].
  rewrite generateFrom_ids.
  change (map ?f ?xs) with (f <$> xs).
  assert (Inj (=) (=) (fun k : nat => "color_" +:+ pretty k)) as Hinj.
  { intros a1 a2 Heq. apply (inj (String.app "color_")) in Heq.
    by apply (inj pretty) in Heq. }
  apply (NoDup_fmap_2 _), NoDup_seq.
Qed.

(** Every generated color has a hue below 360 degrees; saturation runs
    through 40, 60, 80, 100 with the index, and lightness steps through
    30, 40, ..., 90 every four colors. *)
Theorem generated_pool_hsl (count : nat) (seed : U01) (i : nat) (c : Color) :
  generatePerceptuallyDistinctColors count seed !! i = Some c ->
  h (hsl c) < 360
  /\ s (hsl c) = nth (i mod 4) [40; 60; 80; 100] 0
  /\ l (hsl c) = nth ((i / 4) mod 7) [30; 40; 50; 60; 70; 80; 90] 0.
Proof.
  intros Hc. apply generateFrom_lookup in Hc as (_ & H1 & H2 & H3).
  simpl in H2, H3. auto.
Qed.

Lemma generated_pool_hsl_witness :
  h (hsl (mkColor "color_1" (mkHSL 264 60 30) 1500 0 0 0)) < 360
  /\ s (hsl (mkColor "color_1" (mkHSL 264 60 30) 1500 0 0 0))
     = nth (1 mod 4) [40; 60; 80; 100] 0
  /\ l (hsl (mkColor "color_1" (mkHSL 264 60 30) 1500 0 0 0))
     = nth ((1 / 4) mod 7) [30; 40; 50; 60; 70; 80; 90] 0.
Proof.
  apply (generated_pool_hsl 3 half 1). vm_compute. reflexivity.
Defined.

Lemma getHueGroup_lt (hue : nat) : getHueGroup hue < 12.
Proof. unfold getHueGroup. apply Nat.mod_upper_bound. lia. Qed.

Lemma filter_disjoint_app {A : Type} (P Q : A -> Prop)
    `{!forall x, Decision (P x)} `{!forall x, Decision (Q x)} (xs : list A) :
  (forall x, P x -> Q x -> False) ->
  filter P xs ++ filter Q xs ≡ₚ filter (fun x => P x \/ Q x) xs.
Proof.
  intros Hdis. induction xs as [|x xs IH]; [reflexivity|].
  rewrite !filter_cons.
  destruct (decide (P x)) as [HP|HP], (decide (Q x)) as [HQ|HQ].
  - exfalso. eauto.
  - rewrite decide_True by auto. simpl. by rewrite IH.
  - rewrite decide_True by auto. rewrite <- Permutation_middle. by rewrite IH.
  - rewrite decide_False by tauto. exact IH.
Qed.

Lemma concat_filter_keys {A : Type} (key : A -> nat) (keys : list nat)
    (xs : list A) :
  NoDup keys ->
  concat (map (fun k => filter (fun x => key x = k) xs) keys)
  ≡ₚ filter (fun x => key x ∈ keys) xs.
Proof.
  induction 1 as [|k ks Hk Hnd IH]; simpl.
  - symmetry. apply Permutation_nil_r.
    induction xs as [|x xs IHx]; [reflexivity|].
    rewrite filter_cons_False; [exact IHx | apply not_elem_of_nil].
  - rewrite IH. rewrite filter_disjoint_app.
    + rewrite (list_filter_iff _ (fun x => key x ∈ k :: ks) xs);
        [reflexivity|].
      intros x. rewrite elem_of_cons. tauto.
    + intros x Hx Hx'. subst k. contradiction.
Qed.

(** [groupByHue] always yields twelve groups, one per 30-degree hue
    range, each sorted by rating, best first.  Together they hold every
    input color exactly once: a color sits in the group
    [floor(hue / 30) mod 12] and in no other. *)
Theorem groupByHue_partition (cs : list Color) (colors : list ref) :
  let groups := groupByHue cs colors in
  length groups = 12
  /\ (forall key g c, groups !! key = Some g ->
        (c ∈ g <-> c ∈ colors /\ getHueGroup (hueAt cs c) = key))
  /\ (forall key g, groups !! key = Some g ->
        StronglySorted (fun a b => (ratingAt cs b <= ratingAt cs a)%R) g)
  /\ concat groups ≡ₚ colors.
Proof.
  intros groups. subst groups. unfold groupByHue.
  split; [by rewrite length_map, length_seq|]. split; [|split].
  - intros key g c Hg.
    change (map ?f ?xs) with (f <$> xs) in Hg.
    rewrite list_lookup_fmap in Hg.
    destruct (seq 0 12 !! key) as [k|] eqn:Hk; [|done].
    apply lookup_seq in Hk as [-> _]. apply (inj Some) in Hg. subst g.
    unfold sortByRatingDesc. rewrite stableSort_perm.
    rewrite list_elem_of_filter. tauto.
  - intros key g Hg.
    change (map ?f ?xs) with (f <$> xs) in Hg.
    rewrite list_lookup_fmap in Hg.
    destruct (seq 0 12 !! key) as [k|]; simplify_eq/=.
    apply sortByRatingDesc_sorted.
  - transitivity
      (concat (map (fun k => filter (fun c => getHueGroup (hueAt cs c) = k)
                                colors) (seq 0 12))).
    + generalize (seq 0 12). intros ks.
      induction ks as [|k ks IH]; simpl; [reflexivity|].
      unfold sortByRatingDesc at 1. rewrite stableSort_perm. by rewrite IH.
    + rewrite (concat_filter_keys (fun c => getHueGroup (hueAt cs c)))
        by apply NoDup_seq.
      rewrite filter_all; [reflexivity|].
      intros c. apply elem_of_seq. pose proof (getHueGroup_lt (hueAt cs c)).
      lia.
Qed.

End GeneratedPool.

(* ================================================================== *)
(** * Ids, snapshots and reset *)

Section Snapshots.

Lemma colorMapOf_snoc (cs : list Color) (c : Color) :
  colorMapOf (cs ++ [c]) = <[id c := length cs]> (colorMapOf cs).
Proof.
  unfold colorMapOf. rewrite length_app. simpl.
  rewrite Nat.add_1_r, seq_S. simpl.
  rewrite zip_with_app by (by rewrite length_seq).
  simpl. by rewrite foldl_snoc.
Qed.

Lemma colorMapOf_Some (cs : list Color) (name : string) (i : ref) :
  colorMapOf cs !! name = Some i ->
  exists c, cs !! i = Some c /\ id c = name.
Proof.
  induction cs as [|c cs IH] using rev_ind; [done|].
  rewrite colorMapOf_snoc. intros H.
  apply lookup_insert_Some in H as [[<- <-] | [_ H]].
  - exists c. split; [|reflexivity].
    by rewrite lookup_app_r, Nat.sub_diag by lia.
  - destruct (IH H) as (c' & Hc' & Hid). exists c'. split; [|exact Hid].
    by apply lookup_app_l_Some.
Qed.

Lemma colorMapOf_None (cs : list Color) (name : string) :
  colorMapOf cs !! name = None <-> name ∉ map id cs.
Proof.
  induction cs as [|c cs IH] using rev_ind.
  - split; [intros _; apply not_elem_of_nil | done].
  - rewrite colorMapOf_snoc, lookup_insert_None, IH.
    change (map ?f ?xs) with (f <$> xs). rewrite fmap_app. simpl.
    rewrite not_elem_of_app, list_elem_of_singleton.
    split; intros [? ?]; split; auto; congruence.
Qed.

Lemma colorMapOf_NoDup (cs : list Color) (i : ref) (c : Color) :
  NoDup (map id cs) -> cs !! i = Some c -> colorMapOf cs !! id c = Some i.
Proof.
  revert i c. induction cs as [|c' cs IHcs] using rev_ind; [done|].
  intros i c Hnd Hi.
  change (map ?f ?xs) with (f <$> xs) in Hnd. rewrite fmap_app in Hnd.
  apply NoDup_app in Hnd as (Hnd & Hdis & _).
  rewrite colorMapOf_snoc.
  destruct (decide (i < length cs)) as [Hlt|Hge].
  - rewrite lookup_app_l in Hi by exact Hlt.
    rewrite lookup_insert_ne.
    + by apply IHcs.
    + intros Heq. apply (Hdis (id c)).
      * apply list_elem_of_fmap. exists c. split; [done|].
        by eapply list_elem_of_lookup_2.
      * simpl. rewrite Heq. apply list_elem_of_here.
  - rewrite lookup_app_r in Hi by lia.
    destruct (i - length cs) as [|k] eqn:Hk; simpl in Hi; [|done].
    injection Hi as <-. assert (i = length cs) as -> by lia.
    apply lookup_insert_eq.
Qed.

(** Resolving ids against the pool keeps their order, drops the ids no
    color has, and yields only references into the pool whose color
    carries the id asked for. *)
Lemma resolveIds_spec (cs : list Color) (ids : list string) :
  Forall (fun c => c < length cs) (resolveIds (colorMapOf cs) ids)
  /\ map (idAt cs) (resolveIds (colorMapOf cs) ids)
     = filter (fun name => name ∈ map id cs) ids.
Proof.
  unfold resolveIds. induction ids as [|name ids [IH1 IH2]];
    [by split|].
  cbn [omap list_omap].
  destruct (colorMapOf cs !! name) as [i|] eqn:Hi.
  - destruct (colorMapOf_Some _ _ _ Hi) as (c & Hc & Hid).
    assert (name ∈ map id cs) as Hin.
    { apply list_elem_of_fmap. exists c. split; [done|].
      by eapply list_elem_of_lookup_2. }
    split.
    + constructor; [by eapply lookup_lt_Some | exact IH1].
    + rewrite filter_cons_True by exact Hin. cbn [map].
      f_equal; [|exact IH2]. unfold idAt. by rewrite Hc.
  - apply colorMapOf_None in Hi.
    split; [exact IH1|]. by rewrite filter_cons_False.
Qed.

Lemma resolveIds_idAt (cs0 cs : list Color) (refs : list ref) :
  map id cs0 = map id cs -> NoDup (map id cs) ->
  (forall c, c ∈ refs -> c < length cs) ->
  resolveIds (colorMapOf cs0) (map (idAt cs) refs) = refs.
Proof.
  intros Hids Hnd Hval. unfold resolveIds.
  induction refs as [|c refs IH]; [reflexivity|]. cbn [map omap list_omap].
  assert (c < length cs) as Hc by (apply Hval, list_elem_of_here).
  destruct (lookup_lt_is_Some_2 cs c Hc) as [col Hcol].
  assert (exists col0, cs0 !! c = Some col0 /\ id col0 = id col)
    as (col0 & Hcol0 & Hid).
  { assert (map id cs0 !! c = Some (id col)) as H.
    { rewrite Hids. change (map ?f ?xs) with (f <$> xs).
      by rewrite list_lookup_fmap, Hcol. }
    change (map ?f ?xs) with (f <$> xs) in H.
    rewrite list_lookup_fmap in H.
    destruct (cs0 !! c) as [col0|]; simplify_eq/=. eauto. }
  unfold idAt at 1. rewrite Hcol, <- Hid.
  rewrite (colorMapOf_NoDup cs0 c col0) by (by rewrite ?Hids).
  rewrite IH; [reflexivity|].
  intros c' Hc'. apply Hval. by apply list_elem_of_further.
Qed.

(** The method [setFavorites(ids)] replaces the favorites by the colors
    the ids name, in the order given; ids no color has are dropped
    without error, and nothing else changes. *)
Theorem setFavorites_resolves (ids : list string) (st : EloPickerState) :
  let st' := setFavoritesByIds ids st in
  (forall c, c ∈ favorites st' -> c < length (colors st))
  /\ map (idAt (colors st)) (favorites st')
     = filter (fun name => name ∈ map id (colors st)) ids
  /\ colors st' = colors st /\ eliminated st' = eliminated st
  /\ evaluating st' = evaluating st /\ analytics st' = analytics st
  /\ sessionComplete st' = sessionComplete st.
Proof.
  intros st'. subst st'. unfold setFavoritesByIds. simpl.
  destruct (resolveIds_spec (colors st) ids) as [H1 H2].
  split; [|by repeat split].
  intros c Hc. by eapply Forall_forall in H1.
Qed.

(** The overlay of a snapshot's colors, after its first [k] entries. *)
Lemma overlay_prefix (pool0 src : list Color) (k : nat) :
  map id pool0 = map id src -> NoDup (map id src) -> k <= length src ->
  forall i,
    foldl (overlaySaved (colorMapOf pool0)) pool0
      (map saveColor (take k src)) !! i
    = if decide (i < k)
      then match pool0 !! i, src !! i with
           | Some c0, Some c => Some (withSaved (saveColor c) c0)
           | _, _ => None
           end
      else pool0 !! i.
Proof.
  intros Hids Hnd. induction k as [|k IH]; intros Hk i.
  - cbn [take map foldl]. case_decide; [lia | reflexivity].
  - destruct (lookup_lt_is_Some_2 src k ltac:(lia)) as [x Hx].
    rewrite (take_S_r _ _ _ Hx).
    change (map ?f ?xs) with (f <$> xs). rewrite fmap_app. simpl.
    rewrite foldl_snoc.
    change (saveColor <$> take k src) with (map saveColor (take k src)).
    assert (exists c0, pool0 !! k = Some c0 /\ id c0 = id x)
      as (c0 & Hc0 & Hid).
    { assert (map id pool0 !! k = Some (id x)) as H.
      { rewrite Hids. change (map ?f ?xs) with (f <$> xs).
        by rewrite list_lookup_fmap, Hx. }
      change (map ?f ?xs) with (f <$> xs) in H.
      rewrite list_lookup_fmap in H.
      destruct (pool0 !! k) as [c0|]; simplify_eq/=. eauto. }
    unfold overlaySaved at 1. cbn [savedId saveColor].
    rewrite <- Hid, (colorMapOf_NoDup pool0 k c0) by (by rewrite ?Hids).
    rewrite list_lookup_alter.
    destruct (decide (k = i)) as [<-|Hne].
    + rewrite IH by lia. rewrite decide_False by lia.
      rewrite decide_True by lia. rewrite Hc0, Hx. reflexivity.
    + rewrite IH by lia.
      destruct (decide (i < k)), (decide (i < S k)); try lia; reflexivity.
Qed.

(** What [restoreState] makes of a snapshot taken by [getState]. *)
Lemma restore_of_getState (st st0 : EloPickerState) (seed : U01) :
  map id (restorePool (options st0) seed) = map id (colors st) ->
  NoDup (map id (colors st)) ->
  (forall c, c ∈ eliminated st -> c < length (colors st)) ->
  (forall c, c ∈ favorites st -> c < length (colors st)) ->
  (forall ev c, evaluating st = Some ev -> c ∈ ev -> c < length (colors st)) ->
  let st' := restoreState (getState st) seed st0 in
  let stop := sessionComplete st
              || (maxComparisons st0 <=? sessionComparisons (analytics st)) in
  map statsOf (colors st') = map statsOf (colors st)
  /\ map hsl (colors st') = map hsl (restorePool (options st0) seed)
  /\ eliminated st' = eliminated st
  /\ favorites st' = favorites st
  /\ analytics st' = analytics st
  /\ settings st' = settings st
  /\ sessionComplete st' = stop
  /\ evaluating st'
     = if stop then None else Some (default [] (evaluating st)).
Proof.
  intros Hids Hnd Hel Hfav Hev st' stop.
  set (pool0 := restorePool (options st0) seed) in *.
  set (cs := foldl (overlaySaved (colorMapOf pool0)) pool0
               (map saveColor (colors st))).
  assert (length pool0 = length (colors st)) as Hlen.
  { apply (f_equal length) in Hids. by rewrite !length_map in Hids. }
  assert (forall i, cs !! i
            = match pool0 !! i, colors st !! i with
              | Some c0, Some c => Some (withSaved (saveColor c) c0)
              | _, _ => None
              end) as Hcs.
  { intros i. unfold cs.
    rewrite <- (firstn_all (colors st)) at 1.
    rewrite (overlay_prefix pool0 (colors st) _ Hids Hnd) by lia.
    case_decide as Hi; [reflexivity|].
    rewrite (proj2 (lookup_ge_None pool0 i)) by lia. reflexivity. }
  assert (map statsOf cs = map statsOf (colors st)) as Hstats.
  { apply list_eq. intros i.
    change (map ?f ?xs) with (f <$> xs). rewrite !list_lookup_fmap, Hcs.
    destruct (colors st !! i) as [c|] eqn:Hci.
    - assert (exists c0, pool0 !! i = Some c0 /\ id c0 = id c)
        as (c0 & Hc0 & Hid).
      { assert (map id pool0 !! i = Some (id c)) as H.
        { rewrite Hids. change (map ?f ?xs) with (f <$> xs).
          by rewrite list_lookup_fmap, Hci. }
        change (map ?f ?xs) with (f <$> xs) in H.
        rewrite list_lookup_fmap in H.
        destruct (pool0 !! i) as [c0|]; simplify_eq/=. eauto. }
      rewrite Hc0. simpl. unfold statsOf. simpl. by rewrite Hid.
    - by destruct (pool0 !! i). }
  assert (map hsl cs = map hsl pool0) as Hhsl.
  { apply list_eq. intros i.
    change (map ?f ?xs) with (f <$> xs). rewrite !list_lookup_fmap, Hcs.
    destruct (pool0 !! i) as [c0|] eqn:Hc0; [|reflexivity].
    destruct (lookup_lt_is_Some_2 (colors st) i) as [c Hci].
    { apply lookup_lt_Some in Hc0. lia. }
    by rewrite Hci. }
  subst st'. unfold restoreState.
  match goal with |- context [if capReached ?x then _ else _] =>
    set (restored := x)
  end.
  change (capReached restored) with stop.
  assert (colors restored = cs) as Hc by reflexivity.
  assert (eliminated restored = eliminated st) as He.
  { transitivity (resolveIds (colorMapOf pool0)
                    (map (idAt (colors st)) (eliminated st)));
      [reflexivity | by apply resolveIds_idAt]. }
  assert (favorites restored = favorites st) as Hf.
  { transitivity (resolveIds (colorMapOf pool0)
                    (map (idAt (colors st)) (favorites st)));
      [reflexivity | by apply resolveIds_idAt]. }
  assert (evaluating restored = Some (default [] (evaluating st))) as Hv.
  { transitivity
      (Some (resolveIds (colorMapOf pool0)
               match evaluating st with
               | Some ev => map (idAt (colors st)) ev
               | None => []
               end)); [reflexivity|].
    f_equal. destruct (evaluating st) as [ev|] eqn:Hev'; [|reflexivity].
    apply (resolveIds_idAt pool0 (colors st) ev Hids Hnd).
    intros c Hcin. by eapply Hev. }
  assert (analytics restored = analytics st) as Ha by reflexivity.
  assert (settings restored = settings st) as Hs by reflexivity.
  assert (sessionComplete restored = sessionComplete st) as Hsc
    by reflexivity.
  clearbody restored.
  destruct stop eqn:Hstop; simpl; rewrite ?Hc, ?He, ?Hf, ?Hv, ?Ha, ?Hs, ?Hsc;
    repeat split; auto.
  by apply orb_false_iff in Hstop as [? _].
Qed.

(** A snapshot restores what it was taken from.  If the pool that
    [restoreState] rebuilds carries the same ids as the session the
    snapshot came from, and those ids are pairwise distinct, then
    [restoreState(getState())] brings back every color's statistics,
    the eliminated and favorite lists, the analytics and the settings.
    The batch comes back too, unless the session is complete or at the
    target's cap, in which case it is complete without a batch; a
    session that had no batch yet comes back with an empty one. *)
Theorem snapshot_round_trip (st st0 : EloPickerState) (seed : U01) :
  map id (restorePool (options st0) seed) = map id (colors st) ->
  NoDup (map id (colors st)) ->
  (forall c, c ∈ eliminated st -> c < length (colors st)) ->
  (forall c, c ∈ favorites st -> c < length (colors st)) ->
  (forall ev c, evaluating st = Some ev -> c ∈ ev -> c < length (colors st)) ->
  let st' := restoreState (getState st) seed st0 in
  let stop := sessionComplete st
              || (maxComparisons st0 <=? sessionComparisons (analytics st)) in
  map statsOf (colors st') = map statsOf (colors st)
  /\ map hsl (colors st') = map hsl (restorePool (options st0) seed)
  /\ eliminated st' = eliminated st
  /\ favorites st' = favorites st
  /\ analytics st' = analytics st
  /\ settings st' = settings st
  /\ sessionComplete st' = stop
  /\ evaluating st'
     = if stop then None else Some (default [] (evaluating st)).
Proof. exact (restore_of_getState st st0 seed). Qed.

Lemma snapshot_round_trip_witness :
  let st' := restoreState (getState threeSession) half threeHome in
  map statsOf (colors st') = map statsOf (colors threeSession)
  /\ map hsl (colors st') = map hsl (restorePool (options threeHome) half)
  /\ eliminated st' = eliminated threeSession
  /\ favorites st' = favorites threeSession
  /\ analytics st' = analytics threeSession
  /\ settings st' = settings threeSession
  /\ sessionComplete st' = false
  /\ evaluating st' = Some [0; 1; 2].
Proof.
  apply (snapshot_round_trip threeSession threeHome half).
  - reflexivity.
  - apply (bool_decide_unpack _). by vm_compute.
  - intros c Hc. by apply not_elem_of_nil in Hc.
  - intros c Hc. by apply not_elem_of_nil in Hc.
  - intros ev c [= <-] Hc. simpl.
    repeat (apply elem_of_cons in Hc as [->|Hc]; [lia|]).
    by apply not_elem_of_nil in Hc.
Defined.

(** [reset()] starts the session over with the settings in force: the
    eliminated and favorite lists are emptied, the session comparison
    count returns to 0 and the pool is rebuilt from the options.  The
    lifetime counters ([totalComparisons], [picks], [passes]) and the
    decision-time log are not reset. *)
Theorem reset_keeps_lifetime_counters (now : Z) (rng : Rng)
    (st : EloPickerState) :
  let st' := reset now rng st in
  eliminated st' = [] /\ favorites st' = []
  /\ sessionComparisons (analytics st') = 0
  /\ sessionStartTime (analytics st') = now
  /\ totalComparisons (analytics st') = totalComparisons (analytics st)
  /\ picks (analytics st') = picks (analytics st)
  /\ passes (analytics st') = passes (analytics st)
  /\ decisionTimes (analytics st') = decisionTimes (analytics st)
  /\ settings st' = settings st
  /\ maxComparisons st' = maxComparisons st
  /\ colors st'
     = (if bool_decide (generateColors (options st) = Some false)
        then map adoptItem (default [] (items (options st)))
        else generatedPool (options st) (rng 0)).
Proof.
  intros st'. subst st'. unfold reset.
  rewrite initialize_colors. unfold initialize.
  rewrite favorites_nextBatch, analytics_nextBatch, maxComparisons_nextBatch.
  assert (forall s, sessionComparisons (analytics s) = 0 ->
            eliminated (nextBatch now (skipRng 1 rng) s) = eliminated s
            /\ settings (nextBatch now (skipRng 1 rng) s) = settings s)
    as Hnb.
  { intros s Hs. unfold nextBatch. rewrite Hs.
    repeat case_match; try discriminate; split; reflexivity. }
  match goal with |- context [nextBatch now (skipRng 1 rng) ?s] =>
    destruct (Hnb s eq_refl) as [-> ->]
  end.
  repeat split; reflexivity.
Qed.

End Snapshots.

(* ================================================================== *)
(** * How one comparison moves the two ratings *)

Section RatingMoves.

Local Open Scope R_scope.

Lemma expected_favourite (a b : R) :
  b < a -> 1 / 2 < calculateExpectedScore a b.
Proof.
  intros Hab. pose proof (expected_complement a b).
  pose proof (expected_underdog b a Hab). lra.
Qed.

Lemma expected_favourite_le (a b : R) :
  b <= a ->
  1 / 2 <= calculateExpectedScore a b /\ calculateExpectedScore b a <= 1 / 2.
Proof.
  intros [Hlt | ->].
  - pose proof (expected_favourite a b Hlt).
    pose proof (expected_underdog b a Hlt). lra.
  - rewrite expected_equal. lra.
Qed.

(** A decided comparison between two distinct colors never lowers the
    winner's rating and never raises the loser's; the winner gets a win,
    the loser a loss, both one more comparison, and no other color is
    touched. *)
Theorem nondraw_update_direction (cs : list Color) (w lo : ref)
    (cw cl : Color) :
  cs !! w = Some cw -> cs !! lo = Some cl -> w <> lo ->
  let cs' := updateEloRatings w lo false cs in
  eloRating cw <= ratingAt cs' w
  /\ ratingAt cs' lo <= eloRating cl
  /\ comparisonsAt cs' w = S (comparisons cw)
  /\ comparisonsAt cs' lo = S (comparisons cl)
  /\ winsAt cs' w = S (wins cw) /\ lossesAt cs' w = losses cw
  /\ winsAt cs' lo = wins cl /\ lossesAt cs' lo = S (losses cl)
  /\ (forall i, i <> w -> i <> lo -> cs' !! i = cs !! i).
Proof.
  intros Hw Hl Hne cs'. subst cs'.
  unfold ratingAt, comparisonsAt, winsAt, lossesAt.
  rewrite (updateEloRatings_winner _ _ _ _ _ _ Hw Hl Hne).
  rewrite (updateEloRatings_loser _ _ _ _ _ _ Hw Hl Hne).
  unfold winnerUpdate, loserUpdate. simpl.
  pose proof (kFactor_bounds (comparisons cw)) as HK.
  pose proof (expected_bounds (eloRating cw) (eloRating cl)) as HW.
  pose proof (expected_bounds (eloRating cl) (eloRating cw)) as HL.
  set (K := kFactorOf (comparisons cw)) in *.
  set (EW := calculateExpectedScore (eloRating cw) (eloRating cl)) in *.
  set (EL := calculateExpectedScore (eloRating cl) (eloRating cw)) in *.
  clearbody K EW EL.
  repeat split; try reflexivity; try nra.
  intros i Hiw Hil. by apply updateEloRatings_other.
Qed.

Lemma nondraw_update_direction_witness :
  let cs' := updateEloRatings 1 0 false gapPair in
  1500 <= ratingAt cs' 1
  /\ ratingAt cs' 0 <= 1600
  /\ comparisonsAt cs' 1 = 1%nat
  /\ comparisonsAt cs' 0 = 1%nat
  /\ winsAt cs' 1 = 1%nat /\ lossesAt cs' 1 = 0%nat
  /\ winsAt cs' 0 = 0%nat /\ lossesAt cs' 0 = 1%nat
  /\ (forall i, i <> 1%nat -> i <> 0%nat -> cs' !! i = gapPair !! i).
Proof.
  apply (nondraw_update_direction gapPair 1%nat 0%nat
           (sampleColor "b" 120 1500 0) (sampleColor "a" 0 1600 0));
    [reflexivity | reflexivity | lia].
Defined.

(** A draw between two distinct colors never moves the ratings apart:
    the one rated at least as high as the other does not gain, the other
    does not lose.  Both colors get one more comparison and neither a
    win nor a loss, and no other color is touched. *)
Theorem draw_update_direction (cs : list Color) (w lo : ref) (cw cl : Color) :
  cs !! w = Some cw -> cs !! lo = Some cl -> w <> lo ->
  let cs' := updateEloRatings w lo true cs in
  (eloRating cl <= eloRating cw ->
     ratingAt cs' w <= eloRating cw /\ eloRating cl <= ratingAt cs' lo)
  /\ (eloRating cw <= eloRating cl ->
     eloRating cw <= ratingAt cs' w /\ ratingAt cs' lo <= eloRating cl)
  /\ comparisonsAt cs' w = S (comparisons cw)
  /\ comparisonsAt cs' lo = S (comparisons cl)
  /\ winsAt cs' w = wins cw /\ lossesAt cs' w = losses cw
  /\ winsAt cs' lo = wins cl /\ lossesAt cs' lo = losses cl
  /\ (forall i, i <> w -> i <> lo -> cs' !! i = cs !! i).
Proof.
  intros Hw Hl Hne cs'. subst cs'.
  unfold ratingAt, comparisonsAt, winsAt, lossesAt.
  rewrite (updateEloRatings_winner _ _ _ _ _ _ Hw Hl Hne).
  rewrite (updateEloRatings_loser _ _ _ _ _ _ Hw Hl Hne).
  unfold winnerUpdate, loserUpdate. simpl.
  pose proof (kFactor_bounds (comparisons cw)) as HK.
  split; [|split].
  - intros Hle. destruct (expected_favourite_le _ _ Hle). split; nra.
  - intros Hle. destruct (expected_favourite_le _ _ Hle). split; nra.
  - repeat split; try reflexivity.
    intros i Hiw Hil. by apply updateEloRatings_other.
Qed.

Lemma draw_update_direction_witness :
  let cs' := updateEloRatings 0 1 true gapPair in
  ratingAt cs' 0 <= 1600 /\ 1500 <= ratingAt cs' 1
  /\ comparisonsAt cs' 0 = 1%nat /\ comparisonsAt cs' 1 = 1%nat
  /\ winsAt cs' 0 = 0%nat /\ lossesAt cs' 0 = 0%nat
  /\ winsAt cs' 1 = 0%nat /\ lossesAt cs' 1 = 0%nat.
Proof.
  destruct (draw_update_direction gapPair 0%nat 1%nat
              (sampleColor "a" 0 1600 0) (sampleColor "b" 120 1500 0))
    as (Hdown & _ & Hrest); [reflexivity | reflexivity | lia |].
  destruct Hdown as [H1 H2]; [simpl; lra|].
  split; [exact H1|]. split; [exact H2|]. tauto.
Defined.

End RatingMoves.

(* ================================================================== *)
(** * A pass over equally rated colors *)

Section LevelPass.

Lemma addComparisons_0 (c : Color) : addComparisons 0 c = c.
Proof. destruct c. unfold addComparisons. simpl. by rewrite Nat.add_0_r. Qed.

Lemma bumped_ext (f g : ref -> nat) (cs cs' : list Color) :
  (forall i, f i = g i) -> bumped f cs cs' -> bumped g cs cs'.
Proof. intros Hfg H i. rewrite <- Hfg. apply H. Qed.

Lemma bumped_refl (cs : list Color) : bumped (fun _ => 0%nat) cs cs.
Proof.
  intros i. destruct (cs !! i); simpl; [|done]. by rewrite addComparisons_0.
Qed.

Lemma bumped_trans (f g : ref -> nat) (cs cs' cs'' : list Color) :
  bumped f cs cs' -> bumped g cs' cs'' ->
  bumped (fun i => (f i + g i)%nat) cs cs''.
Proof.
  intros Hf Hg i. rewrite Hg, Hf. destruct (cs !! i) as [c|]; simpl; [|done].
  f_equal. unfold addComparisons. simpl. f_equal. lia.
Qed.

Lemma bumped_level (f : ref -> nat) (cs cs' : list Color) (r0 : R) :
  bumped f cs cs' -> Forall (fun c => eloRating c = r0) cs ->
  Forall (fun c => eloRating c = r0) cs'.
Proof.
  intros Hb Hl. apply Forall_lookup. intros i c' Hc'.
  rewrite Hb in Hc'. destruct (cs !! i) as [c|] eqn:Hc; simplify_eq/=.
  by eapply Forall_lookup_1 in Hl.
Qed.

Lemma bumped_length (f : ref -> nat) (cs cs' : list Color) :
  bumped f cs cs' -> length cs' = length cs.
Proof.
  intros Hb. apply Nat.le_antisymm.
  - destruct (decide (length cs' <= length cs)) as [|Hn]; [done|].
    assert (is_Some (cs' !! length cs)) as [c Hc]
      by (apply lookup_lt_is_Some; lia).
    rewrite Hb in Hc. by rewrite (proj2 (lookup_ge_None cs _)) in Hc by lia.
  - destruct (decide (length cs <= length cs')) as [|Hn]; [done|].
    assert (is_Some (cs !! length cs')) as [c Hc]
      by (apply lookup_lt_is_Some; lia).
    pose proof (Hb (length cs')) as H. rewrite Hc in H. simpl in H.
    by rewrite (proj2 (lookup_ge_None cs' _)) in H by lia.
Qed.

(** A draw between equally rated colors only counts. *)
Lemma draw_bumped (cs : list Color) (x y : ref) (r0 : R) :
  Forall (fun c => eloRating c = r0) cs ->
  (x < length cs)%nat -> (y < length cs)%nat ->
  bumped (fun i => ((if decide (i = x) then 1 else 0)
                    + (if decide (i = y) then 1 else 0))%nat)
    cs (updateEloRatings x y true cs).
Proof.
  intros Hl Hx Hy.
  destruct (lookup_lt_is_Some_2 cs x Hx) as [cx Hcx].
  destruct (lookup_lt_is_Some_2 cs y Hy) as [cy Hcy].
  pose proof (Forall_lookup_1 _ _ _ _ Hl Hcx) as Hrx.
  pose proof (Forall_lookup_1 _ _ _ _ Hl Hcy) as Hry.
  simpl in Hrx, Hry.
  rewrite (updateEloRatings_alter _ _ _ _ _ _ Hcx Hcy).
  assert (forall c, winnerUpdate true cx cy c = addComparisons 1 c) as HW.
  { intros c. unfold winnerUpdate, addComparisons. rewrite Hrx, Hry.
    rewrite expected_equal. f_equal; [lra | lia]. }
  assert (forall c, loserUpdate true cx cy c = addComparisons 1 c) as HL.
  { intros c. unfold loserUpdate, addComparisons. rewrite Hrx, Hry.
    rewrite expected_equal. f_equal; [lra | lia]. }
  intros i. cbv beta.
  destruct (decide (i = x)) as [Hix|Hix], (decide (i = y)) as [Hiy|Hiy].
  - subst x y. rewrite !list_lookup_alter_eq, Hcx. simpl.
    rewrite HW, HL. f_equal. unfold addComparisons. simpl. f_equal. lia.
  - subst x. rewrite list_lookup_alter_ne by congruence.
    rewrite list_lookup_alter_eq, Hcx. simpl. by rewrite HW.
  - subst y. rewrite list_lookup_alter_eq.
    rewrite list_lookup_alter_ne by congruence. rewrite Hcy. simpl.
    by rewrite HL.
  - rewrite !list_lookup_alter_ne by congruence.
    destruct (cs !! i); simpl; [|done]. by rewrite addComparisons_0.
Qed.

Lemma draws_against_bumped (cs : list Color) (x : ref) (rest : list ref)
    (r0 : R) :
  Forall (fun c => eloRating c = r0) cs ->
  (x < length cs)%nat -> (forall y, y ∈ rest -> (y < length cs)%nat) ->
  bumped (fun i => ((if decide (i = x) then length rest else 0)
                    + count_occ Nat.eq_dec rest i)%nat)
    cs (foldl (fun cs1 y => updateEloRatings x y true cs1) cs rest).
Proof.
  revert cs. induction rest as [|y rest IH]; intros cs Hl Hx Hval.
  - simpl. eapply bumped_ext; [|apply bumped_refl].
    intros i. simpl. by destruct (decide (i = x)).
  - simpl foldl.
    assert ((y < length cs)%nat) as Hy by apply Hval, list_elem_of_here.
    pose proof (draw_bumped cs x y r0 Hl Hx Hy) as Hstep.
    pose proof (bumped_length _ _ _ Hstep) as Hlen.
    eapply bumped_ext; [|eapply bumped_trans; [exact Hstep|]].
    2:{ apply (IH _ (bumped_level _ _ _ _ Hstep Hl)).
        - by rewrite Hlen.
        - intros z Hz. rewrite Hlen. apply Hval. by apply list_elem_of_further. }
    intros i. simpl.
    destruct (decide (i = x)), (decide (i = y)), (Nat.eq_dec y i);
      subst; try congruence; lia.
Qed.

Lemma drawUpdates_bumped (cs : list Color) (xs : list ref) (r0 : R) :
  Forall (fun c => eloRating c = r0) cs ->
  (forall x, x ∈ xs -> (x < length cs)%nat) ->
  bumped (drawCount xs) cs (drawUpdates xs cs).
Proof.
  revert cs. induction xs as [|x rest IH]; intros cs Hl Hval.
  - simpl. apply bumped_refl.
  - simpl drawUpdates.
    assert ((x < length cs)%nat) as Hx by apply Hval, list_elem_of_here.
    assert (forall y, y ∈ rest -> (y < length cs)%nat) as Hrest.
    { intros y Hy. apply Hval. by apply list_elem_of_further. }
    pose proof (draws_against_bumped cs x rest r0 Hl Hx Hrest) as Hstep.
    pose proof (bumped_length _ _ _ Hstep) as Hlen.
    eapply bumped_ext; [|eapply bumped_trans; [exact Hstep|]].
    2:{ apply (IH _ (bumped_level _ _ _ _ Hstep Hl)).
        intros y Hy. rewrite Hlen. by apply Hrest. }
    intros i. simpl. reflexivity.
Qed.

Lemma drawCount_NoDup (xs : list ref) (i : ref) :
  NoDup xs ->
  drawCount xs i = if decide (i ∈ xs) then (length xs - 1)%nat else 0%nat.
Proof.
  induction 1 as [|x rest Hx Hnd IH]; cbn [drawCount].
  - destruct (decide (i ∈ [])) as [H|_]; [|done].
    by apply not_elem_of_nil in H.
  - rewrite IH. destruct (decide (i = x)) as [->|Hne].
    + rewrite (decide_True (P := x ∈ x :: rest)) by apply list_elem_of_here.
      rewrite (decide_False (P := x ∈ rest)) by exact Hx.
      rewrite (proj1 (count_occ_not_In Nat.eq_dec rest x));
        [simpl; lia | by rewrite <- list_elem_of_In].
    + destruct (decide (i ∈ rest)) as [Hin|Hnin].
      * rewrite (decide_True (P := i ∈ x :: rest))
          by (by apply list_elem_of_further).
        assert (count_occ Nat.eq_dec rest i = 1) as ->.
        { apply NoDup_count_occ'; [by apply NoDup_ListNoDup|].
          by apply list_elem_of_In. }
        destruct rest; [by apply not_elem_of_nil in Hin | simpl; lia].
      * rewrite (decide_False (P := i ∈ x :: rest))
          by (intros H; apply elem_of_cons in H as [?|?]; done).
        rewrite (proj1 (count_occ_not_In Nat.eq_dec rest i));
          [lia | by rewrite <- list_elem_of_In].
Qed.

(** A pass over a batch of equally rated colors changes no rating, win
    or loss anywhere; it adds [n - 1] comparisons to each of the [n]
    colors shown, one for every other color of the batch, and leaves the
    rest of the pool alone. *)
Theorem pass_on_level_pool (now : Z) (rng : Rng) (st : EloPickerState)
    (ev : list ref) (r0 : R) :
  evaluating st = Some ev -> capReached st = false ->
  Forall (fun c => eloRating c = r0) (colors st) ->
  NoDup ev -> (forall c, c ∈ ev -> (c < length (colors st))%nat) ->
  forall i,
    colors (pass now rng st) !! i
    = addComparisons (if decide (i ∈ ev) then (length ev - 1)%nat else 0%nat)
        <$> colors st !! i.
Proof.
  intros Hev Hcap Hl Hnd Hval i. unfold pass. rewrite Hev, Hcap.
  rewrite colors_advance. cbn [colors setAnalytics setColors].
  rewrite (drawUpdates_bumped (colors st) ev r0 Hl Hval i).
  by rewrite drawCount_NoDup.
Qed.

Lemma pass_on_level_pool_witness :
  colors (pass 4 halves threeSession) !! 1%nat
  = addComparisons (if decide (1%nat ∈ [0; 1; 2]%nat) then 2%nat else 0%nat)
      <$> threePool !! 1%nat.
Proof.
  apply (pass_on_level_pool 4%Z halves threeSession [0; 1; 2]%nat 1500%R).
  - reflexivity.
  - reflexivity.
  - repeat constructor.
  - apply (NoDup_seq 0 3).
  - intros c Hc. simpl.
    repeat (apply elem_of_cons in Hc as [->|Hc]; [lia|]).
    by apply not_elem_of_nil in Hc.
Defined.

End LevelPass.

(* ================================================================== *)
(** * What a pick depends on *)

Section PickedIds.

Lemma filter_ext_elem {A : Type} (P Q : A -> Prop)
    `{!forall x, Decision (P x)} `{!forall x, Decision (Q x)} (xs : list A) :
  (forall x, x ∈ xs -> (P x <-> Q x)) -> filter P xs = filter Q xs.
Proof.
  induction xs as [|x xs IH]; intros Hall; [reflexivity|].
  rewrite !filter_cons.
  assert (P x <-> Q x) as Hx by apply Hall, list_elem_of_here.
  rewrite IH by (intros y Hy; apply Hall; by apply list_elem_of_further).
  destruct (decide (P x)), (decide (Q x)); tauto.
Qed.

Lemma filter_none {A : Type} (P : A -> Prop) `{!forall x, Decision (P x)}
    (xs : list A) :
  (forall x, x ∈ xs -> ~ P x) -> filter P xs = [].
Proof.
  induction xs as [|x xs IH]; intros Hall; [reflexivity|].
  rewrite filter_cons_False by apply Hall, list_elem_of_here.
  apply IH. intros y Hy. apply Hall. by apply list_elem_of_further.
Qed.

(** [pick] looks at the picked ids only to split the batch: two
    non-empty id lists that name the same colors of the batch have the
    same effect, so ids of colors that are not shown are ignored. *)
Theorem pick_ignores_ids_outside_batch (picked picked' : list string)
    (now : Z) (rng : Rng) (st : EloPickerState) :
  picked <> [] -> picked' <> [] ->
  (forall ev c, evaluating st = Some ev -> c ∈ ev ->
     isPicked (colors st) picked c = isPicked (colors st) picked' c) ->
  pick picked now rng st = pick picked' now rng st.
Proof.
  intros Hp Hp' Hsame. unfold pick.
  destruct (evaluating st) as [ev|] eqn:Hev; [|reflexivity].
  destruct picked as [|p ps]; [done|]. destruct picked' as [|q qs]; [done|].
  cbn [length Nat.eqb].
  destruct (capReached st); [reflexivity|].
  rewrite (filter_ext_elem
             (fun c => isPicked (colors st) (p :: ps) c = true)
             (fun c => isPicked (colors st) (q :: qs) c = true) ev)
    by (intros c Hc; by rewrite (Hsame ev c eq_refl Hc)).
  rewrite (filter_ext_elem
             (fun c => isPicked (colors st) (p :: ps) c = false)
             (fun c => isPicked (colors st) (q :: qs) c = false) ev)
    by (intros c Hc; by rewrite (Hsame ev c eq_refl Hc)).
  reflexivity.
Qed.

Lemma pick_ignores_ids_outside_batch_witness :
  pick ["a"; "zzz"] 5 halves threeSession = pick ["a"] 5 halves threeSession.
Proof.
  apply (pick_ignores_ids_outside_batch ["a"; "zzz"] ["a"] 5%Z halves
           threeSession); [discriminate | discriminate |].
  intros ev c [= <-] Hc.
  repeat (apply elem_of_cons in Hc as [->|Hc]; [reflexivity|]).
  by apply not_elem_of_nil in Hc.
Defined.

(** A pick that names no color of the batch makes every shown color a
    loser with nobody to lose to: no statistic changes, yet the round is
    counted as a pick. *)
Theorem pick_without_winner_counts (picked : list string) (now : Z)
    (rng : Rng) (st : EloPickerState) (ev : list ref) :
  evaluating st = Some ev -> picked <> [] -> capReached st = false ->
  (forall c, c ∈ ev -> isPicked (colors st) picked c = false) ->
  let st' := pick picked now rng st in
  colors st' = colors st
  /\ sessionComparisons (analytics st') = S (sessionComparisons (analytics st))
  /\ totalComparisons (analytics st') = S (totalComparisons (analytics st))
  /\ picks (analytics st') = S (picks (analytics st))
  /\ passes (analytics st') = passes (analytics st).
Proof.
  intros Hev Hp Hcap Hnone st'. subst st'. unfold pick.
  rewrite Hev, Hcap. destruct picked as [|p ps]; [done|].
  cbn [length Nat.eqb].
  rewrite colors_advance, colors_checkForNewFavorites.
  rewrite analytics_advance, analytics_checkForNewFavorites.
  cbn [colors analytics setAnalytics setColors].
  rewrite (filter_none (fun c => isPicked (colors st) (p :: ps) c = true))
    by (intros c Hc; rewrite (Hnone c Hc); discriminate).
  repeat split; reflexivity.
Qed.

Lemma pick_without_winner_counts_witness :
  let st' := pick ["zzz"] 5 halves threeSession in
  colors st' = colors threeSession
  /\ sessionComparisons (analytics st') = 1
  /\ totalComparisons (analytics st') = 1
  /\ picks (analytics st') = 1
  /\ passes (analytics st') = 0.
Proof.
  apply (pick_without_winner_counts ["zzz"] 5%Z halves threeSession [0; 1; 2]);
    [reflexivity | discriminate | reflexivity |].
  intros c Hc.
  repeat (apply elem_of_cons in Hc as [->|Hc]; [reflexivity|]).
  by apply not_elem_of_nil in Hc.
Defined.

(** With a cap below 20 no color is ever promoted: promotion is only
    considered from the twentieth session comparison on, and the session
    is complete before that. *)
Theorem no_promotion_below_twenty (st0 : EloPickerState)
    (given : option Settings) (now : Z) (rng : Rng) (ds : list Action) :
  maxComparisons st0 < 20 ->
  favorites (run ds (initialize given now rng st0)) = [].
Proof.
  intros Hmax.
  destruct (initialize_phase given now rng st0) as (Hph & _ & Hm).
  assert (favorites (initialize given now rng st0) = []) as Hf.
  { unfold initialize. by rewrite favorites_nextBatch. }
  assert (maxComparisons (initialize given now rng st0) < 20) as Hm'
    by (by rewrite Hm).
  revert Hph Hf Hm'. generalize (initialize given now rng st0).
  unfold run. induction ds as [|d ds IH]; intros st Hph Hf Hm'; simpl;
    [exact Hf|].
  apply IH.
  - by apply applyAction_phase.
  - destruct d as [picked t r | t r]; simpl; unfold pick, pass.
    + destruct (evaluating st) eqn:Hev; [|exact Hf].
      destruct (length picked =? 0); [exact Hf|].
      destruct (capReached st) eqn:Hcap; [exact Hf|].
      assert (forall s, favorites (advance t r s) = favorites s) as Hadv.
      { intros s. unfold advance. case_match; [done|].
        apply favorites_nextBatch. }
      rewrite Hadv. unfold checkForNewFavorites.
      cbn [analytics setAnalytics sessionComparisons recordDecision].
      unfold capReached in Hcap. apply orb_false_iff in Hcap as [_ Hcap].
      apply Nat.leb_gt in Hcap.
      rewrite (proj2 (Nat.leb_gt 20 _)) by lia. exact Hf.
    + destruct (evaluating st) eqn:Hev; [|exact Hf].
      destruct (capReached st) eqn:Hcap; [exact Hf|].
      unfold advance. case_match; [exact Hf|].
      by rewrite favorites_nextBatch.
  - by rewrite maxComparisons_applyAction.
Qed.

Lemma no_promotion_below_twenty_witness :
  favorites (run [DoPick ["color_1"] 3 halves; DoPass 4 halves]
               (initialize None 0 halves shortSession)) = [].
Proof.
  apply (no_promotion_below_twenty shortSession None 0%Z halves
           [DoPick ["color_1"] 3 halves; DoPass 4 halves]).
  simpl. lia.
Defined.

End PickedIds.

(* ================================================================== *)
(** * Restoring an arbitrary snapshot *)

Section AnySnapshot.

Lemma overlaySaved_looks (m : gmap string ref) (cs : list Color)
    (s : SavedColor) :
  map id (overlaySaved m cs s) = map id cs
  /\ map hsl (overlaySaved m cs s) = map hsl cs.
Proof.
  unfold overlaySaved. destruct (m !! savedId s) as [i|]; [|done].
  split; apply list_eq; intros j; rewrite !list_lookup_fmap;
    (destruct (decide (j = i)) as [->|Hne];
     [rewrite list_lookup_alter_eq; by destruct (cs !! i)
     |by rewrite list_lookup_alter_ne]).
Qed.

Lemma overlay_all_looks (m : gmap string ref) (saved : list SavedColor)
    (cs : list Color) :
  map id (foldl (overlaySaved m) cs saved) = map id cs
  /\ map hsl (foldl (overlaySaved m) cs saved) = map hsl cs.
Proof.
  revert cs. induction saved as [|s saved IH]; intros cs; [done|].
  cbn [foldl]. destruct (IH (overlaySaved m cs s)) as [-> ->].
  apply overlaySaved_looks.
Qed.

(** Whatever the snapshot holds, [restoreState] yields a session over
    the rebuilt pool: the colors keep the pool's ids and looks (saved
    colors with an unknown id are skipped, none is added), the cap is
    the session's own, and the eliminated, favorite and batch lists only
    hold references into the pool (saved ids no color has are dropped). *)
Theorem restoreState_any_snapshot (state : Snapshot) (seed : U01)
    (st0 : EloPickerState) :
  let st' := restoreState state seed st0 in
  let pool0 := restorePool (options st0) seed in
  map id (colors st') = map id pool0
  /\ map hsl (colors st') = map hsl pool0
  /\ maxComparisons st' = maxComparisons st0
  /\ (forall c, c ∈ eliminated st' -> c < length pool0)
  /\ (forall c, c ∈ favorites st' -> c < length pool0)
  /\ (forall ev c, evaluating st' = Some ev -> c ∈ ev -> c < length pool0).
Proof.
  intros st' pool0. subst st'. unfold restoreState.
  fold (restorePool (options st0) seed). fold pool0.
  assert (forall ids c, c ∈ resolveIds (colorMapOf pool0) ids ->
                        c < length pool0) as Hres.
  { intros ids c Hc.
    destruct (resolveIds_spec pool0 ids) as [Hall _].
    rewrite Forall_forall in Hall. by apply Hall. }
  assert (forall o c,
            c ∈ default [] (resolveIds (colorMapOf pool0) <$> o) ->
            c < length pool0) as Hdef.
  { intros [ids|] c Hc; simpl in Hc; [by eapply Hres|].
    by apply not_elem_of_nil in Hc. }
  match goal with
  | |- context [capReached ?x] => set (restored := x)
  end.
  assert (map id (colors restored) = map id pool0
          /\ map hsl (colors restored) = map hsl pool0) as [Hid Hhsl].
  { subst restored. cbn [colors].
    destruct (snapColors state) as [saved|]; [|done].
    apply overlay_all_looks. }
  assert (forall ev c, evaluating restored = Some ev -> c ∈ ev ->
                       c < length pool0) as Hev.
  { intros ev c. subst restored. cbn [evaluating].
    destruct (snapEvaluating state) as [ids|]; [|done].
    simpl. intros [= <-]. apply Hres. }
  destruct (capReached restored); unfold complete;
    cbn [colors maxComparisons eliminated favorites evaluating
         setEvaluating setSessionComplete];
    repeat split; try exact Hid; try exact Hhsl; try apply Hdef;
    try exact Hev; try done.
Qed.

End AnySnapshot.

(* ================================================================== *)
(** * The color space utilities *)

Section ColorSpace.

Lemma Qltb_true (a b : Q) : Qltb a b = true -> (a < b)%Q.
Proof.
  unfold Qltb. intros H%negb_true_iff. apply Qnot_le_lt. intros Hle.
  apply Qle_bool_iff in Hle. congruence.
Qed.

Lemma Qltb_false (a b : Q) : Qltb a b = false -> (b <= a)%Q.
Proof.
  unfold Qltb. intros H%negb_false_iff. by apply Qle_bool_iff.
Qed.

Lemma mathRound_mono (x y : Q) : (x <= y)%Q -> (mathRound x <= mathRound y)%Z.
Proof.
  intros Hxy. unfold mathRound. apply Qfloor_resp_le. Lqa.lra.
Qed.

Lemma mathRound_int (x : Q) (n : Z) : (x == inject_Z n)%Q -> mathRound x = n.
Proof.
  intros Hx. unfold mathRound.
  pose proof (Qfloor_le (x + (1 # 2))) as Hle.
  pose proof (Qlt_floor (x + (1 # 2))) as Hlt.
  set (f := Qfloor (x + (1 # 2))) in *. clearbody f.
  assert (inject_Z f < inject_Z (n + 1))%Q as H1.
  { rewrite inject_Z_plus. change (inject_Z 1) with 1%Q. Lqa.lra. }
  assert (inject_Z n < inject_Z (f + 1))%Q as H2 by Lqa.lra.
  rewrite <- Zlt_Qlt in H1, H2. lia.
Qed.

(** A channel value in the unit interval rounds to a byte. *)
Lemma mathRound_byte (v : Q) :
  (0 <= v)%Q -> (v <= 1)%Q -> (0 <= mathRound (v * 255) <= 255)%Z.
Proof.
  intros H0 H1.
  assert (0 <= v * 255)%Q as Hlo by Lqa.lra.
  assert (v * 255 <= 255)%Q as Hhi by Lqa.lra.
  apply mathRound_mono in Hlo, Hhi.
  change (mathRound 0) with 0%Z in Hlo.
  change (mathRound 255) with 255%Z in Hhi. lia.
Qed.

(** [hue2rgb] interpolates between [p] and [q]. *)
Lemma hue2rgb_between (p q t : Q) :
  (p <= q)%Q -> (-1 <= t)%Q -> (p <= hue2rgb p q t)%Q /\ (hue2rgb p q t <= q)%Q.
Proof.
  intros Hpq Ht. unfold hue2rgb.
  destruct (Qltb t 0) eqn:E0;
    [apply Qltb_true in E0 | apply Qltb_false in E0].
  - destruct (Qltb 1 (t + 1)) eqn:E1;
      [apply Qltb_true in E1; Lqa.lra | apply Qltb_false in E1].
    destruct (Qltb (t + 1) (1 # 6)) eqn:E2;
      [apply Qltb_true in E2 | apply Qltb_false in E2].
    { split; Lqa.nra. }
    destruct (Qltb (t + 1) (1 # 2)) eqn:E3; [split; Lqa.lra|].
    apply Qltb_false in E3.
    destruct (Qltb (t + 1) (2 # 3)) eqn:E4;
      [apply Qltb_true in E4; split; Lqa.nra | split; Lqa.lra].
  - destruct (Qltb 1 t) eqn:E1;
      [apply Qltb_true in E1 | apply Qltb_false in E1].
    + destruct (Qltb (t - 1) (1 # 6)) eqn:E2;
        [apply Qltb_true in E2 | apply Qltb_false in E2].
      { split; Lqa.nra. }
      destruct (Qltb (t - 1) (1 # 2)) eqn:E3; [split; Lqa.lra|].
      apply Qltb_false in E3.
      destruct (Qltb (t - 1) (2 # 3)) eqn:E4;
        [apply Qltb_true in E4; split; Lqa.nra | split; Lqa.lra].
    + destruct (Qltb t (1 # 6)) eqn:E2;
        [apply Qltb_true in E2 | apply Qltb_false in E2].
      { split; Lqa.nra. }
      destruct (Qltb t (1 # 2)) eqn:E3; [split; Lqa.lra|].
      apply Qltb_false in E3.
      destruct (Qltb t (2 # 3)) eqn:E4;
        [apply Qltb_true in E4; split; Lqa.nra | split; Lqa.lra].
Qed.

Lemma percent_unit (n : nat) :
  n <= 100 ->
  (0 <= inject_Z (Z.of_nat n) / 100)%Q /\ (inject_Z (Z.of_nat n) / 100 <= 1)%Q.
Proof.
  intros Hn.
  assert (inject_Z 0 <= inject_Z (Z.of_nat n))%Q as H0
    by (rewrite <- Zle_Qle; lia).
  assert (inject_Z (Z.of_nat n) <= inject_Z 100)%Q as H1
    by (rewrite <- Zle_Qle; lia).
  change (inject_Z 0) with 0%Q in H0. change (inject_Z 100) with 100%Q in H1.
  set (x := inject_Z (Z.of_nat n)) in *. clearbody x.
  unfold Qdiv. change (/ 100)%Q with (1 # 100)%Q. split; Lqa.lra.
Qed.

(** The two interpolation ends [p <= q] of [hslToRgb] lie in the unit
    interval. *)
Lemma hsl_ends (s' l' : Q) :
  (0 <= s')%Q -> (s' <= 1)%Q -> (0 <= l')%Q -> (l' <= 1)%Q ->
  let q := if Qltb l' (1 # 2) then (l' * (1 + s'))%Q
           else (l' + s' - l' * s')%Q in
  let p := (2 * l' - q)%Q in
  (0 <= p)%Q /\ (p <= l')%Q /\ (l' <= q)%Q /\ (q <= 1)%Q.
Proof.
  intros Hs0 Hs1 Hl0 Hl1 q p. subst p q.
  destruct (Qltb l' (1 # 2)) eqn:E;
    [apply Qltb_true in E | apply Qltb_false in E];
    repeat split; Lqa.nra.
Qed.

(** For a saturation and a lightness of at most 100 percent, and any
    hue, [hslToRgb] yields three channels between 0 and 255. *)
Theorem hslToRgb_bytes (h s l : nat) :
  s <= 100 -> l <= 100 ->
  isByte (r (hslToRgb h s l)) /\ isByte (g (hslToRgb h s l))
  /\ isByte (b (hslToRgb h s l)).
Proof.
  intros Hs Hl. unfold hslToRgb, isByte.
  destruct (percent_unit s Hs) as [Hs0 Hs1].
  destruct (percent_unit l Hl) as [Hl0 Hl1].
  assert (0 <= inject_Z (Z.of_nat h) / 360)%Q as Hh.
  { assert (inject_Z 0 <= inject_Z (Z.of_nat h))%Q as H0
      by (rewrite <- Zle_Qle; lia).
    change (inject_Z 0) with 0%Q in H0.
    set (x := inject_Z (Z.of_nat h)) in *. clearbody x.
    unfold Qdiv. change (/ 360)%Q with (1 # 360)%Q. Lqa.lra. }
  set (h' := (inject_Z (Z.of_nat h) / 360)%Q) in *.
  set (s' := (inject_Z (Z.of_nat s) / 100)%Q) in *.
  set (l' := (inject_Z (Z.of_nat l) / 100)%Q) in *.
  clearbody h' s' l'.
  destruct (Qeq_bool s' 0).
  - cbn [r g b]. pose proof (mathRound_byte l' Hl0 Hl1). tauto.
  - destruct (hsl_ends s' l' Hs0 Hs1 Hl0 Hl1) as (Hp0 & Hpl & Hlq & Hq1).
    cbv zeta in Hp0, Hpl, Hlq, Hq1.
    set (q := if Qltb l' (1 # 2) then (l' * (1 + s'))%Q
              else (l' + s' - l' * s')%Q) in *.
    set (p := (2 * l' - q)%Q) in *. clearbody p. clearbody q.
    assert (p <= q)%Q as Hpq by Lqa.lra.
    cbn [r g b].
    assert (forall t, (-1 <= t)%Q ->
              (0 <= mathRound (hue2rgb p q t * 255) <= 255)%Z) as Hch.
    { intros t Ht. destruct (hue2rgb_between p q t Hpq Ht).
      apply mathRound_byte; Lqa.lra. }
    repeat split; apply Hch; Lqa.lra.
Qed.

Lemma hslToRgb_bytes_witness :
  isByte (r (hslToRgb 200 80 45)) /\ isByte (g (hslToRgb 200 80 45))
  /\ isByte (b (hslToRgb 200 80 45)).
Proof.
  apply (hslToRgb_bytes 200 80 45); lia.
Defined.

(** Lightness 0 is black and lightness 100 is white, whatever the hue
    and the saturation. *)
Theorem hslToRgb_black_and_white (h s : nat) :
  s <= 100 ->
  hslToRgb h s 0 = mkRGB 0 0 0 /\ hslToRgb h s 100 = mkRGB 255 255 255.
Proof.
  intros Hs.
  destruct (percent_unit s Hs) as [Hs0 Hs1].
  assert (0 <= inject_Z (Z.of_nat h) / 360)%Q as Hh.
  { assert (inject_Z 0 <= inject_Z (Z.of_nat h))%Q as H0
      by (rewrite <- Zle_Qle; lia).
    change (inject_Z 0) with 0%Q in H0.
    set (x := inject_Z (Z.of_nat h)) in *. clearbody x.
    unfold Qdiv. change (/ 360)%Q with (1 # 360)%Q. Lqa.lra. }
  unfold hslToRgb.
  set (h' := (inject_Z (Z.of_nat h) / 360)%Q) in *.
  set (s' := (inject_Z (Z.of_nat s) / 100)%Q) in *.
  clearbody h' s'.
  assert (forall (l' : Q) (n : Z) t,
            (l' == 0 \/ l' == 1)%Q -> (inject_Z n == l' * 255)%Q ->
            (-1 <= t)%Q ->
            mathRound
              (hue2rgb (2 * l' - (if Qltb l' (1 # 2) then l' * (1 + s')
                                  else l' + s' - l' * s'))
                 (if Qltb l' (1 # 2) then l' * (1 + s')
                  else l' + s' - l' * s') t * 255) = n) as Hch.
  { intros l' n t Hl' Hn Ht.
    assert (0 <= l')%Q as Hl0 by (destruct Hl'; Lqa.lra).
    assert (l' <= 1)%Q as Hl1 by (destruct Hl'; Lqa.lra).
    destruct (hsl_ends s' l' Hs0 Hs1 Hl0 Hl1) as (Hp0 & Hpl & Hlq & Hq1).
    cbv zeta in Hp0, Hpl, Hlq, Hq1.
    set (q := if Qltb l' (1 # 2) then (l' * (1 + s'))%Q
              else (l' + s' - l' * s')%Q) in *.
    assert (q == l')%Q as Hq.
    { subst q. destruct (Qltb l' (1 # 2)) eqn:E;
        [apply Qltb_true in E | apply Qltb_false in E];
        destruct Hl' as [Hl'|Hl']; try Lqa.lra; rewrite Hl'; Lqa.lra. }
    clearbody q.
    destruct (hue2rgb_between (2 * l' - q) q t) as [Ha Hb]; [Lqa.lra | done |].
    apply mathRound_int. Lqa.lra. }
  split.
  - change (inject_Z (Z.of_nat 0) / 100)%Q with (0 # 100)%Q.
    destruct (Qeq_bool s' 0); [reflexivity|].
    f_equal; apply Hch; try (left; reflexivity); try reflexivity; Lqa.lra.
  - change (inject_Z (Z.of_nat 100) / 100)%Q with (100 # 100)%Q.
    destruct (Qeq_bool s' 0); [reflexivity|].
    f_equal; apply Hch; try (right; reflexivity); try reflexivity; Lqa.lra.
Qed.

Lemma hslToRgb_black_and_white_witness :
  hslToRgb 200 80 0 = mkRGB 0 0 0 /\ hslToRgb 200 80 100 = mkRGB 255 255 255.
Proof.
  apply (hslToRgb_black_and_white 200 80); lia.
Defined.

(** A type name other than the three known ones leaves the color as it
    is. *)
Theorem simulateColorBlindness_unknown_type (rgb : RGB) (type : string) :
  type <> "protanopia" -> type <> "deuteranopia" -> type <> "tritanopia" ->
  simulateColorBlindness rgb type = rgb.
Proof.
  intros H1 H2 H3. unfold simulateColorBlindness, blindnessMatrix.
  apply String.eqb_neq in H1, H2, H3. by rewrite H1, H2, H3.
Qed.

Lemma simulateColorBlindness_unknown_type_witness :
  simulateColorBlindness (mkRGB 10 20 30) "normal" = mkRGB 10 20 30.
Proof.
  apply (simulateColorBlindness_unknown_type (mkRGB 10 20 30) "normal");
    discriminate.
Defined.

Lemma byte_unit (z : Z) :
  isByte z -> (0 <= inject_Z z / 255)%Q /\ (inject_Z z / 255 <= 1)%Q.
Proof.
  intros [H0 H1].
  rewrite Zle_Qle in H0, H1.
  change (inject_Z 0) with 0%Q in H0. change (inject_Z 255) with 255%Q in H1.
  set (x := inject_Z z) in *. clearbody x.
  unfold Qdiv. change (/ 255)%Q with (1 # 255)%Q. split; Lqa.lra.
Qed.

(** Every simulated color vision maps byte channels to byte channels. *)
Theorem simulateColorBlindness_bytes (rgb : RGB) (type : string) :
  isByte (r rgb) -> isByte (g rgb) -> isByte (b rgb) ->
  let out := simulateColorBlindness rgb type in
  isByte (r out) /\ isByte (g out) /\ isByte (b out).
Proof.
  intros Hr Hg Hb out. subst out.
  destruct (byte_unit _ Hr) as [Hr0 Hr1].
  destruct (byte_unit _ Hg) as [Hg0 Hg1].
  destruct (byte_unit _ Hb) as [Hb0 Hb1].
  unfold simulateColorBlindness, blindnessMatrix.
  set (r' := (inject_Z (r rgb) / 255)%Q) in *.
  set (g' := (inject_Z (g rgb) / 255)%Q) in *.
  set (b' := (inject_Z (b rgb) / 255)%Q) in *.
  clearbody r' g' b'.
  destruct (String.eqb type "protanopia");
    [|destruct (String.eqb type "deuteranopia");
      [|destruct (String.eqb type "tritanopia"); [|done]]];
    unfold mixChannel; cbn [r g b nth];
    repeat split; apply mathRound_byte; Lqa.lra.
Qed.

Lemma simulateColorBlindness_bytes_witness :
  let out := simulateColorBlindness (mkRGB 255 0 128) "protanopia" in
  isByte (r out) /\ isByte (g out) /\ isByte (b out).
Proof.
  apply (simulateColorBlindness_bytes (mkRGB 255 0 128) "protanopia");
    unfold isByte; simpl; lia.
Defined.

(** Every simulated color vision leaves a gray as it is: each row of
    each matrix sums to one. *)
Theorem simulateColorBlindness_gray (n : Z) (type : string) :
  isByte n ->
  simulateColorBlindness (mkRGB n n n) type = mkRGB n n n.
Proof.
  intros _. unfold simulateColorBlindness, blindnessMatrix. cbn [r g b].
  set (x := inject_Z n).
  assert (forall a b c : Q, (a + b + c == 1)%Q ->
            mathRound ((a * (x / 255) + b * (x / 255) + c * (x / 255)) * 255)
            = n) as Hrow.
  { intros a b c Habc. apply mathRound_int. fold x.
    unfold Qdiv. change (/ 255)%Q with (1 # 255)%Q.
    transitivity ((a + b + c) * x)%Q; [Lqa.lra|]. rewrite Habc. Lqa.lra. }
  destruct (String.eqb type "protanopia");
    [|destruct (String.eqb type "deuteranopia");
      [|destruct (String.eqb type "tritanopia"); [|done]]];
    unfold mixChannel; cbn [nth]; f_equal; apply Hrow; reflexivity.
Qed.

Lemma simulateColorBlindness_gray_witness :
  simulateColorBlindness (mkRGB 128 128 128) "tritanopia"
  = mkRGB 128 128 128.
Proof.
  apply (simulateColorBlindness_gray 128 "tritanopia").
  unfold isByte. lia.
Defined.

(** Every index has a pattern, one of the ten, and the patterns repeat
    with period ten. *)
Theorem getPatternForColor_cycles (index : nat) :
  (exists p, getPatternForColor index = Some p /\ p ∈ patterns)
  /\ getPatternForColor (index + 10) = getPatternForColor index.
Proof.
  unfold getPatternForColor. change (length patterns) with 10. split.
  - assert (index mod 10 < length patterns) as Hlt
      by (change (length patterns) with 10; apply Nat.mod_upper_bound; lia).
    destruct (lookup_lt_is_Some_2 _ _ Hlt) as [p Hp].
    exists p. split; [exact Hp|]. by eapply list_elem_of_lookup_2.
  - f_equal. replace (index + 10) with (index + 1 * 10) by lia.
    apply Nat.Div0.mod_add.
Qed.

End ColorSpace.

(* ================================================================== *)
(** * Saving and reloading a generated session *)

Section Reload.

Lemma generatedPool_ids (opts : Options) (seed seed' : U01) :
  map id (generatedPool opts seed) = map id (generatedPool opts seed')
  /\ NoDup (map id (generatedPool opts seed)).
Proof.
  unfold generatedPool, generatePerceptuallyDistinctColors.
  rewrite !generateFrom_ids. split; [reflexivity|].
  change (map ?f ?xs) with (f <$> xs).
  assert (Inj (=) (=) (fun k : nat => "color_" +:+ pretty k)) as Hinj.
  { intros a1 a2 Heq. apply (inj (String.app "color_")) in Heq.
    by apply (inj pretty) in Heq. }
  apply (NoDup_fmap_2 _), NoDup_seq.
Qed.

Lemma run_keeps_ids (ds : list Action) (st : EloPickerState) :
  map id (colors (run ds st)) = map id (colors st).
Proof.
  apply (run_inv (fun cs => map id cs = map id (colors st))); [|reflexivity].
  intros w lo d cs <-.
  assert (Forall2 drift cs (updateEloRatings w lo d cs)) as Hd.
  { apply updateEloRatings_drift.
    apply Forall2_same_length_lookup. split; [reflexivity|].
    intros i x y Hx Hy. assert (x = y) as -> by congruence.
    apply drift_refl. }
  induction Hd as [|c0 c cs0 cs1 Hc _ IH]; [done|].
  simpl. destruct Hc as (-> & _). by rewrite IH.
Qed.

Lemma run_phase (ds : list Action) (st : EloPickerState) :
  phaseOk st -> phaseOk (run ds st).
Proof.
  unfold run. revert st. induction ds as [|d ds IH]; intros st Hst; simpl;
    [exact Hst|].
  by apply IH, applyAction_phase.
Qed.

Lemma run_membership (ds : list Action) (st : EloPickerState) :
  membershipOk st -> membershipOk (run ds st).
Proof.
  unfold run. revert st. induction ds as [|d ds IH]; intros st Hst; simpl;
    [exact Hst|].
  by apply IH, applyAction_membership.
Qed.

Lemma initialize_membership (given : option Settings) (now : Z) (rng : Rng)
    (st0 : EloPickerState) :
  membershipOk (initialize given now rng st0).
Proof.
  unfold initialize. apply nextBatch_membership; simpl;
    try apply NoDup_nil_2; intros c Hc; by apply not_elem_of_nil in Hc.
Qed.

(** A session over generated colors survives saving and reloading at
    any moment.  Take the snapshot of a session after any run of
    decisions and restore it into a session object built from the same
    options and cap: every color's statistics, the eliminated and
    favorite lists, the analytics, the settings, the completion flag and
    the batch come back as they were.  The colors' looks do not: they
    are those of the pool generated anew on restoring. *)
Theorem generated_session_reloads (st0 st1 : EloPickerState)
    (given : option Settings) (now : Z) (rng : Rng) (ds : list Action)
    (seed : U01) :
  generateColors (options st0) <> Some false ->
  options st1 = options st0 ->
  maxComparisons st1 = maxComparisons st0 ->
  let st := run ds (initialize given now rng st0) in
  let st' := restoreState (getState st) seed st1 in
  map statsOf (colors st') = map statsOf (colors st)
  /\ map hsl (colors st') = map hsl (generatedPool (options st0) seed)
  /\ eliminated st' = eliminated st
  /\ favorites st' = favorites st
  /\ analytics st' = analytics st
  /\ settings st' = settings st
  /\ sessionComplete st' = sessionComplete st
  /\ evaluating st' = evaluating st.
Proof.
  intros Hgen Hopts Hmax st st'.
  assert (restorePool (options st1) seed = generatedPool (options st0) seed)
    as Hpool.
  { unfold restorePool. rewrite Hopts.
    by rewrite bool_decide_eq_false_2 by exact Hgen. }
  assert (map id (colors st) = map id (generatedPool (options st0) seed))
    as Hids.
  { subst st. rewrite run_keeps_ids, initialize_colors.
    rewrite bool_decide_eq_false_2 by exact Hgen.
    apply generatedPool_ids. }
  assert (membershipOk st) as (_ & _ & Hel & Hfav & _ & Hev).
  { apply run_membership, initialize_membership. }
  assert (phaseOk st) as Hph.
  { apply run_phase, initialize_phase. }
  assert (maxComparisons st = maxComparisons st0) as Hm.
  { subst st. rewrite maxComparisons_run.
    apply (initialize_phase given now rng st0). }
  destruct (restore_of_getState st st1 seed)
    as (H1 & H2 & H3 & H4 & H5 & H6 & H7 & H8).
  - by rewrite Hpool, Hids.
  - rewrite Hids. apply (generatedPool_ids (options st0) seed seed).
  - exact Hel.
  - exact Hfav.
  - intros ev c Hsome Hc. destruct (Hev ev Hsome) as (_ & _ & Hav).
    apply Hav, availableOf_elem in Hc. tauto.
  - fold st' in H1, H2, H3, H4, H5, H6, H7, H8.
    rewrite Hpool in H2. rewrite Hmax, <- Hm in H7, H8.
    repeat split; try assumption.
    + rewrite H7. destruct Hph as [[-> _] | (-> & _ & Hlt)]; [done|].
      simpl. apply Nat.leb_gt. exact Hlt.
    + rewrite H8. destruct Hph as [[-> ->] | (-> & [ev Hsome] & Hlt)];
        [done|].
      rewrite (proj2 (Nat.leb_gt _ _) Hlt), Hsome. reflexivity.
Qed.

Lemma generated_session_reloads_witness :
  let st := run [DoPick ["color_1"] 3 halves]
              (initialize None 0 halves shortSession) in
  let st' := restoreState (getState st) half shortSession in
  map statsOf (colors st') = map statsOf (colors st)
  /\ map hsl (colors st') = map hsl (generatedPool (options shortSession) half)
  /\ eliminated st' = eliminated st
  /\ favorites st' = favorites st
  /\ analytics st' = analytics st
  /\ settings st' = settings st
  /\ sessionComplete st' = sessionComplete st
  /\ evaluating st' = evaluating st.
Proof.
  apply (generated_session_reloads shortSession shortSession None 0%Z halves
           [DoPick ["color_1"] 3 halves] half);
    [discriminate | reflexivity | reflexivity].
Defined.

End Reload.
